(** * Finance_ETL: change-detection upsert, audit ledger, state chain and rollback

    A shallow embedding of the core of the repository:
    - [src/pipeline.py]: [_compute_row_hash], [_clean_pk_series];
    - [src/merge.py]: [_row_to_json], [_diff_cols], [_fetch_existing_bulk],
      [_push_sample], [merge_upsert];
    - [src/audit.py]: [log_row_change];
    - [src/state.py]: the HEAD pointer helpers, [create_state_image],
      [_collect_head_to_target_chain], [rollback_change_event],
      [rollback_to_point_in_time];
    - [src/audit.py]: [start_change_event], [finish_change_event];
    - [src/ddl.py]: [_strip_sql_comments], [_trim_to_sql_start],
      [apply_schema];
    - [src/extract.py]: the CSV case of [get_raw_row_count].

    Python values are a small tagged type, dictionaries and table rows are
    finite maps from column names to values, tables of the relational store
    are finite maps or lists of records, and every function that touches the
    database takes the database state and returns the new one.  A Python
    exception is an [Raise] result. *)

From Stdlib Require Import ZArith String Ascii List Bool Lia.
From stdpp Require Import gmap strings list pretty.

Local Open Scope string_scope.
Local Open Scope list_scope.

(** ** Python values *)

Module Py.

(** The scalar values that travel through the pipeline: [None], a float
    NaN (what pandas uses for a missing cell), integers and text. *)
Inductive value : Type :=
  | VNone
  | VNaN
  | VInt (n : Z)
  | VStr (s : string).

#[global] Instance value_eq_dec : EqDecision value.
Proof. solve_decision. Defined.

(** [pd.isna(v)] *)
Definition isna (v : value) : bool :=
  match v with
  | VNone | VNaN => true
  | _ => false
  end.

(** [str(v)] *)
Definition py_str (v : value) : string :=
  match v with
  | VNone => "None"
  | VNaN => "nan"
  | VInt n => pretty n
  | VStr s => s
  end.

(** [a == b]: a NaN is equal to nothing, not even to itself. *)
Definition py_eq (a b : value) : bool :=
  match a, b with
  | VNaN, _ | _, VNaN => false
  | _, _ => bool_decide (a = b)
  end.

(** [a != b] *)
Definition py_ne (a b : value) : bool := negb (py_eq a b).

(** Truth value of an [Optional[str]]: [None] and the empty string are
    false. *)
Definition truthy (o : option string) : bool :=
  match o with
  | None => false
  | Some s => negb (String.eqb s "")
  end.

(** [str.isspace] on the ASCII range. *)
Definition is_space (c : ascii) : bool :=
  let n := nat_of_ascii c in
  ((9 <=? n)%nat && (n <=? 13)%nat) || ((28 <=? n)%nat && (n <=? 32)%nat).

Fixpoint lstrip_chars (l : list ascii) : list ascii :=
  match l with
  | [] => []
  | c :: l' => if is_space c then lstrip_chars l' else l
  end.

(** [s.strip()] *)
Definition py_strip (s : string) : string :=
  string_of_list_ascii
    (rev (lstrip_chars (rev (lstrip_chars (list_ascii_of_string s))))).

Definition lower_char (c : ascii) : ascii :=
  let n := nat_of_ascii c in
  if ((65 <=? n)%nat && (n <=? 90)%nat) then ascii_of_nat (n + 32) else c.

Definition upper_char (c : ascii) : ascii :=
  let n := nat_of_ascii c in
  if ((97 <=? n)%nat && (n <=? 122)%nat) then ascii_of_nat (n - 32) else c.

Fixpoint map_chars (f : ascii -> ascii) (s : string) : string :=
  match s with
  | EmptyString => EmptyString
  | String c s' => String (f c) (map_chars f s')
  end.

(** [s.lower()] and [s.upper()], on the ASCII range. *)
Definition py_lower : string -> string := map_chars lower_char.
Definition py_upper : string -> string := map_chars upper_char.

(** [sep.join(l)] *)
Fixpoint py_join (sep : string) (l : list string) : string :=
  match l with
  | [] => ""
  | [x] => x
  | x :: l' => x +:+ sep +:+ py_join sep l'
  end.

(** Exceptions the modelled code raises or lets through. *)
Inductive exn : Type :=
  | KeyError (msg : string)
  | ValueError (msg : string)
  | RuntimeError (msg : string)
  | IntegrityError
  | InternalError (msg : string).

Inductive result (A : Type) : Type :=
  | Ok (a : A)
  | Raise (e : exn).
Arguments Ok {A} a.
Arguments Raise {A} e.

End Py.
Import Py.

(** A dictionary keyed by column name; also a row of a table. *)
Abbreviation row := (gmap string value).

(** [d.get(k)] *)
Definition dict_get (d : row) (k : string) : value := default VNone (d !! k).

(** A [pandas.DataFrame]: its column labels and its rows.  A cell that a
    row does not define is missing (NaN). *)
Record dataframe : Type := {
  columns : list string;
  rows : list row
}.

Definition cell (r : row) (c : string) : value := default VNaN (r !! c).

(** ** pandas row hashing (library model)

    [pd.util.hash_pandas_object] on a frame of text columns: every cell is
    hashed with SipHash-2-4 under pandas' fixed 16-byte key and remixed,
    then the cells of a row are folded left to right by
    [combine_hash_arrays].  All arithmetic is on unsigned 64-bit words. *)

Module Pandas.

Local Open Scope Z_scope.

Definition u64 (x : Z) : Z := x mod 2 ^ 64.

Definition rotl (x b : Z) : Z :=
  u64 (Z.lor (Z.shiftl x b) (Z.shiftr x (64 - b))).

Record sip : Type := { v0 : Z; v1 : Z; v2 : Z; v3 : Z }.

Definition sipround (s : sip) : sip :=
  let a0 := u64 (v0 s + v1 s) in
  let a1 := Z.lxor (rotl (v1 s) 13) a0 in
  let a0 := rotl a0 32 in
  let a2 := u64 (v2 s + v3 s) in
  let a3 := Z.lxor (rotl (v3 s) 16) a2 in
  let a0 := u64 (a0 + a3) in
  let a3 := Z.lxor (rotl a3 21) a0 in
  let a2 := u64 (a2 + a1) in
  let a1 := Z.lxor (rotl a1 17) a2 in
  let a2 := rotl a2 32 in
  {| v0 := a0; v1 := a1; v2 := a2; v3 := a3 |}.

(** Little-endian value of at most eight bytes. *)
Fixpoint le64 (bs : list Z) : Z :=
  match bs with
  | [] => 0
  | b :: bs' => Z.lor b (Z.shiftl (le64 bs') 8)
  end.

Definition compress (s : sip) (m : Z) : sip :=
  let s := {| v0 := v0 s; v1 := v1 s; v2 := v2 s; v3 := Z.lxor (v3 s) m |} in
  let s := sipround (sipround s) in
  {| v0 := Z.lxor (v0 s) m; v1 := v1 s; v2 := v2 s; v3 := v3 s |}.

Fixpoint sip_blocks (s : sip) (bs : list Z) (len : Z) : sip :=
  match bs with
  | b0 :: b1 :: b2 :: b3 :: b4 :: b5 :: b6 :: b7 :: rest =>
      sip_blocks (compress s (le64 [b0; b1; b2; b3; b4; b5; b6; b7])) rest len
  | tail => compress s (Z.lor (Z.shiftl (len mod 256) 56) (le64 tail))
  end.

Definition siphash (k0 k1 : Z) (bs : list Z) : Z :=
  let s := {| v0 := Z.lxor k0 0x736f6d6570736575;
              v1 := Z.lxor k1 0x646f72616e646f6d;
              v2 := Z.lxor k0 0x6c7967656e657261;
              v3 := Z.lxor k1 0x7465646279746573 |} in
  let s := sip_blocks s bs (Z.of_nat (length bs)) in
  let s := {| v0 := v0 s; v1 := v1 s; v2 := Z.lxor (v2 s) 0xff; v3 := v3 s |} in
  let s := sipround (sipround (sipround (sipround s))) in
  Z.lxor (Z.lxor (v0 s) (v1 s)) (Z.lxor (v2 s) (v3 s)).

Definition bytes_of (s : string) : list Z :=
  map (fun c => Z.of_nat (nat_of_ascii c)) (list_ascii_of_string s).

(** The default hash key of pandas, ["0123456789123456"]. *)
Definition key0 : Z := le64 (bytes_of "01234567").
Definition key1 : Z := le64 (bytes_of "89123456").

(** [hash_array] on one text cell: SipHash, then the 64-bit remix. *)
Definition hash_text (s : string) : Z :=
  let x := siphash key0 key1 (bytes_of s) in
  let x := Z.lxor x (Z.shiftr x 30) in
  let x := u64 (x * 0xBF58476D1CE4E5B9) in
  let x := Z.lxor x (Z.shiftr x 27) in
  let x := u64 (x * 0x94D049BB133111EB) in
  Z.lxor x (Z.shiftr x 31).

(** The loop of [combine_hash_arrays]: [i] is the index of the next
    column, [out] and [mult] the running accumulators. *)
Fixpoint combine_loop (hs : list Z) (num_items i out mult : Z) : Z :=
  match hs with
  | [] => out
  | a :: hs' =>
      let inverse_i := num_items - i in
      let out := u64 (Z.lxor out a * mult) in
      let mult := u64 (mult + (82520 + inverse_i + inverse_i)) in
      combine_loop hs' num_items (i + 1) out mult
  end.

Definition combine_hash_arrays (hs : list Z) : Z :=
  u64 (combine_loop hs (Z.of_nat (length hs)) 0 0x345678 1000003 + 97531).

(** Hash of one row of text cells, in column order. *)
Definition hash_row (cells : list string) : Z :=
  combine_hash_arrays (map hash_text cells).

End Pandas.

(** ** [src/pipeline.py] *)

Module Pipeline.

Local Open Scope Z_scope.

Definition hex_digit (d : Z) : ascii :=
  if d <? 10 then ascii_of_nat (Z.to_nat (48 + d))
  else ascii_of_nat (Z.to_nat (87 + d)).

(** Hexadecimal digits of [x], least significant first. *)
Fixpoint hex_rev (fuel : nat) (x : Z) : list ascii :=
  match fuel with
  | O => []
  | S fuel' =>
      if x <? 16 then [hex_digit x]
      else hex_digit (x mod 16) :: hex_rev fuel' (x / 16)
  end.

(** [f"{x:016x}"] for a non-negative [x]: lower-case hexadecimal, padded
    with zeros on the left to sixteen characters. *)
Definition format_016x (x : Z) : string :=
  let ds := rev (hex_rev (S (Z.to_nat (Z.log2 x))) x) in
  string_of_list_ascii (repeat "0"%char (16 - length ds)%nat ++ ds).

(** [fillna("")] followed by [astype(str)] on one cell. *)
Definition fill_str (v : value) : string :=
  py_str (if isna v then VStr "" else v).

(** The fingerprint of one row over [cols], in the order given. *)
Definition row_hash (r : row) (cols : list string) : string :=
  format_016x (Pandas.u64 (Pandas.hash_row (map (fun c => fill_str (cell r c)) cols))).

(** What [Series(h, index=obj.index)] raises inside [hash_pandas_object]
    when the frame has no column: the combined hash is then an empty
    array, whatever the number [n] of rows. *)
Definition length_mismatch_error (n : nat) : exn :=
  ValueError ("Length of values (0) does not match length of index ("
              +:+ pretty n +:+ ")").

(** [_compute_row_hash(df, cols)].  [df[cols]] raises [KeyError] when a
    label is not a column.  With an empty [cols] the frame handed to
    [hash_pandas_object] has no column: the hashes are an empty array,
    which fits the index of a frame without rows only. *)
Definition _compute_row_hash (df : dataframe) (cols : list string)
  : result (list string) :=
  if forallb (fun c => bool_decide (c ∈ columns df)) cols then
    match cols with
    | [] =>
        match rows df with
        | [] => Ok []
        | _ => Raise (length_mismatch_error (length (rows df)))
        end
    | _ => Ok (map (fun r => row_hash r cols) (rows df))
    end
  else Raise (KeyError "not in index").

(** [_clean_pk_series(series)]: a nullable string series, [None] where
    the key is missing, blank, or the text "nan" or "none" in any case. *)
Definition clean_pk (v : value) : option string :=
  if isna v then None
  else
    let s := py_strip (py_str v) in
    if String.eqb s "" then None
    else if bool_decide (py_lower s ∈ ["nan"; "none"]) then None
    else Some s.

Definition _clean_pk_series (series : list value) : list (option string) :=
  map clean_pk series.

End Pipeline.

(** ** [src/audit.py]: the row-change ledger *)

Module Audit.

(** One row of [etl_row_changes].  The before and after images are stored
    as JSON documents; on the modelled values serialising and reading back
    is the identity. *)
Record RowChange : Type := {
  rc_change_event_id : string;
  rc_table_name : string;
  rc_pk : string;
  rc_op : string;
  rc_conflict : bool;
  rc_conflict_reason : option string;
  rc_applied : bool;
  rc_changed_columns : list string;
  rc_db_before : option row;
  rc_db_after : row
}.

(** [log_row_change]: one INSERT into [etl_row_changes]; the table is
    kept in insertion order, which is the order of [created_at]. *)
Definition log_row_change (ledger : list RowChange)
    (change_event_id table_name pk op : string)
    (changed_columns : list string) (db_before : option row) (db_after : row)
    (applied conflict : bool) (conflict_reason : option string)
  : list RowChange :=
  ledger ++ [ {| rc_change_event_id := change_event_id;
                 rc_table_name := table_name;
                 rc_pk := pk;
                 rc_op := op;
                 rc_conflict := conflict;
                 rc_conflict_reason := conflict_reason;
                 rc_applied := applied;
                 rc_changed_columns := changed_columns;
                 rc_db_before := db_before;
                 rc_db_after := db_after |} ].

End Audit.
Import Audit.

(** ** [src/merge.py] *)

Module Merge.

Record MergeStats : Type := {
  inserted : nat;
  updated : nat;
  unchanged : nat;
  conflicted : nat;
  rejected : nat
}.

(** What the merge engine sees of the relational store: the target table,
    keyed by the text of the primary key, the row-change ledger, and the
    reading of the database clock [now()].  Statements on both tables are
    taken to succeed. *)
Record store : Type := {
  target : gmap string row;
  etl_row_changes : list RowChange;
  db_now : value
}.

(** The keyword arguments of [merge_upsert]; [engine] is the [store] and
    no progress callback is installed. *)
Record merge_args : Type := {
  change_event_id : string;
  table : string;
  pk_col : string;
  df : dataframe;
  compare_cols : list string;
  protected_cols : list string;
  dry_run : bool;
  hash_col : option string;
  meta_cols : option (list string);
  diff_sample_size : Z;
  fetch_chunk_size : Z;
  write_chunk_size : Z;
  backfill_hash : bool
}.

(** One entry of the returned conflicts frame. *)
Record conflict_entry : Type := {
  c_pk : string;
  c_conflict_columns : string;
  c_db_before : option row;
  c_patch_after : row
}.

Record diff_summary : Type := {
  ds_table : string;
  inserted_count : nat;
  updated_count : nat;
  conflicted_count : nat;
  rejected_count : nat;
  hash_backfilled_count : nat;
  inserted_pks_sample : list string;
  updated_pks_sample : list string;
  conflicted_pks_sample : list string;
  updated_by_column_counts : gmap string nat;
  updated_by_column_samples : gmap string (list string)
}.

(** One entry of [to_write_audit]. *)
Record audit_entry : Type := {
  a_pk : string;
  a_op : string;
  a_changed_columns : list string;
  a_db_before : option row;
  a_db_after : row
}.

(** [_row_to_json(row)]: the row as a dictionary over the frame's
    columns, missing values turned into [None]. *)
Definition _row_to_json (columns : list string) (r : row) : row :=
  foldl (fun out k =>
           let v := cell r k in
           if isna v then <[k := VNone]> out else <[k := v]> out)
        ∅ columns.

(** [_diff_cols(existing, incoming, cols)] *)
Definition _diff_cols (existing : option row) (incoming : row)
    (cols : list string) : list string :=
  match existing with
  | None => cols
  | Some e => filter (fun c => py_ne (dict_get e c) (dict_get incoming c) = true) cols
  end.

(** The slices [l[i : i + n]] for [i] in [range(0, len(l), n)], [n > 0]. *)
Fixpoint chunks_fuel {A} (fuel n : nat) (l : list A) : list (list A) :=
  match fuel with
  | O => []
  | S fuel' =>
      match l with
      | [] => []
      | _ => take n l :: chunks_fuel fuel' n (drop n l)
      end
  end.

(** [range(0, len(l), size)] raises on a zero step and is empty on a
    negative one. *)
Definition py_chunks {A} (size : Z) (l : list A) : result (list (list A)) :=
  if (size =? 0)%Z then Raise (ValueError "range() arg 3 must not be zero")
  else if (size <? 0)%Z then Ok []
  else Ok (chunks_fuel (length l) (Z.to_nat size) l).

(** [_fetch_existing_bulk]: the stored rows whose key is among
    [pk_vals], keyed by the text of their key. *)
Definition _fetch_existing_bulk (tbl : gmap string row) (pk_vals : list value)
    (chunk_size : Z) : result (gmap string row) :=
  match pk_vals with
  | [] => Ok ∅
  | _ =>
      match py_chunks chunk_size pk_vals with
      | Raise e => Raise e
      | Ok cs =>
          Ok (foldl (fun out chunk =>
                       foldl (fun out v =>
                                match tbl !! py_str v with
                                | Some r => <[py_str v := r]> out
                                | None => out
                                end) out chunk)
                    ∅ cs)
      end
  end.

(** [_push_sample(sample_list, value, limit)] *)
Definition _push_sample (sample_list : list string) (v : string) (limit : Z)
  : list string :=
  if (Z.of_nat (length sample_list) <? limit)%Z then sample_list ++ [v]
  else sample_list.

(** The local variables of [merge_upsert] that its main loop updates,
    together with the store. *)
Record loop_state : Type := {
  ls_stats : MergeStats;
  ls_conflicts : list conflict_entry;
  ls_diff : diff_summary;
  ls_by_counts : gmap string nat;
  ls_by_samples : gmap string (list string);
  ls_to_write_params : list row;
  ls_to_write_audit : list audit_entry;
  ls_store : store
}.

Definition with_stats (f : MergeStats -> MergeStats) (ls : loop_state) : loop_state :=
  {| ls_stats := f (ls_stats ls); ls_conflicts := ls_conflicts ls;
     ls_diff := ls_diff ls; ls_by_counts := ls_by_counts ls;
     ls_by_samples := ls_by_samples ls;
     ls_to_write_params := ls_to_write_params ls;
     ls_to_write_audit := ls_to_write_audit ls; ls_store := ls_store ls |}.

Definition with_diff (f : diff_summary -> diff_summary) (ls : loop_state) : loop_state :=
  {| ls_stats := ls_stats ls; ls_conflicts := ls_conflicts ls;
     ls_diff := f (ls_diff ls); ls_by_counts := ls_by_counts ls;
     ls_by_samples := ls_by_samples ls;
     ls_to_write_params := ls_to_write_params ls;
     ls_to_write_audit := ls_to_write_audit ls; ls_store := ls_store ls |}.

Definition with_store (f : store -> store) (ls : loop_state) : loop_state :=
  {| ls_stats := ls_stats ls; ls_conflicts := ls_conflicts ls;
     ls_diff := ls_diff ls; ls_by_counts := ls_by_counts ls;
     ls_by_samples := ls_by_samples ls;
     ls_to_write_params := ls_to_write_params ls;
     ls_to_write_audit := ls_to_write_audit ls; ls_store := f (ls_store ls) |}.

Definition with_conflicts (c : conflict_entry) (ls : loop_state) : loop_state :=
  {| ls_stats := ls_stats ls; ls_conflicts := ls_conflicts ls ++ [c];
     ls_diff := ls_diff ls; ls_by_counts := ls_by_counts ls;
     ls_by_samples := ls_by_samples ls;
     ls_to_write_params := ls_to_write_params ls;
     ls_to_write_audit := ls_to_write_audit ls; ls_store := ls_store ls |}.

Definition with_by_column (col pk_key : string) (limit : Z) (ls : loop_state) : loop_state :=
  {| ls_stats := ls_stats ls; ls_conflicts := ls_conflicts ls;
     ls_diff := ls_diff ls;
     ls_by_counts := <[col := S (default 0%nat (ls_by_counts ls !! col))]> (ls_by_counts ls);
     ls_by_samples :=
       <[col := _push_sample (default [] (ls_by_samples ls !! col)) pk_key limit]>
         (ls_by_samples ls);
     ls_to_write_params := ls_to_write_params ls;
     ls_to_write_audit := ls_to_write_audit ls; ls_store := ls_store ls |}.

Definition with_to_write (params : row) (a : audit_entry) (ls : loop_state) : loop_state :=
  {| ls_stats := ls_stats ls; ls_conflicts := ls_conflicts ls;
     ls_diff := ls_diff ls; ls_by_counts := ls_by_counts ls;
     ls_by_samples := ls_by_samples ls;
     ls_to_write_params := ls_to_write_params ls ++ [params];
     ls_to_write_audit := ls_to_write_audit ls ++ [a]; ls_store := ls_store ls |}.

Definition add_unchanged (s : MergeStats) : MergeStats :=
  {| inserted := inserted s; updated := updated s; unchanged := S (unchanged s);
     conflicted := conflicted s; rejected := rejected s |}.
Definition add_inserted (s : MergeStats) : MergeStats :=
  {| inserted := S (inserted s); updated := updated s; unchanged := unchanged s;
     conflicted := conflicted s; rejected := rejected s |}.
Definition add_updated (s : MergeStats) : MergeStats :=
  {| inserted := inserted s; updated := S (updated s); unchanged := unchanged s;
     conflicted := conflicted s; rejected := rejected s |}.
Definition add_conflicted (s : MergeStats) : MergeStats :=
  {| inserted := inserted s; updated := updated s; unchanged := unchanged s;
     conflicted := S (conflicted s); rejected := rejected s |}.
Definition add_rejected (n : nat) (s : MergeStats) : MergeStats :=
  {| inserted := inserted s; updated := updated s; unchanged := unchanged s;
     conflicted := conflicted s; rejected := (rejected s + n)%nat |}.

Definition diff_set_rejected (n : nat) (d : diff_summary) : diff_summary :=
  {| ds_table := ds_table d; inserted_count := inserted_count d;
     updated_count := updated_count d; conflicted_count := conflicted_count d;
     rejected_count := n; hash_backfilled_count := hash_backfilled_count d;
     inserted_pks_sample := inserted_pks_sample d;
     updated_pks_sample := updated_pks_sample d;
     conflicted_pks_sample := conflicted_pks_sample d;
     updated_by_column_counts := updated_by_column_counts d;
     updated_by_column_samples := updated_by_column_samples d |}.

Definition diff_add_backfilled (d : diff_summary) : diff_summary :=
  {| ds_table := ds_table d; inserted_count := inserted_count d;
     updated_count := updated_count d; conflicted_count := conflicted_count d;
     rejected_count := rejected_count d;
     hash_backfilled_count := S (hash_backfilled_count d);
     inserted_pks_sample := inserted_pks_sample d;
     updated_pks_sample := updated_pks_sample d;
     conflicted_pks_sample := conflicted_pks_sample d;
     updated_by_column_counts := updated_by_column_counts d;
     updated_by_column_samples := updated_by_column_samples d |}.

Definition diff_set_conflicted (n : nat) (pk_key : string) (limit : Z)
    (d : diff_summary) : diff_summary :=
  {| ds_table := ds_table d; inserted_count := inserted_count d;
     updated_count := updated_count d; conflicted_count := n;
     rejected_count := rejected_count d;
     hash_backfilled_count := hash_backfilled_count d;
     inserted_pks_sample := inserted_pks_sample d;
     updated_pks_sample := updated_pks_sample d;
     conflicted_pks_sample := _push_sample (conflicted_pks_sample d) pk_key limit;
     updated_by_column_counts := updated_by_column_counts d;
     updated_by_column_samples := updated_by_column_samples d |}.

Definition diff_set_inserted (n : nat) (pk_key : string) (limit : Z)
    (d : diff_summary) : diff_summary :=
  {| ds_table := ds_table d; inserted_count := n;
     updated_count := updated_count d; conflicted_count := conflicted_count d;
     rejected_count := rejected_count d;
     hash_backfilled_count := hash_backfilled_count d;
     inserted_pks_sample := _push_sample (inserted_pks_sample d) pk_key limit;
     updated_pks_sample := updated_pks_sample d;
     conflicted_pks_sample := conflicted_pks_sample d;
     updated_by_column_counts := updated_by_column_counts d;
     updated_by_column_samples := updated_by_column_samples d |}.

Definition diff_set_updated (n : nat) (pk_key : string) (limit : Z)
    (d : diff_summary) : diff_summary :=
  {| ds_table := ds_table d; inserted_count := inserted_count d;
     updated_count := n; conflicted_count := conflicted_count d;
     rejected_count := rejected_count d;
     hash_backfilled_count := hash_backfilled_count d;
     inserted_pks_sample := inserted_pks_sample d;
     updated_pks_sample := _push_sample (updated_pks_sample d) pk_key limit;
     conflicted_pks_sample := conflicted_pks_sample d;
     updated_by_column_counts := updated_by_column_counts d;
     updated_by_column_samples := updated_by_column_samples d |}.

(** The two assignments after the loop.  [dict(sorted(...))] only fixes
    the iteration order of the counts, which a finite map does not carry. *)
Definition diff_set_by_column (counts : gmap string nat)
    (samples : gmap string (list string)) (d : diff_summary) : diff_summary :=
  {| ds_table := ds_table d; inserted_count := inserted_count d;
     updated_count := updated_count d; conflicted_count := conflicted_count d;
     rejected_count := rejected_count d;
     hash_backfilled_count := hash_backfilled_count d;
     inserted_pks_sample := inserted_pks_sample d;
     updated_pks_sample := updated_pks_sample d;
     conflicted_pks_sample := conflicted_pks_sample d;
     updated_by_column_counts := counts;
     updated_by_column_samples := samples |}.

Definition with_target (f : gmap string row -> gmap string row) (st : store) : store :=
  {| target := f (target st); etl_row_changes := etl_row_changes st;
     db_now := db_now st |}.

Definition with_ledger (f : list RowChange -> list RowChange) (st : store) : store :=
  {| target := target st; etl_row_changes := f (etl_row_changes st);
     db_now := db_now st |}.

(** The two columns every target table carries and the engine maintains. *)
Definition last_change_event_id : string := "last_change_event_id".
Definition last_updated_at : string := "last_updated_at".

(** [meta_cols or ["source_row_num"]] *)
Definition meta_cols_or_default (a : merge_args) : list string :=
  match meta_cols a with
  | None | Some [] => ["source_row_num"]
  | Some l => l
  end.

(** [cols = [pk_col] + [c for c in compare_cols if c != pk_col]] *)
Definition cols (a : merge_args) : list string :=
  pk_col a :: filter (fun c => c <> pk_col a) (compare_cols a).

(** [business_cols]: the compared columns without the key, the hash
    column and the metadata columns. *)
Definition business_cols (a : merge_args) : list string :=
  filter (fun c => c <> pk_col a /\ Some c <> hash_col a
                   /\ c ∉ meta_cols_or_default a)
         (compare_cols a).

(** [d.get(hash_col) if hash_col else None] *)
Definition hash_of (a : merge_args) (d : row) : value :=
  match hash_col a with
  | Some h => if truthy (hash_col a) then dict_get d h else VNone
  | None => VNone
  end.

Definition is_none (v : value) : bool := bool_decide (v = VNone).

Definition is_present {A} (o : option A) : bool :=
  match o with
  | Some _ => true
  | None => false
  end.

(** The fingerprint backfill: [UPDATE table SET hash_col = :h,
    last_change_event_id = :eid, last_updated_at = now() WHERE pk = :pk]. *)
Definition backfill_row (a : merge_args) (inc_h now : value) (e : row) : row :=
  <[last_updated_at := now]>
    (<[last_change_event_id := VStr (change_event_id a)]>
       (<[default "" (hash_col a) := inc_h]> e)).

Definition exec_backfill (a : merge_args) (pk_key : string) (inc_h : value)
    (st : store) : store :=
  with_target (alter (backfill_row a inc_h (db_now st)) pk_key) st.

(** [params = {c: incoming.get(c) for c in cols}] with the change event id. *)
Definition write_params (a : merge_args) (incoming : row) : row :=
  <[last_change_event_id := VStr (change_event_id a)]>
    (foldl (fun m c => <[c := dict_get incoming c]> m) ∅ (cols a)).

(** One execution of [upsert_sql]: a new row gets every column of [cols];
    on a key that exists the columns other than the key are overwritten. *)
Definition upsert_row (a : merge_args) (now : value) (params : row)
    (old : option row) : row :=
  let set := fun m c => <[c := dict_get params c]> m in
  let base :=
    match old with
    | None => foldl set ∅ (cols a)
    | Some e => foldl set e (filter (fun c => c <> pk_col a) (cols a))
    end in
  <[last_updated_at := now]>
    (<[last_change_event_id := dict_get params last_change_event_id]> base).

Definition exec_upsert (a : merge_args) (now : value)
    (tbl : gmap string row) (params : row) : gmap string row :=
  let key := py_str (dict_get params (pk_col a)) in
  <[key := upsert_row a now params (tbl !! key)]> tbl.

(** The body of the main loop of [merge_upsert] for one row of the frame. *)
Definition merge_row (a : merge_args) (existing_map : gmap string row)
    (ls : loop_state) (r : row) : loop_state :=
  let pk_val := cell r (pk_col a) in
  let pk_key := py_str pk_val in
  let incoming := _row_to_json (columns (df a)) r in
  let existing := existing_map !! pk_key in
  let inc_h := hash_of a incoming in
  let ex_h := from_option (hash_of a) VNone existing in
  if truthy (hash_col a) && is_present existing && negb (is_none inc_h)
     && negb (is_none ex_h) && py_eq inc_h ex_h
  then with_stats add_unchanged ls
  else
    let changed_cols := _diff_cols existing incoming (business_cols a) in
    if is_present existing && bool_decide (changed_cols = []) then
      let ls := with_stats add_unchanged ls in
      if backfill_hash a && negb (dry_run a) && truthy (hash_col a)
         && negb (is_none inc_h) && (is_none ex_h || py_ne ex_h inc_h)
      then with_diff diff_add_backfilled
             (with_store (exec_backfill a pk_key inc_h) ls)
      else ls
    else
      let conflict_cols :=
        match existing with
        | Some e =>
            filter (fun c => c ∈ business_cols a
                             /\ py_ne (dict_get e c) (dict_get incoming c) = true)
                   (protected_cols a)
        | None => []
        end in
      if negb (bool_decide (conflict_cols = [])) then
        let ls := with_stats add_conflicted ls in
        let ls := with_diff (diff_set_conflicted (conflicted (ls_stats ls)) pk_key
                               (diff_sample_size a)) ls in
        let ls :=
          if dry_run a then ls
          else with_store
                 (with_ledger (fun l =>
                    log_row_change l (change_event_id a) (table a) pk_key "UPDATE"
                      changed_cols existing incoming false true
                      (Some ("Protected field mismatch: " +:+ py_join ", " conflict_cols))))
                 ls in
        with_conflicts {| c_pk := pk_key;
                          c_conflict_columns := py_join ", " conflict_cols;
                          c_db_before := existing;
                          c_patch_after := incoming |} ls
      else
        let ls_op :=
          match existing with
          | None =>
              let ls := with_stats add_inserted ls in
              (with_diff (diff_set_inserted (inserted (ls_stats ls)) pk_key
                            (diff_sample_size a)) ls, "INSERT")
          | Some _ =>
              let ls := with_stats add_updated ls in
              let ls := with_diff (diff_set_updated (updated (ls_stats ls)) pk_key
                                     (diff_sample_size a)) ls in
              (foldl (fun ls col => with_by_column col pk_key (diff_sample_size a) ls)
                     ls changed_cols, "UPDATE")
          end in
        if dry_run a then ls_op.1
        else
          with_to_write (write_params a incoming)
            {| a_pk := pk_key; a_op := ls_op.2; a_changed_columns := changed_cols;
               a_db_before := existing; a_db_after := incoming |}
            ls_op.1.

(** [bad_pk_mask]: the key is missing, or blank once stripped. *)
Definition bad_pk (a : merge_args) (r : row) : bool :=
  let v := cell r (pk_col a) in
  isna v || String.eqb (py_strip (py_str v)) "".

Definition stats0 : MergeStats :=
  {| inserted := 0; updated := 0; unchanged := 0; conflicted := 0; rejected := 0 |}.

Definition diff0 (a : merge_args) : diff_summary :=
  {| ds_table := table a; inserted_count := 0; updated_count := 0;
     conflicted_count := 0; rejected_count := 0; hash_backfilled_count := 0;
     inserted_pks_sample := []; updated_pks_sample := [];
     conflicted_pks_sample := [];
     updated_by_column_counts := ∅; updated_by_column_samples := ∅ |}.

(** The frame after the rejection of bad keys. *)
Definition accepted_rows (a : merge_args) : list row :=
  if existsb (bad_pk a) (rows (df a))
  then filter (fun r => bad_pk a r = false) (rows (df a))
  else rows (df a).

(** The batch write and the audit entries that follow it. *)
Definition batch_write (a : merge_args) (ls : loop_state) : result store :=
  let st := ls_store ls in
  if negb (dry_run a) && negb (bool_decide (ls_to_write_params ls = [])) then
    match py_chunks (write_chunk_size a) (ls_to_write_params ls) with
    | Raise e => Raise e
    | Ok cs =>
        let tbl := foldl (fun tbl chunk => foldl (exec_upsert a (db_now st)) tbl chunk)
                         (target st) cs in
        let ledger :=
          foldl (fun l e =>
                   log_row_change l (change_event_id a) (table a) (a_pk e) (a_op e)
                     (a_changed_columns e) (a_db_before e) (a_db_after e)
                     true false None)
                (etl_row_changes st) (ls_to_write_audit ls) in
        Ok {| target := tbl; etl_row_changes := ledger; db_now := db_now st |}
    end
  else Ok st.

(** [merge_upsert]: the returned triple, or the exception, and the store
    as the call leaves it. *)
Definition merge_upsert (a : merge_args) (st : store)
  : result (MergeStats * list conflict_entry * diff_summary) * store :=
  if negb (bool_decide (pk_col a ∈ columns (df a))) then
    (Raise (KeyError "merge_upsert: pk_col not found in df columns"), st)
  else
    let any_bad := existsb (bad_pk a) (rows (df a)) in
    let rej := length (filter (fun r => bad_pk a r = true) (rows (df a))) in
    let stats := if any_bad then add_rejected rej stats0 else stats0 in
    let diff := if any_bad then diff_set_rejected rej (diff0 a) else diff0 a in
    match accepted_rows a with
    | [] => (Ok (stats, [], diff), st)
    | frame =>
        let pk_vals := map (fun r => cell r (pk_col a)) frame in
        match _fetch_existing_bulk (target st) pk_vals (fetch_chunk_size a) with
        | Raise e => (Raise e, st)
        | Ok existing_map =>
            let ls := foldl (merge_row a existing_map)
                        {| ls_stats := stats; ls_conflicts := []; ls_diff := diff;
                           ls_by_counts := ∅; ls_by_samples := ∅;
                           ls_to_write_params := []; ls_to_write_audit := [];
                           ls_store := st |}
                        frame in
            match batch_write a ls with
            | Raise e => (Raise e, ls_store ls)
            | Ok st' =>
                (Ok (ls_stats ls, ls_conflicts ls,
                     diff_set_by_column (ls_by_counts ls) (ls_by_samples ls) (ls_diff ls)),
                 st')
            end
        end
    end.

End Merge.

(** ** [src/state.py] *)

Module State.

(** One row of [etl_state_images] (the creation timestamp is left out). *)
Record state_image : Type := {
  state_image_id : string;
  si_change_event_id : string;
  parent_state_image_id : option string;
  si_notes : option string
}.

(** One row of [etl_change_events], with the columns the rollback code
    writes. *)
Record change_event : Type := {
  ce_change_event_id : string;
  ce_actor : string;
  ce_source_name : string;
  ce_file_name : string;
  ce_status : string;
  ce_notes : option string;
  ce_finished : bool
}.

(** A business table: its column names and its rows. *)
Record table : Type := {
  t_columns : list string;
  t_rows : list row
}.

(** The relational store.  An audit or state table that has not been
    created is [None]; the pointer tables hold the single row [id = 1],
    reduced to its state image id. *)
Record database : Type := {
  tables : gmap string table;
  etl_change_events : option (list change_event);
  etl_row_changes : option (list RowChange);
  etl_state_images : option (list state_image);
  etl_state_pointer : option (option string);
  etl_state_head : option (option string)
}.

(** The store together with the process's source of [uuid.uuid4()]
    values: the stream of identifiers and how many have been drawn. *)
Record world : Type := {
  db : database;
  uuids : nat -> string;
  drawn : nat
}.

Definition uuid4 (w : world) : string * world :=
  (uuids w (drawn w), {| db := db w; uuids := uuids w; drawn := S (drawn w) |}).

Definition with_db (f : database -> database) (w : world) : world :=
  {| db := f (db w); uuids := uuids w; drawn := drawn w |}.

Definition nonempty (s : string) : bool := negb (String.eqb s "").

(** Modelled from the spec: the schema file (sql/schema.sql) is not among
    the sources.  The data model gives every ChangeEvent a unique id, so
    the id is a unique key of [etl_change_events]: an INSERT of an id
    that is already stored fails with [IntegrityError]. *)
Definition change_event_id_taken (evs : list change_event) (eid : string) : bool :=
  existsb (fun e => String.eqb (ce_change_event_id e) eid) evs.

(** Modelled from the spec: the schema file (sql/schema.sql) is not among
    the sources.  The data model gives every StateImage a unique id, so
    the id is a unique key of [etl_state_images]: an INSERT of an id that
    is already stored fails with [IntegrityError]. *)
Definition state_image_id_taken (imgs : list state_image) (sid : string) : bool :=
  existsb (fun i => String.eqb (state_image_id i) sid) imgs.

(** [_get_head_state_image_id]: the pointer table is preferred, the
    older head table is the fallback. *)
Definition _get_head_state_image_id (d : database) : option string :=
  match etl_state_pointer d with
  | Some p =>
      match p with
      | Some sid => if nonempty sid then Some sid else None
      | None => None
      end
  | None =>
      match etl_state_head d with
      | Some (Some sid) => if nonempty sid then Some sid else None
      | _ => None
      end
  end.

(** [get_current_state], reduced to the [state_image_id] of the row it
    returns: a pointer table without a current image gives [None] without
    looking at the older head table. *)
Definition get_current_state (d : database) : option string :=
  match etl_state_pointer d with
  | Some p =>
      match p with
      | Some sid => if nonempty sid then Some sid else None
      | None => None
      end
  | None =>
      match etl_state_head d with
      | Some row => row
      | None => None
      end
  end.

(** [_get_state_image] *)
Definition _get_state_image (d : database) (sid : string) : option state_image :=
  match etl_state_images d with
  | None => None
  | Some imgs => List.find (fun i => String.eqb (state_image_id i) sid) imgs
  end.

(** [_get_state_image_by_change_event] *)
Definition _get_state_image_by_change_event (d : database) (eid : string)
  : option state_image :=
  match etl_state_images d with
  | None => None
  | Some imgs => List.find (fun i => String.eqb (si_change_event_id i) eid) imgs
  end.

Definition cycle_error : exn :=
  RuntimeError "State image chain contains a cycle (corrupt state).".
Definition unreachable_error : exn :=
  RuntimeError "Target is not reachable from current HEAD (not on this history chain).".
Definition image_missing_error (sid : string) : exn :=
  RuntimeError ("State image not found: " +:+ sid).
Definition no_state_image_error (eid : string) : exn :=
  RuntimeError ("No state image exists for change_event_id=" +:+ eid +:+ ". Create one first.").
Definition no_head_error : exn :=
  RuntimeError "No HEAD state image set. Create a state image first (run ETL with changes or bootstrap).".
Definition no_images_table_error : exn :=
  RuntimeError "Point-in-time rollback requires etl_state_images table (state images).".

(** What the driver raises for a statement sent in an aborted transaction
    (psycopg2's [InFailedSqlTransaction], an [InternalError] of SQLAlchemy). *)
Definition in_failed_transaction_error : exn :=
  InternalError "current transaction is aborted, commands ignored until end of transaction block".

Definition no_audit_tables_error : exn :=
  RuntimeError "Rollback requires etl_change_events and etl_row_changes tables.".

(** The [while cur:] loop of [_collect_head_to_target_chain].  [fuel]
    bounds the number of iterations; [None] means the bound was hit
    before the loop left. *)
Fixpoint chain_loop (fuel : nat) (d : database) (target cur : string)
    (seen : gset string) (chain : list state_image)
  : option (result (list state_image)) :=
  match fuel with
  | O => None
  | S fuel' =>
      if nonempty cur then
        if bool_decide (cur ∈ seen) then Some (Raise cycle_error)
        else
          match _get_state_image d cur with
          | None => Some (Raise (image_missing_error cur))
          | Some img =>
              let chain := chain ++ [img] in
              if String.eqb (state_image_id img) target then Some (Ok chain)
              else chain_loop fuel' d target
                     (default "" (parent_state_image_id img))
                     ({[cur]} ∪ seen) chain
          end
      else Some (Raise unreachable_error)
  end.

Definition images_count (d : database) : nat :=
  length (default [] (etl_state_images d)).

(** [_collect_head_to_target_chain]: every iteration that continues adds
    a new stored image to [seen], so one more than the number of stored
    images bounds the loop. *)
Definition _collect_head_to_target_chain (d : database)
    (head_state_image_id target_state_image_id : string)
  : option (result (list state_image)) :=
  chain_loop (S (images_count d)) d target_state_image_id head_state_image_id ∅ [].

(** [set_head] *)
Definition set_head (d : database) (sid : string) : database :=
  match etl_state_pointer d with
  | Some _ =>
      {| tables := tables d; etl_change_events := etl_change_events d;
         etl_row_changes := etl_row_changes d;
         etl_state_images := etl_state_images d;
         etl_state_pointer := Some (Some sid);
         etl_state_head := etl_state_head d |}
  | None =>
      match etl_state_head d with
      | Some _ =>
          {| tables := tables d; etl_change_events := etl_change_events d;
             etl_row_changes := etl_row_changes d;
             etl_state_images := etl_state_images d;
             etl_state_pointer := etl_state_pointer d;
             etl_state_head := Some (Some sid) |}
      | None => d
      end
  end.

Definition with_images (f : list state_image -> list state_image) (d : database)
  : database :=
  {| tables := tables d; etl_change_events := etl_change_events d;
     etl_row_changes := etl_row_changes d;
     etl_state_images := f <$> etl_state_images d;
     etl_state_pointer := etl_state_pointer d;
     etl_state_head := etl_state_head d |}.

Definition with_events (f : list change_event -> list change_event) (d : database)
  : database :=
  {| tables := tables d; etl_change_events := f <$> etl_change_events d;
     etl_row_changes := etl_row_changes d;
     etl_state_images := etl_state_images d;
     etl_state_pointer := etl_state_pointer d;
     etl_state_head := etl_state_head d |}.

Definition with_tables (f : gmap string table -> gmap string table) (d : database)
  : database :=
  {| tables := f (tables d); etl_change_events := etl_change_events d;
     etl_row_changes := etl_row_changes d;
     etl_state_images := etl_state_images d;
     etl_state_pointer := etl_state_pointer d;
     etl_state_head := etl_state_head d |}.

Definition set_notes (notes : option string) (i : state_image) : state_image :=
  {| state_image_id := state_image_id i;
     si_change_event_id := si_change_event_id i;
     parent_state_image_id := parent_state_image_id i;
     si_notes := notes |}.

(** [create_state_image]: create or reuse the image of a change event and
    move HEAD to it. *)
Definition create_state_image (w : world) (change_event_id : string)
    (notes : option string) : option state_image * world :=
  match etl_state_images (db w) with
  | None => (None, w)
  | Some imgs =>
      match _get_state_image_by_change_event (db w) change_event_id with
      | Some existing =>
          let fill := truthy notes
                      && negb (nonempty (py_strip (default "" (si_notes existing)))) in
          let w1 :=
            if fill then
              with_db (with_images
                         (map (fun i => if String.eqb (si_change_event_id i) change_event_id
                                        then set_notes notes i else i))) w
            else w in
          let existing := if fill then set_notes notes existing else existing in
          (Some existing, with_db (fun d => set_head d (state_image_id existing)) w1)
      | None =>
          let (sid, w1) := uuid4 w in
          let parent :=
            match get_current_state (db w1) with
            | Some sid => if nonempty sid then Some sid else None
            | None => None
            end in
          let w2 :=
            if state_image_id_taken imgs sid then w1
            else with_db (with_images (fun l =>
                   l ++ [ {| state_image_id := sid;
                             si_change_event_id := change_event_id;
                             parent_state_image_id := parent;
                             si_notes := notes |} ])) w1 in
          match _get_state_image_by_change_event (db w2) change_event_id with
          | Some created =>
              (Some created, with_db (fun d => set_head d (state_image_id created)) w2)
          | None => (None, w2)
          end
      end
  end.

(** [value::text] in SQL; a NULL stays NULL. *)
Definition sql_text (v : value) : option string :=
  match v with
  | VNone => None
  | VNaN => Some "NaN"
  | VInt n => Some (pretty n)
  | VStr s => Some s
  end.

(** [a = b] in a WHERE clause: never true on a NULL. *)
Definition sql_eq (a b : value) : bool :=
  negb (bool_decide (a = VNone)) && negb (bool_decide (b = VNone))
  && bool_decide (a = b).

(** [DELETE FROM table WHERE col::text = :v]; [None] when the statement
    fails (no such table, no such column). *)
Definition sql_delete (ts : gmap string table) (tname col v : string)
  : option (gmap string table) :=
  match ts !! tname with
  | None => None
  | Some t =>
      if bool_decide (col ∈ t_columns t) then
        Some (<[tname := {| t_columns := t_columns t;
                            t_rows := filter (fun r => sql_text (dict_get r col) <> Some v)
                                             (t_rows t) |}]> ts)
      else None
  end.

(** [UPDATE table SET c = :c, ... WHERE where_col = :where_val] with the
    assignments [sets]; [None] when the statement fails. *)
Definition sql_update (ts : gmap string table) (tname : string) (sets : row)
    (where_col : string) (where_val : value) : option (gmap string table) :=
  match ts !! tname with
  | None => None
  | Some t =>
      if forallb (fun c => bool_decide (c ∈ t_columns t)) (where_col :: elements (dom sets))
      then
        Some (<[tname := {| t_columns := t_columns t;
                            t_rows := map (fun r => if sql_eq (dict_get r where_col) where_val
                                                    then sets ∪ r else r)
                                          (t_rows t) |}]> ts)
      else None
  end.

(** The candidate key columns, tried in this order. *)
Definition pk_candidates : list string := ["order_id"; "transaction_id"; "id"].

(** The connection inside [with engine.begin() as conn]: the tables as the
    statements run so far have left them, and whether a statement of the
    transaction has failed.  The store is PostgreSQL ([db.py]), where a
    failed statement aborts the transaction: every later statement of the
    transaction fails as well, whether or not the Python exception was
    caught. *)
Record transaction : Type := {
  tx_tables : gmap string table;
  tx_aborted : bool
}.

(** [engine.begin()] *)
Definition begin (ts : gmap string table) : transaction :=
  {| tx_tables := ts; tx_aborted := false |}.

(** [conn.execute(stmt)], where [stmt] gives the tables the statement
    leaves, or [None] when it fails.  The boolean tells whether [execute]
    raised. *)
Definition execute (stmt : gmap string table -> option (gmap string table))
    (c : transaction) : bool * transaction :=
  if tx_aborted c then (true, c)
  else
    match stmt (tx_tables c) with
    | Some ts' => (false, {| tx_tables := ts'; tx_aborted := false |})
    | None => (true, {| tx_tables := tx_tables c; tx_aborted := true |})
    end.

(** The inner loop of the INSERT case: [break] after the first DELETE that
    does not raise, [continue] after one that does. *)
Fixpoint delete_by_candidates (c : transaction) (tname pk : string)
    (cands : list string) : transaction :=
  match cands with
  | [] => c
  | pk_col :: cands' =>
      match execute (fun ts => sql_delete ts tname pk_col pk) c with
      | (false, c') => c'
      | (true, c') => delete_by_candidates c' tname pk cands'
      end
  end.

(** The body of the loop of [rollback_change_event] for one row change;
    the exception of a failed UPDATE is caught and dropped. *)
Definition invert_row_change (c : transaction) (r : RowChange) : transaction :=
  let tname := rc_table_name r in
  let pk := rc_pk r in
  let op := py_upper (rc_op r) in
  let db_before := default ∅ (rc_db_before r) in
  if String.eqb op "INSERT" then delete_by_candidates c tname pk pk_candidates
  else if String.eqb op "UPDATE" then
    if bool_decide (db_before = ∅) then c
    else
      match List.find (fun cand => bool_decide (is_Some (db_before !! cand))) pk_candidates with
      | None => c
      | Some where_col =>
          let sets := delete where_col db_before in
          if bool_decide (sets = ∅) then c
          else
            (execute (fun ts => sql_update ts tname sets where_col
                                  (dict_get db_before where_col)) c).2
      end
  else c.

(** The applied row changes of an event, newest first. *)
Definition applied_row_changes (rcs : list RowChange) (change_event_id : string)
  : list RowChange :=
  rev (filter (fun r => rc_change_event_id r = change_event_id /\ rc_applied r = true) rcs).

Definition finish_success (eid : string) (e : change_event) : change_event :=
  if String.eqb (ce_change_event_id e) eid then
    {| ce_change_event_id := ce_change_event_id e; ce_actor := ce_actor e;
       ce_source_name := ce_source_name e; ce_file_name := ce_file_name e;
       ce_status := "SUCCESS"; ce_notes := ce_notes e; ce_finished := true |}
  else e.

(** The dictionary [rollback_change_event] returns. *)
Record rollback_result : Type := {
  rb_status : string;
  rb_message : string;
  rb_change_event_id : string
}.

(** [rollback_change_event].  The insertion of the rollback event, the
    inverse statements and the final status UPDATE share one transaction.
    The final UPDATE is not guarded: in an aborted transaction it raises,
    the transaction is rolled back as a whole and the exception leaves the
    function before [create_state_image] is reached. *)
Definition rollback_change_event (w : world) (change_event_id actor : string)
  : result rollback_result * world :=
  let (rollback_eid, w1) := uuid4 w in
  match etl_change_events (db w1), etl_row_changes (db w1) with
  | Some evs, Some rcs =>
      if change_event_id_taken evs rollback_eid
      then (Raise IntegrityError, w1)
      else
        let running :=
          {| ce_change_event_id := rollback_eid; ce_actor := actor;
             ce_source_name := "rollback";
             ce_file_name := "rollback:" +:+ change_event_id;
             ce_status := "RUNNING";
             ce_notes := Some ("Rollback of " +:+ change_event_id);
             ce_finished := false |} in
        let w2 := with_db (with_events (fun l => l ++ [running])) w1 in
        let rows := applied_row_changes rcs change_event_id in
        let c := foldl invert_row_change (begin (tables (db w2))) rows in
        if tx_aborted c then (Raise in_failed_transaction_error, w1)
        else
          let w3 := with_db (with_tables (fun _ => tx_tables c)) w2 in
          let w4 := with_db (with_events (map (finish_success rollback_eid))) w3 in
          let w5 := (create_state_image w4 rollback_eid
                       (Some ("rollback of " +:+ change_event_id))).2 in
          (Ok {| rb_status := "SUCCESS";
                 rb_message := "Rollback complete. Created rollback change_event_id: "
                               +:+ rollback_eid;
                 rb_change_event_id := rollback_eid |}, w5)
  | _, _ => (Raise no_audit_tables_error, w1)
  end.

(** The dictionary [rollback_to_point_in_time] returns. *)
Record pit_result : Type := {
  pit_status : string;
  pit_message : string;
  pit_target_change_event_id : string;
  rolled_back_count : nat;
  rollback_change_event_ids : list string
}.

(** The loop over [chain[:-1]]: [rollback_ids] and [rolled] are the
    accumulators. *)
Fixpoint rollback_images (w : world) (actor : string) (imgs : list state_image)
    (rollback_ids : list string) (rolled : nat)
  : result (list string * nat) * world :=
  match imgs with
  | [] => (Ok (rollback_ids, rolled), w)
  | img :: imgs' =>
      let eid := si_change_event_id img in
      if nonempty eid then
        match rollback_change_event w eid actor with
        | (Raise e, w') => (Raise e, w')
        | (Ok r, w') =>
            let rid := rb_change_event_id r in
            let rollback_ids :=
              if nonempty rid then rollback_ids ++ [rid] else rollback_ids in
            rollback_images w' actor imgs' rollback_ids (S rolled)
        end
      else rollback_images w actor imgs' rollback_ids rolled
  end.

(** [rollback_to_point_in_time]; [None] only if the chain walk hits its
    iteration bound. *)
Definition rollback_to_point_in_time (w : world)
    (target_change_event_id actor : string)
  : option (result pit_result * world) :=
  match etl_state_images (db w) with
  | None => Some (Raise no_images_table_error, w)
  | Some _ =>
      match _get_head_state_image_id (db w) with
      | None => Some (Raise no_head_error, w)
      | Some head_sid =>
          match _get_state_image_by_change_event (db w) target_change_event_id with
          | None => Some (Raise (no_state_image_error target_change_event_id), w)
          | Some target_img =>
              match _collect_head_to_target_chain (db w) head_sid
                      (state_image_id target_img) with
              | None => None
              | Some (Raise e) => Some (Raise e, w)
              | Some (Ok chain) =>
                  if (length chain =? 1)%nat then
                    Some (Ok {| pit_status := "NO_OP";
                                pit_message := "HEAD is already at the requested point in time. No rollback needed.";
                                pit_target_change_event_id := target_change_event_id;
                                rolled_back_count := 0;
                                rollback_change_event_ids := [] |}, w)
                  else
                    match rollback_images w actor (removelast chain) [] 0 with
                    | (Raise e, w') => Some (Raise e, w')
                    | (Ok (rollback_ids, rolled), w') =>
                        Some (Ok {| pit_status := "SUCCESS";
                                    pit_message := "Rolled back " +:+ pretty rolled
                                      +:+ " change event(s) to reach point-in-time change_event_id="
                                      +:+ target_change_event_id +:+ ".";
                                    pit_target_change_event_id := target_change_event_id;
                                    rolled_back_count := rolled;
                                    rollback_change_event_ids := rollback_ids |}, w')
                    end
              end
          end
      end
  end.

End State.

(** ** [src/ddl.py] *)

Module Ddl.


Definition chr_eqb (a b : ascii) : bool := Ascii.eqb a b.

(** The first loop of [_strip_sql_comments]: the characters outside
    [/* ... */]; [in_block] is the flag of the loop. *)
Fixpoint strip_block (in_block : bool) (l : list ascii) : list ascii :=
  match l with
  | [] => []
  | c :: rest =>
      match rest with
      | d :: rest' =>
          if negb in_block && chr_eqb c "/" && chr_eqb d "*" then strip_block true rest'
          else if in_block && chr_eqb c "*" && chr_eqb d "/" then strip_block false rest'
          else if in_block then strip_block in_block rest
          else c :: strip_block in_block rest
      | [] => if in_block then [] else [c]
      end
  end.

(** The line boundaries of [str.splitlines] on the ASCII range: line
    feed, vertical tab, form feed, carriage return and the file, group and
    record separators. *)
Definition is_line_break (c : ascii) : bool :=
  let n := nat_of_ascii c in
  ((10 <=? n)%nat && (n <=? 13)%nat) || ((28 <=? n)%nat && (n <=? 30)%nat).

(** [s.splitlines()]: [cur] holds the characters of the line being read,
    last first.  A carriage return followed by a line feed is one
    boundary, and a text that ends in a boundary has no empty last line. *)
Fixpoint splitlines_from (cur : list ascii) (l : list ascii) : list (list ascii) :=
  match l with
  | [] => match cur with [] => [] | _ => [rev cur] end
  | c :: rest =>
      if is_line_break c then
        match rest with
        | d :: rest' =>
            if chr_eqb c "013" && chr_eqb d "010"
            then rev cur :: splitlines_from [] rest'
            else rev cur :: splitlines_from [] rest
        | [] => rev cur :: splitlines_from [] rest
        end
      else splitlines_from (c :: cur) rest
  end.

Definition splitlines (l : list ascii) : list (list ascii) := splitlines_from [] l.

(** [line.split("--", 1)[0]] when ["--" in line], the line otherwise: the
    text before the first two dashes. *)
Fixpoint before_dashes (l : list ascii) : list ascii :=
  match l with
  | [] => []
  | c :: rest =>
      match rest with
      | d :: _ => if chr_eqb c "-" && chr_eqb d "-" then []
                  else c :: before_dashes rest
      | [] => [c]
      end
  end.

(** ["\n".join(lines)] on lists of characters. *)
Fixpoint join_lines (lines : list (list ascii)) : list ascii :=
  match lines with
  | [] => []
  | [x] => x
  | x :: rest => x ++ "010"%char :: join_lines rest
  end.

Definition lstrip (l : list ascii) : list ascii := lstrip_chars l.
Definition rstrip (l : list ascii) : list ascii := rev (lstrip_chars (rev l)).
Definition strip (l : list ascii) : list ascii := rstrip (lstrip l).

(** [_strip_sql_comments(sql)] *)
Definition _strip_sql_comments (sql : string) : string :=
  let no_block := strip_block false (list_ascii_of_string sql) in
  let cleaned_lines := map before_dashes (splitlines no_block) in
  string_of_list_ascii (strip (join_lines cleaned_lines)).











Section Schema.

(** The database as [apply_schema] sees it: [execute] runs one statement
    on a connection state and gives the new state and, when the statement
    fails with a [DBAPIError], the text of the original error. *)
Context {conn : Type}.
Variable execute : conn -> string -> conn * option string.



End Schema.

End Ddl.

(** ** [src/audit.py]: the change events *)

Module AuditEvents.

Record ChangeEventContext : Type := {
  ctx_change_event_id : string;
  ctx_actor : string;
  ctx_source_name : string;
  ctx_file_name : string;
  ctx_dry_run : bool;
  ctx_date_min : option string;   (* a date, as its ISO text *)
  ctx_date_max : option string
}.

(** The five counters [finish_change_event] writes. *)
Record counters : Type := {
  inserted_count : Z;
  updated_count : Z;
  unchanged_count : Z;
  conflicted_count : Z;
  rejected_count : Z
}.

(** One row of [etl_change_events].  The columns the INSERT of
    [start_change_event] does not name ([finished_at], the counters,
    [notes]) are [None] until [finish_change_event] writes them. *)
Record event_row : Type := {
  ev_change_event_id : string;
  ev_status : string;
  ev_actor : string;
  ev_source_name : string;
  ev_file_name : string;
  ev_dry_run : bool;
  ev_date_min : option string;
  ev_date_max : option string;
  ev_finished_at : option value;
  ev_counters : option counters;
  ev_notes : option string
}.

(** The table, which is taken to exist, together with the source of
    [uuid.uuid4()] values and the reading of the database clock [now()]. *)
Record audit_db : Type := {
  events : list event_row;
  uuids : nat -> string;
  drawn : nat;
  db_now : value
}.

(** Modelled from the spec: the schema file (sql/schema.sql) is not among
    the sources.  The data model gives every ChangeEvent a unique id, so
    the INSERT of an id that is already stored fails with
    [IntegrityError]. *)
Definition id_taken (evs : list event_row) (eid : string) : bool :=
  existsb (fun e => String.eqb (ev_change_event_id e) eid) evs.

(** [start_change_event] *)
Definition start_change_event (d : audit_db) (actor source_name file_name : string)
    (dry_run : bool) (date_min date_max : option string)
  : result ChangeEventContext * audit_db :=
  let change_event_id := uuids d (drawn d) in
  if id_taken (events d) change_event_id then
    (Raise IntegrityError,
     {| events := events d; uuids := uuids d; drawn := S (drawn d); db_now := db_now d |})
  else
    (Ok {| ctx_change_event_id := change_event_id; ctx_actor := actor;
           ctx_source_name := source_name; ctx_file_name := file_name;
           ctx_dry_run := dry_run; ctx_date_min := date_min; ctx_date_max := date_max |},
     {| events := events d
                  ++ [ {| ev_change_event_id := change_event_id; ev_status := "RUNNING";
                          ev_actor := actor; ev_source_name := source_name;
                          ev_file_name := file_name; ev_dry_run := dry_run;
                          ev_date_min := date_min; ev_date_max := date_max;
                          ev_finished_at := None; ev_counters := None;
                          ev_notes := None |} ];
        uuids := uuids d; drawn := S (drawn d); db_now := db_now d |}).

(** The UPDATE of [finish_change_event] on one row. *)
Definition finish_row (now : value) (change_event_id status : string) (c : counters)
    (notes : option string) (e : event_row) : event_row :=
  if String.eqb (ev_change_event_id e) change_event_id then
    {| ev_change_event_id := ev_change_event_id e; ev_status := status;
       ev_actor := ev_actor e; ev_source_name := ev_source_name e;
       ev_file_name := ev_file_name e; ev_dry_run := ev_dry_run e;
       ev_date_min := ev_date_min e; ev_date_max := ev_date_max e;
       ev_finished_at := Some now; ev_counters := Some c; ev_notes := notes |}
  else e.

(** [finish_change_event] *)
Definition finish_change_event (d : audit_db) (change_event_id status : string)
    (inserted updated unchanged conflicted rejected : Z) (notes : option string)
  : audit_db :=
  {| events :=
       map (finish_row (db_now d) change_event_id status
              {| inserted_count := inserted; updated_count := updated;
                 unchanged_count := unchanged; conflicted_count := conflicted;
                 rejected_count := rejected |} notes)
           (events d);
     uuids := uuids d; drawn := drawn d; db_now := db_now d |}.

End AuditEvents.

(** ** [src/extract.py] *)

Module Extract.

Local Open Scope Z_scope.

(** [chunk.count(b"\n")] *)
Definition count_newlines (chunk : list ascii) : Z :=
  Z.of_nat (length (filter (fun c => c = "010"%char) chunk)).

(** The size of one read, [1024 * 1024] bytes. *)
Definition read_size : nat := Z.to_nat (1024 * 1024).

(** [get_raw_row_count(path)] for a path with the suffix [.csv], given
    the bytes of the file: the reads of at most [read_size] bytes are
    scanned for line feeds, a last line without a line feed is counted
    too (the [seek] fails on an empty file and nothing is added), and the
    header row is subtracted. *)
Definition get_raw_row_count (content : list ascii) : Z :=
  let reads := Merge.chunks_fuel (length content) read_size content in
  let n := foldl (fun n chunk => n + count_newlines chunk) 0 reads in
  let n := match last content with
           | Some c => if Ascii.eqb c "010" then n else n + 1
           | None => n
           end in
  Z.max (n - 1) 0.

End Extract.

(** ** Concrete inputs used below *)

Module Scenario.
Import Merge.

Definition sales_frame (rs : list row) : dataframe :=
  {| columns := ["order_id"; "source_row_num"; "order_date"; "customer"; "revenue"; "row_hash"];
     rows := rs |}.

(** The arguments of the sales merge of [run_import], over a given frame. *)
Definition sales_args (rs : list row) (protected : list string) (dry : bool)
  : merge_args :=
  {| change_event_id := "event-2"; table := "stg_sales_orders";
     pk_col := "order_id"; df := sales_frame rs;
     compare_cols := ["order_id"; "source_row_num"; "order_date"; "revenue"; "row_hash"];
     protected_cols := protected; dry_run := dry;
     hash_col := Some "row_hash"; meta_cols := Some ["source_row_num"];
     diff_sample_size := 25; fetch_chunk_size := 2000; write_chunk_size := 2000;
     backfill_hash := true |}.

Definition order (id : Z) (date customer : string) (revenue : Z) (h : string) : row :=
  {[ "order_id" := VInt id; "source_row_num" := VInt 7;
     "order_date" := VStr date; "customer" := VStr customer;
     "revenue" := VInt revenue; "row_hash" := VStr h ]}.

Definition stored_order : row := order 1 "2024-01-01" "ann" 100 "aaaa".

Definition sales_store : store :=
  {| target := {[ "1" := stored_order ]}; etl_row_changes := [];
     db_now := VStr "2024-03-01T00:00:00" |}.

Definition empty_store : store :=
  {| target := ∅; etl_row_changes := []; db_now := VStr "2024-03-01T00:00:00" |}.

Definition loop_start : loop_state :=
  {| ls_stats := stats0; ls_conflicts := []; ls_diff := diff0 (sales_args [] [] false);
     ls_by_counts := ∅; ls_by_samples := ∅;
     ls_to_write_params := []; ls_to_write_audit := [];
     ls_store := sales_store |}.

End Scenario.

(** ** A concrete history *)

Module History.
Import State.

Definition image (sid eid : string) (parent : option string) : state_image :=
  {| state_image_id := sid; si_change_event_id := eid;
     parent_state_image_id := parent; si_notes := None |}.

Definition image1 : state_image := image "s1" "e1" None.
Definition image2 : state_image := image "s2" "e2" (Some "s1").
Definition image3 : state_image := image "s3" "e3" (Some "s2").

Definition event (eid : string) : change_event :=
  {| ce_change_event_id := eid; ce_actor := "etl"; ce_source_name := "file_upload";
     ce_file_name := "sales.csv, budget.csv"; ce_status := "SUCCESS";
     ce_notes := None; ce_finished := true |}.

Definition change (eid pk op : string) (before : option row) (after : row)
    (applied : bool) : RowChange :=
  {| rc_change_event_id := eid; rc_table_name := "stg_sales_orders"; rc_pk := pk;
     rc_op := op; rc_conflict := negb applied; rc_conflict_reason := None;
     rc_applied := applied; rc_changed_columns := ["revenue"];
     rc_db_before := before; rc_db_after := after |}.

Definition sale (id revenue : Z) : row :=
  {[ "order_id" := VInt id; "revenue" := VInt revenue ]}.

(** Event e1 loaded order 1, e2 inserted order 2, e3 raised the revenue
    of order 1 and met a conflict on order 2. *)
Definition history : database :=
  {| tables := {[ "stg_sales_orders" :=
                    {| t_columns := ["order_id"; "revenue"];
                       t_rows := [sale 1 150; sale 2 200] |} ]};
     etl_change_events := Some [event "e1"; event "e2"; event "e3"];
     etl_row_changes :=
       Some [ change "e1" "1" "INSERT" None (sale 1 100) true;
              change "e2" "2" "INSERT" None (sale 2 200) true;
              change "e3" "1" "UPDATE" (Some (sale 1 100)) (sale 1 150) true;
              change "e3" "2" "UPDATE" (Some (sale 2 200)) (sale 2 999) false ];
     etl_state_images := Some [image1; image2; image3];
     etl_state_pointer := Some (Some "s3");
     etl_state_head := None |}.

(** The same images with the root pointing back at the newest one. *)
Definition corrupt_history : database :=
  {| tables := tables history;
     etl_change_events := etl_change_events history;
     etl_row_changes := etl_row_changes history;
     etl_state_images := Some [image "s1" "e1" (Some "s3"); image2; image3];
     etl_state_pointer := Some (Some "s3");
     etl_state_head := None |}.

Definition world0 : world :=
  {| db := history; uuids := fun n => "rb-" +:+ pretty n; drawn := 0 |}.

Definition budget_line (id : string) (amount : Z) : row :=
  {[ "transaction_id" := VStr id; "budget_amount" := VInt amount ]}.

(** Event b1 loaded budget transaction T7 into the budget staging table,
    whose key column is [transaction_id]. *)
Definition budget_history : database :=
  {| tables := {[ "stg_budget_transactions" :=
                    {| t_columns := ["transaction_id"; "budget_amount"];
                       t_rows := [budget_line "T7" 40] |} ]};
     etl_change_events := Some [event "b1"];
     etl_row_changes :=
       Some [ {| rc_change_event_id := "b1";
                 rc_table_name := "stg_budget_transactions"; rc_pk := "T7";
                 rc_op := "INSERT"; rc_conflict := false; rc_conflict_reason := None;
                 rc_applied := true; rc_changed_columns := [];
                 rc_db_before := None; rc_db_after := budget_line "T7" 40 |} ];
     etl_state_images := Some [image "s1" "b1" None];
     etl_state_pointer := Some (Some "s1");
     etl_state_head := None |}.

Definition budget_world : world :=
  {| db := budget_history; uuids := fun n => "rb-" +:+ pretty n; drawn := 0 |}.

End History.

(** * Properties *)

(** ** The row fingerprint *)

Module PipelineProofs.
Import Pandas Pipeline.

Local Open Scope Z_scope.

(** The SipHash-2-4 model reproduces the two first vectors of the
    reference implementation (key 00..0f, messages of length 0 and 1). *)
Example siphash_reference_vector :
  Pandas.siphash 0x0706050403020100 0x0f0e0d0c0b0a0908 [] = 0x726fdb47dd0e0e31%Z
  /\ Pandas.siphash 0x0706050403020100 0x0f0e0d0c0b0a0908 [0%Z] = 0x74f839c593dc67fd%Z.
Proof. split; vm_compute; reflexivity. Qed.

Definition is_hex (c : ascii) : Prop :=
  c ∈ list_ascii_of_string "0123456789abcdef".

Lemma length_string_of_list (l : list ascii) :
  String.length (string_of_list_ascii l) = length l.
Proof. induction l as [|c l IH]; simpl; [reflexivity | now rewrite IH]. Qed.

Lemma hex_digit_is_hex (d : Z) : 0 <= d < 16 -> is_hex (hex_digit d).
Proof.
  intros Hd. unfold is_hex.
  assert (Hcases : Exists (fun k => d = k) (map Z.of_nat (seq 0 16))).
  { apply Exists_exists. exists d. split; [|reflexivity].
    replace d with (Z.of_nat (Z.to_nat d)) by lia.
    apply list_elem_of_fmap_2, list_elem_of_In, in_seq. lia. }
  simpl in Hcases.
  repeat (apply Exists_cons in Hcases as [-> | Hcases];
          [vm_compute; repeat constructor |]).
  inversion Hcases.
Qed.

Lemma hex_rev_is_hex (fuel : nat) (x : Z) :
  0 <= x -> Forall is_hex (hex_rev fuel x).
Proof.
  revert x. induction fuel as [|fuel IH]; intros x Hx; simpl; [constructor|].
  destruct (Z.ltb_spec x 16).
  - apply Forall_cons; split; [apply hex_digit_is_hex; lia | apply Forall_nil_2].
  - apply Forall_cons; split.
    + apply hex_digit_is_hex. apply Z.mod_pos_bound. lia.
    + apply IH. apply Z.div_pos; lia.
Qed.

Lemma hex_rev_length (k fuel : nat) (x : Z) :
  0 <= x < 16 ^ Z.of_nat (S k) -> (length (hex_rev fuel x) <= S k)%nat.
Proof.
  revert fuel x. induction k as [|k IH]; intros fuel x Hx.
  - destruct fuel as [|fuel]; simpl; [lia|].
    change (16 ^ Z.of_nat 1) with 16 in Hx.
    destruct (Z.ltb_spec x 16); [simpl; lia | lia].
  - destruct fuel as [|fuel]; simpl; [lia|].
    destruct (Z.ltb_spec x 16); [simpl; lia|]. simpl.
    apply le_n_S, IH. split; [apply Z.div_pos; lia|].
    apply Z.div_lt_upper_bound; [lia|].
    replace (Z.of_nat (S (S k))) with (1 + Z.of_nat (S k)) in Hx by lia.
    rewrite Z.pow_add_r in Hx by lia. lia.
Qed.

Lemma format_016x_length (x : Z) :
  0 <= x < 2 ^ 64 -> String.length (format_016x x) = 16%nat.
Proof.
  intros Hx. unfold format_016x.
  rewrite length_string_of_list, length_app, repeat_length, length_rev.
  pose proof (hex_rev_length 15 (S (Z.to_nat (Z.log2 x))) x) as Hlen.
  change (16 ^ Z.of_nat 16) with (2 ^ 64) in Hlen.
  specialize (Hlen Hx). lia.
Qed.

Lemma format_016x_hex (x : Z) :
  0 <= x -> Forall is_hex (list_ascii_of_string (format_016x x)).
Proof.
  intros Hx. unfold format_016x.
  rewrite list_ascii_of_string_of_list_ascii.
  apply Forall_app. split.
  - apply Forall_forall. intros c Hc%list_elem_of_In%repeat_spec. subst c.
    vm_compute. repeat constructor.
  - apply Forall_rev, hex_rev_is_hex, Hx.
Qed.

Lemma u64_range (x : Z) : 0 <= u64 x < 2 ^ 64.
Proof. unfold u64. apply Z.mod_pos_bound. lia. Qed.

Lemma row_hash_width (r : row) (cols : list string) :
  String.length (row_hash r cols) = 16%nat
  /\ Forall is_hex (list_ascii_of_string (row_hash r cols)).
Proof.
  unfold row_hash. split.
  - apply format_016x_length, u64_range.
  - apply format_016x_hex, u64_range.
Qed.

(** The fingerprint reads a row only through the normalised text of the
    selected cells. *)
Lemma row_hash_ext (r1 r2 : row) (cols : list string) :
  (forall c, c ∈ cols -> fill_str (cell r1 c) = fill_str (cell r2 c)) ->
  row_hash r1 cols = row_hash r2 cols.
Proof.
  intros Hext. unfold row_hash. do 3 f_equal.
  apply map_ext_in. intros c Hc. apply Hext, list_elem_of_In, Hc.
Qed.

Lemma fill_str_missing (v : value) : isna v = true -> fill_str v = "".
Proof. unfold fill_str. now intros ->. Qed.

Lemma columns_check_perm (c1 c2 cols : list string) :
  c1 ≡ₚ c2 ->
  forallb (fun c => bool_decide (c ∈ c1)) cols
  = forallb (fun c => bool_decide (c ∈ c2)) cols.
Proof.
  intros Hperm. induction cols as [|c cols IH]; simpl; [reflexivity|].
  rewrite IH. f_equal. apply bool_decide_ext. now rewrite Hperm.
Qed.

(** C6 (as amended).  On a frame that has the requested columns, of
    which there is at least one, [_compute_row_hash] returns one
    fingerprint per row, each of exactly sixteen lower-case hexadecimal
    characters; the fingerprint of a row is
    a function of the normalised text of the selected cells taken in the
    given column order, so rows that agree on these cells hash alike, and
    a missing cell ([None] or NaN) hashes like the empty string.  The
    order of the columns in the frame itself does not matter; no
    independence of the order of the column list [cols] is stated. *)
Theorem C6_fingerprint_deterministic_normalised_fixed_width
    (d : dataframe) (cols : list string) :
  (forall c, c ∈ cols -> c ∈ columns d) ->
  cols <> [] ->
  exists hs,
    _compute_row_hash d cols = Ok hs
    /\ hs = map (fun r => row_hash r cols) (rows d)
    /\ Forall (fun h => String.length h = 16%nat
                        /\ Forall is_hex (list_ascii_of_string h)) hs
    /\ (forall r1 r2,
          (forall c, c ∈ cols -> fill_str (cell r1 c) = fill_str (cell r2 c)) ->
          row_hash r1 cols = row_hash r2 cols)
    /\ (forall r c, isna (cell r c) = true ->
          row_hash (<[c := VStr ""]> r) cols = row_hash r cols)
    /\ (forall d', rows d' = rows d -> columns d' ≡ₚ columns d ->
          _compute_row_hash d' cols = _compute_row_hash d cols).
Proof.
  intros Hcols Hne.
  assert (Hall : forallb (fun c => bool_decide (c ∈ columns d)) cols = true).
  { apply forallb_forall. intros c Hc. apply bool_decide_eq_true.
    apply Hcols, list_elem_of_In, Hc. }
  assert (Hrun : _compute_row_hash d cols = Ok (map (fun r => row_hash r cols) (rows d))).
  { unfold _compute_row_hash. rewrite Hall.
    destruct cols; [contradiction | reflexivity]. }
  eexists. split; [exact Hrun|]. split; [reflexivity|].
  split; [|split; [|split]].
  - apply Forall_forall. intros h Hh.
    apply list_elem_of_In, in_map_iff in Hh as (r & <- & _).
    apply row_hash_width.
  - intros r1 r2. apply row_hash_ext.
  - intros r c Hna. apply row_hash_ext. intros c' _.
    unfold cell at 1. destruct (decide (c = c')) as [->|Hne'].
    + rewrite lookup_insert_eq. rewrite (fill_str_missing _ Hna). reflexivity.
    + now rewrite lookup_insert_ne.
  - intros d' Hrows Hperm. unfold _compute_row_hash.
    now rewrite Hrows, (columns_check_perm _ _ cols Hperm).
Qed.

Definition frame_xy : dataframe :=
  {| columns := ["a"; "b"];
     rows := [ {[ "a" := VStr "x"; "b" := VStr "y" ]} ] |}.

Lemma C6_fingerprint_witness :
  (forall c, c ∈ ["a"; "b"] -> c ∈ columns frame_xy)
  /\ ["a"; "b"] <> @nil string
  /\ exists hs, _compute_row_hash frame_xy ["a"; "b"] = Ok hs /\ length hs = 1%nat.
Proof.
  assert (H : forall c, c ∈ ["a"; "b"] -> c ∈ columns frame_xy) by (intros c Hc; exact Hc).
  assert (Hne : ["a"; "b"] <> @nil string) by (intros Hnil; inversion Hnil).
  split; [exact H|]. split; [exact Hne|].
  destruct (C6_fingerprint_deterministic_normalised_fixed_width frame_xy ["a"; "b"] H Hne)
    as (hs & Hhs & Hmap & _).
  exists hs. split; [exact Hhs|]. rewrite Hmap. reflexivity.
Defined.

(** C6 as stated fails: the same row fingerprinted over the same two
    columns given in the two possible orders yields different hashes. *)
Lemma C6_column_order_changes_fingerprint :
  ["a"; "b"] ≡ₚ ["b"; "a"]
  /\ _compute_row_hash frame_xy ["a"; "b"] <> _compute_row_hash frame_xy ["b"; "a"].
Proof.
  split; [apply Permutation_swap|].
  vm_compute. discriminate.
Qed.

End PipelineProofs.

(** ** The merge engine *)

Module MergeProofs.
Import Merge.

(** *** Dictionaries built by the engine *)

Definition json_value (v : value) : value := if isna v then VNone else v.

Lemma row_to_json_fold (r : row) (cs : list string) (acc : row) (c : string) :
  dict_get
    (foldl (fun out k => let v := cell r k in
                         if isna v then <[k := VNone]> out else <[k := v]> out)
           acc cs) c
  = if decide (c ∈ cs) then json_value (cell r c) else dict_get acc c.
Proof.
  revert acc. induction cs as [|k cs IH]; intros acc; simpl.
  - destruct (decide (c ∈ [])) as [Hin|_]; [inversion Hin | reflexivity].
  - rewrite IH. destruct (decide (c ∈ cs)) as [Hin|Hnin].
    + rewrite decide_True by (now right). reflexivity.
    + destruct (decide (c = k)) as [->|Hne].
      * rewrite decide_True by (now left). unfold json_value, dict_get.
        destruct (isna (cell r k)); now rewrite lookup_insert_eq.
      * rewrite decide_False by (intros [?|?]%elem_of_cons; contradiction).
        unfold dict_get. destruct (isna (cell r k)); now rewrite lookup_insert_ne.
Qed.

Lemma row_to_json_get (cs : list string) (r : row) (c : string) :
  dict_get (_row_to_json cs r) c
  = if decide (c ∈ cs) then json_value (cell r c) else VNone.
Proof. unfold _row_to_json. rewrite row_to_json_fold. reflexivity. Qed.

Lemma row_to_json_not_nan (cs : list string) (r : row) (c : string) :
  dict_get (_row_to_json cs r) c <> VNaN.
Proof.
  rewrite row_to_json_get. destruct (decide (c ∈ cs)); [|discriminate].
  unfold json_value. destruct (cell r c); simpl; discriminate.
Qed.

Lemma py_eq_refl (v : value) : v <> VNaN -> py_eq v v = true.
Proof.
  unfold py_eq. destruct v; intros H; try contradiction;
    now apply bool_decide_eq_true.
Qed.

Lemma py_eq_eq (a b : value) : py_eq a b = true -> a = b.
Proof.
  unfold py_eq. destruct a, b; intros H; try discriminate; try reflexivity;
    now apply bool_decide_eq_true in H.
Qed.

(** *** One iteration of the main loop *)

Definition total (s : MergeStats) : nat :=
  inserted s + updated s + unchanged s + conflicted s + rejected s.

(** The guard of the hash short-circuit for an incoming dictionary and a
    stored row. *)
Definition short_circuit (a : merge_args) (incoming e : row) : bool :=
  truthy (hash_col a) && negb (is_none (hash_of a incoming))
  && negb (is_none (hash_of a e)) && py_eq (hash_of a incoming) (hash_of a e).

Definition conflict_cols_of (a : merge_args) (e incoming : row) : list string :=
  filter (fun c => c ∈ business_cols a
                   /\ py_ne (dict_get e c) (dict_get incoming c) = true)
         (protected_cols a).

(** The branch the loop body takes, named by the counter it bumps. *)
Inductive verdict : Type := Unchanged | Conflict | Insert | Update.

Definition classify (a : merge_args) (existing : option row) (incoming : row)
  : verdict :=
  match existing with
  | None => Insert
  | Some e =>
      if short_circuit a incoming e then Unchanged
      else if bool_decide (_diff_cols (Some e) incoming (business_cols a) = [])
      then Unchanged
      else if bool_decide (conflict_cols_of a e incoming = []) then Update
      else Conflict
  end.

Definition bump (v : verdict) : MergeStats -> MergeStats :=
  match v with
  | Unchanged => add_unchanged
  | Conflict => add_conflicted
  | Insert => add_inserted
  | Update => add_updated
  end.

Definition row_key (a : merge_args) (r : row) : string := py_str (cell r (pk_col a)).
Definition row_json (a : merge_args) (r : row) : row := _row_to_json (columns (df a)) r.

Lemma guard_some a incoming e :
  truthy (hash_col a) && is_present (Some e) && negb (is_none (hash_of a incoming))
  && negb (is_none (from_option (hash_of a) VNone (Some e)))
  && py_eq (hash_of a incoming) (from_option (hash_of a) VNone (Some e))
  = short_circuit a incoming e.
Proof. unfold short_circuit. simpl. now rewrite andb_true_r. Qed.

Lemma by_column_fold_fields a key (cs : list string) ls :
  let ls' := foldl (fun ls col => with_by_column col key (diff_sample_size a) ls) ls cs in
  ls_stats ls' = ls_stats ls /\ ls_conflicts ls' = ls_conflicts ls
  /\ ls_diff ls' = ls_diff ls
  /\ ls_to_write_params ls' = ls_to_write_params ls
  /\ ls_to_write_audit ls' = ls_to_write_audit ls /\ ls_store ls' = ls_store ls.
Proof.
  revert ls. induction cs as [|c cs IH]; intros ls; simpl; [tauto|].
  destruct (IH (with_by_column c key (diff_sample_size a) ls)) as (-> & -> & -> & -> & -> & ->).
  tauto.
Qed.

(** The loop body written by cases of [classify]. *)
Lemma merge_row_cases a emap ls r :
  let key := row_key a r in
  let inc := row_json a r in
  let ls' := merge_row a emap ls r in
  match emap !! key with
  | None =>
      ls_stats ls' = add_inserted (ls_stats ls)
      /\ ls_conflicts ls' = ls_conflicts ls
      /\ ls_store ls' = ls_store ls
      /\ ls_to_write_params ls'
         = (if dry_run a then ls_to_write_params ls
            else ls_to_write_params ls ++ [write_params a inc])
      /\ ls_to_write_audit ls'
         = (if dry_run a then ls_to_write_audit ls
            else ls_to_write_audit ls
                 ++ [ {| a_pk := key; a_op := "INSERT";
                         a_changed_columns := business_cols a;
                         a_db_before := None; a_db_after := inc |} ])
  | Some e =>
      if short_circuit a inc e then ls' = with_stats add_unchanged ls
      else if bool_decide (_diff_cols (Some e) inc (business_cols a) = []) then
        ls_stats ls' = add_unchanged (ls_stats ls)
        /\ ls_conflicts ls' = ls_conflicts ls
        /\ ls_to_write_params ls' = ls_to_write_params ls
        /\ ls_to_write_audit ls' = ls_to_write_audit ls
        /\ ls_store ls'
           = if backfill_hash a && negb (dry_run a) && truthy (hash_col a)
                && negb (is_none (hash_of a inc))
                && (is_none (hash_of a e) || py_ne (hash_of a e) (hash_of a inc))
             then exec_backfill a key (hash_of a inc) (ls_store ls)
             else ls_store ls
      else if bool_decide (conflict_cols_of a e inc = []) then
        ls_stats ls' = add_updated (ls_stats ls)
        /\ ls_conflicts ls' = ls_conflicts ls
        /\ ls_store ls' = ls_store ls
        /\ ls_to_write_params ls'
           = (if dry_run a then ls_to_write_params ls
              else ls_to_write_params ls ++ [write_params a inc])
        /\ ls_to_write_audit ls'
           = (if dry_run a then ls_to_write_audit ls
              else ls_to_write_audit ls
                   ++ [ {| a_pk := key; a_op := "UPDATE";
                           a_changed_columns := _diff_cols (Some e) inc (business_cols a);
                           a_db_before := Some e; a_db_after := inc |} ])
      else
        ls_stats ls' = add_conflicted (ls_stats ls)
        /\ ls_conflicts ls'
           = ls_conflicts ls
             ++ [ {| c_pk := key;
                     c_conflict_columns := py_join ", " (conflict_cols_of a e inc);
                     c_db_before := Some e; c_patch_after := inc |} ]
        /\ ls_to_write_params ls' = ls_to_write_params ls
        /\ ls_to_write_audit ls' = ls_to_write_audit ls
        /\ ls_store ls'
           = if dry_run a then ls_store ls
             else with_ledger (fun l =>
                    log_row_change l (change_event_id a) (table a) key "UPDATE"
                      (_diff_cols (Some e) inc (business_cols a)) (Some e) inc false true
                      (Some ("Protected field mismatch: "
                             +:+ py_join ", " (conflict_cols_of a e inc))))
                    (ls_store ls)
  end.
Proof.
  intros key inc ls'. subst ls'. unfold merge_row.
  fold (row_key a r). fold key. fold (row_json a r). fold inc.
  destruct (emap !! key) as [e|] eqn:He.
  - rewrite guard_some. destruct (short_circuit a inc e) eqn:Hsc; [reflexivity|].
    cbn [is_present andb from_option].
    destruct (bool_decide (_diff_cols (Some e) inc (business_cols a) = [])) eqn:Hd.
    + destruct (backfill_hash a && negb (dry_run a) && truthy (hash_col a)
                && negb (is_none (hash_of a inc))
                && (is_none (hash_of a e) || py_ne (hash_of a e) (hash_of a inc)));
        simpl; tauto.
    + fold (conflict_cols_of a e inc).
      destruct (bool_decide (conflict_cols_of a e inc = [])) eqn:Hc; cbn [negb].
      * pose proof (by_column_fold_fields a key
                      (_diff_cols (Some e) inc (business_cols a))
                      (with_diff (diff_set_updated
                                    (updated (ls_stats (with_stats add_updated ls)))
                                    key (diff_sample_size a))
                                 (with_stats add_updated ls))) as Hf.
        cbv zeta in Hf. destruct Hf as (H1 & H2 & H3 & H4 & H5 & H6).
        destruct (dry_run a);
          cbn [fst snd with_to_write ls_stats ls_conflicts ls_store
               ls_to_write_params ls_to_write_audit];
          rewrite ?H1, ?H2, ?H3, ?H4, ?H5, ?H6; simpl; tauto.
      * destruct (dry_run a); simpl; tauto.
  - simpl. rewrite !andb_false_r. simpl.
    destruct (dry_run a); simpl; tauto.
Qed.

Lemma merge_row_stats a emap ls r :
  ls_stats (merge_row a emap ls r)
  = bump (classify a (emap !! row_key a r) (row_json a r)) (ls_stats ls).
Proof.
  pose proof (merge_row_cases a emap ls r) as H. cbv zeta in H.
  unfold classify. destruct (emap !! row_key a r) as [e|].
  - destruct (short_circuit a (row_json a r) e); [now rewrite H|].
    destruct (bool_decide (_diff_cols (Some e) (row_json a r) (business_cols a) = []));
      [now destruct H as (-> & _)|].
    destruct (bool_decide (conflict_cols_of a e (row_json a r) = []));
      now destruct H as (-> & _).
  - now destruct H as (-> & _).
Qed.

Lemma merge_row_total a emap ls r :
  total (ls_stats (merge_row a emap ls r)) = S (total (ls_stats ls)).
Proof.
  rewrite merge_row_stats.
  destruct (classify a (emap !! row_key a r) (row_json a r));
    unfold total; simpl; lia.
Qed.


(** *** The whole loop *)

Definition loop0 (a : merge_args) (st : store) : loop_state :=
  {| ls_stats := if existsb (bad_pk a) (rows (df a))
                 then add_rejected (length (filter (fun r => bad_pk a r = true) (rows (df a)))) stats0
                 else stats0;
     ls_conflicts := [];
     ls_diff := if existsb (bad_pk a) (rows (df a))
                then diff_set_rejected (length (filter (fun r => bad_pk a r = true) (rows (df a)))) (diff0 a)
                else diff0 a;
     ls_by_counts := ∅; ls_by_samples := ∅;
     ls_to_write_params := []; ls_to_write_audit := [];
     ls_store := st |}.

Lemma filter_bad_split a (l : list row) :
  length (filter (fun r => bad_pk a r = true) l)
  + length (filter (fun r => bad_pk a r = false) l) = length l.
Proof.
  induction l as [|r l IH]; [reflexivity|].
  rewrite !filter_cons. destruct (bad_pk a r) eqn:Hb.
  - rewrite decide_True by reflexivity. rewrite decide_False by discriminate.
    simpl. lia.
  - rewrite decide_False by discriminate. rewrite decide_True by reflexivity.
    simpl. lia.
Qed.


Lemma rejected_plus_accepted a :
  total (ls_stats (loop0 a {| target := ∅; etl_row_changes := []; db_now := VNone |}))
  + length (accepted_rows a) = length (rows (df a)).
Proof.
  unfold loop0, accepted_rows. simpl.
  destruct (existsb (bad_pk a) (rows (df a))) eqn:Hany.
  - unfold total. simpl. apply filter_bad_split.
  - unfold total. simpl. reflexivity.
Qed.

Lemma loop_total a emap (l : list row) ls :
  total (ls_stats (foldl (merge_row a emap) ls l)) = total (ls_stats ls) + length l.
Proof.
  revert ls. induction l as [|r l IH]; intros ls; simpl; [lia|].
  rewrite IH, merge_row_total. lia.
Qed.

(** [merge_upsert] seen as its stages. *)
Definition pk_vals (a : merge_args) : list value :=
  map (fun r => cell r (pk_col a)) (accepted_rows a).

Definition finish (a : merge_args) (ls : loop_state)
  : result (MergeStats * list conflict_entry * diff_summary) * store :=
  match batch_write a ls with
  | Raise e => (Raise e, ls_store ls)
  | Ok st' =>
      (Ok (ls_stats ls, ls_conflicts ls,
           diff_set_by_column (ls_by_counts ls) (ls_by_samples ls) (ls_diff ls)),
       st')
  end.

Lemma merge_upsert_unfold a st :
  merge_upsert a st =
  if negb (bool_decide (pk_col a ∈ columns (df a))) then
    (Raise (KeyError "merge_upsert: pk_col not found in df columns"), st)
  else if bool_decide (accepted_rows a = []) then
    (Ok (ls_stats (loop0 a st), [], ls_diff (loop0 a st)), st)
  else
    match _fetch_existing_bulk (target st) (pk_vals a) (fetch_chunk_size a) with
    | Raise e => (Raise e, st)
    | Ok existing_map =>
        finish a (foldl (merge_row a existing_map) (loop0 a st) (accepted_rows a))
    end.
Proof.
  unfold merge_upsert, pk_vals, finish.
  destruct (negb (bool_decide (pk_col a ∈ columns (df a)))); [reflexivity|].
  destruct (accepted_rows a) as [|r0 frame]; reflexivity.
Qed.

Lemma merge_upsert_stats a st s cs ds st' :
  merge_upsert a st = (Ok (s, cs, ds), st') ->
  total s = length (rows (df a)).
Proof.
  rewrite merge_upsert_unfold.
  destruct (negb (bool_decide (pk_col a ∈ columns (df a)))); [discriminate|].
  pose proof (rejected_plus_accepted a) as Hsplit.
  case_bool_decide as Hacc.
  - intros [= <- _ _ _]. rewrite Hacc in Hsplit.
    unfold loop0 in *. simpl in *. lia.
  - destruct (_fetch_existing_bulk (target st) (pk_vals a) (fetch_chunk_size a))
      as [emap|]; [|discriminate].
    unfold finish.
    destruct (batch_write a (foldl (merge_row a emap) (loop0 a st) (accepted_rows a)));
      [|discriminate].
    intros [= <- _ _ _]. rewrite loop_total.
    unfold loop0 in *. simpl in *. lia.
Qed.

(** *** Dry runs *)

Lemma merge_row_dry_store a emap ls r :
  dry_run a = true -> ls_store (merge_row a emap ls r) = ls_store ls.
Proof.
  intros Hdry. pose proof (merge_row_cases a emap ls r) as H. cbv zeta in H.
  rewrite Hdry in H. destruct (emap !! row_key a r) as [e|].
  - destruct (short_circuit a (row_json a r) e); [now rewrite H|].
    destruct (bool_decide (_diff_cols (Some e) (row_json a r) (business_cols a) = [])).
    + destruct H as (_ & _ & _ & _ & ->).
      now rewrite andb_false_r.
    + destruct (bool_decide (conflict_cols_of a e (row_json a r) = []));
        now destruct H as (_ & _ & ? & ? & ?).
  - now destruct H as (_ & _ & ? & _).
Qed.

Lemma loop_dry_store a emap (l : list row) ls :
  dry_run a = true -> ls_store (foldl (merge_row a emap) ls l) = ls_store ls.
Proof.
  intros Hdry. revert ls. induction l as [|r l IH]; intros ls; simpl; [reflexivity|].
  now rewrite IH, merge_row_dry_store.
Qed.

Lemma merge_upsert_dry_store a st :
  dry_run a = true -> (merge_upsert a st).2 = st.
Proof.
  intros Hdry. rewrite merge_upsert_unfold.
  destruct (negb (bool_decide (pk_col a ∈ columns (df a)))); [reflexivity|].
  case_bool_decide; [reflexivity|].
  destruct (_fetch_existing_bulk (target st) (pk_vals a) (fetch_chunk_size a))
    as [emap|]; [|reflexivity].
  unfold finish, batch_write. rewrite Hdry. simpl.
  now rewrite loop_dry_store.
Qed.


(** *** Statements on one row *)

Definition stored_cell (st : store) (key col : string) : option value :=
  (fun r => dict_get r col) <$> target st !! key.

Definition stats_of (x : result (MergeStats * list conflict_entry * diff_summary) * store)
  : option MergeStats :=
  match x.1 with
  | Ok (s, _, _) => Some s
  | Raise _ => None
  end.

(** C2.  For an incoming row whose key is stored: when a hash column is
    in use and the stored and the incoming fingerprint are both present
    and equal, the loop body only counts the row as unchanged and does
    nothing else; and when no compared column other than the key, the
    hash column and the metadata columns differs, the row is counted as
    unchanged whatever the fingerprints are: nothing is staged for
    writing, no conflict and no ledger entry is produced, and the store
    is left alone or receives the fingerprint backfill only. *)
Theorem C2_unchanged_on_equal_hash_or_empty_diff
    (a : merge_args) (existing_map : gmap string row) (ls : loop_state)
    (r e : row) :
  existing_map !! row_key a r = Some e ->
  (truthy (hash_col a) = true ->
   hash_of a (row_json a r) <> VNone ->
   hash_of a e <> VNone ->
   py_eq (hash_of a (row_json a r)) (hash_of a e) = true ->
   merge_row a existing_map ls r = with_stats add_unchanged ls)
  /\ ((forall c, c ∈ compare_cols a -> c <> pk_col a -> Some c <> hash_col a ->
                 c ∉ meta_cols_or_default a ->
                 py_ne (dict_get e c) (dict_get (row_json a r) c) = false) ->
      ls_stats (merge_row a existing_map ls r) = add_unchanged (ls_stats ls)
      /\ ls_conflicts (merge_row a existing_map ls r) = ls_conflicts ls
      /\ ls_to_write_params (merge_row a existing_map ls r) = ls_to_write_params ls
      /\ ls_to_write_audit (merge_row a existing_map ls r) = ls_to_write_audit ls
      /\ (ls_store (merge_row a existing_map ls r) = ls_store ls
          \/ ls_store (merge_row a existing_map ls r)
             = exec_backfill a (row_key a r) (hash_of a (row_json a r)) (ls_store ls))).
Proof.
  intros He. pose proof (merge_row_cases a existing_map ls r) as H.
  cbv zeta in H. rewrite He in H. split.
  - intros Ht Hi Hx Heq.
    assert (Hsc : short_circuit a (row_json a r) e = true).
    { unfold short_circuit, is_none. rewrite Ht, Heq.
      rewrite !bool_decide_eq_false_2 by assumption. reflexivity. }
    now rewrite Hsc in H.
  - intros Hsame.
    destruct (short_circuit a (row_json a r) e).
    { rewrite H. simpl. tauto. }
    assert (Hd : _diff_cols (Some e) (row_json a r) (business_cols a) = []).
    { unfold _diff_cols. apply elem_of_nil_inv. intros c [Hne Hc]%list_elem_of_filter.
      unfold business_cols in Hc. apply list_elem_of_filter in Hc as [(H1 & H2 & H3) Hc].
      rewrite (Hsame c Hc H1 H2 H3) in Hne. discriminate. }
    rewrite bool_decide_eq_true_2 in H by exact Hd.
    destruct H as (-> & -> & -> & -> & ->).
    repeat split.
    match goal with |- context [if ?b then _ else _] => destruct b end; tauto.
Qed.

(** C1 (as amended).  For an incoming row whose key is stored: if no
    protected column differs from the stored row, the row is not counted
    as a conflict and no conflict entry is produced; and if the hash
    short-circuit does not apply (no hash column in use, a fingerprint
    absent, or the two fingerprints different) and some protected column
    that is among the business columns differs, the row is counted as a
    conflict, reported with all such columns, its stored image and the
    proposed image, logged as not applied when the run is not a dry run,
    and it is neither staged for the batch write nor written to the
    target table. *)
Theorem C1_conflict_precision_outside_short_circuit
    (a : merge_args) (existing_map : gmap string row) (ls : loop_state)
    (r e : row) :
  existing_map !! row_key a r = Some e ->
  ((forall c, c ∈ protected_cols a ->
              py_ne (dict_get e c) (dict_get (row_json a r) c) = false) ->
   conflicted (ls_stats (merge_row a existing_map ls r)) = conflicted (ls_stats ls)
   /\ ls_conflicts (merge_row a existing_map ls r) = ls_conflicts ls)
  /\ (short_circuit a (row_json a r) e = false ->
      (exists c, c ∈ protected_cols a /\ c ∈ business_cols a
                 /\ py_ne (dict_get e c) (dict_get (row_json a r) c) = true) ->
      ls_stats (merge_row a existing_map ls r) = add_conflicted (ls_stats ls)
      /\ ls_conflicts (merge_row a existing_map ls r)
         = ls_conflicts ls
           ++ [ {| c_pk := row_key a r;
                   c_conflict_columns := py_join ", " (conflict_cols_of a e (row_json a r));
                   c_db_before := Some e;
                   c_patch_after := row_json a r |} ]
      /\ ls_to_write_params (merge_row a existing_map ls r) = ls_to_write_params ls
      /\ ls_to_write_audit (merge_row a existing_map ls r) = ls_to_write_audit ls
      /\ target (ls_store (merge_row a existing_map ls r)) = target (ls_store ls)
      /\ (dry_run a = false ->
          exists rc,
            etl_row_changes (ls_store (merge_row a existing_map ls r))
            = etl_row_changes (ls_store ls) ++ [rc]
            /\ rc_pk rc = row_key a r /\ rc_applied rc = false
            /\ rc_conflict rc = true
            /\ rc_db_before rc = Some e /\ rc_db_after rc = row_json a r)).
Proof.
  intros He. pose proof (merge_row_cases a existing_map ls r) as H.
  cbv zeta in H. rewrite He in H. split.
  - intros Hsame.
    destruct (short_circuit a (row_json a r) e); [rewrite H; simpl; tauto|].
    destruct (bool_decide (_diff_cols (Some e) (row_json a r) (business_cols a) = []));
      [destruct H as (-> & -> & _); simpl; tauto|].
    assert (Hc : conflict_cols_of a e (row_json a r) = []).
    { apply elem_of_nil_inv. intros c [[_ Hne] Hc]%list_elem_of_filter.
      rewrite (Hsame c Hc) in Hne. discriminate. }
    rewrite bool_decide_eq_true_2 in H by exact Hc.
    destruct H as (-> & -> & _). simpl. tauto.
  - intros Hsc (c & Hp & Hb & Hne). rewrite Hsc in H.
    assert (Hd : _diff_cols (Some e) (row_json a r) (business_cols a) <> []).
    { intros Hnil.
      assert (Hin : c ∈ _diff_cols (Some e) (row_json a r) (business_cols a))
        by (apply list_elem_of_filter; split; assumption).
      rewrite Hnil in Hin. inversion Hin. }
    assert (Hc : conflict_cols_of a e (row_json a r) <> []).
    { intros Hnil.
      assert (Hin : c ∈ conflict_cols_of a e (row_json a r))
        by (apply list_elem_of_filter; split; [split|]; assumption).
      rewrite Hnil in Hin. inversion Hin. }
    rewrite bool_decide_eq_false_2 in H by exact Hd.
    rewrite bool_decide_eq_false_2 in H by exact Hc.
    destruct H as (-> & -> & -> & -> & Hst). repeat split.
    + rewrite Hst. now destruct (dry_run a).
    + intros Hdry. rewrite Hst, Hdry. eexists. split; [reflexivity|]. simpl. tauto.
Qed.

(** C10.  Whenever [merge_upsert] returns, the five counters of the
    returned statistics add up to the number of rows of the input frame. *)
Theorem C10_classification_partition
    (a : merge_args) (st st' : store) (s : MergeStats)
    (cs : list conflict_entry) (ds : diff_summary) :
  merge_upsert a st = (Ok (s, cs, ds), st') ->
  inserted s + updated s + unchanged s + conflicted s + rejected s
  = length (rows (df a)).
Proof. apply merge_upsert_stats. Qed.


Import Scenario.

Lemma C2_unchanged_witness :
  merge_row (sales_args [] ["order_date"] false) (target sales_store) loop_start stored_order
  = with_stats add_unchanged loop_start
  /\ ls_stats (merge_row (sales_args [] ["order_date"] false) (target sales_store)
                 loop_start (order 1 "2024-01-01" "ann" 100 "bbbb"))
     = add_unchanged stats0.
Proof.
  split.
  - apply (C2_unchanged_on_equal_hash_or_empty_diff
             (sales_args [] ["order_date"] false) (target sales_store) loop_start
             stored_order stored_order).
    + vm_compute. reflexivity.
    + vm_compute. reflexivity.
    + vm_compute. discriminate.
    + vm_compute. discriminate.
    + vm_compute. reflexivity.
  - apply (C2_unchanged_on_equal_hash_or_empty_diff
             (sales_args [] ["order_date"] false) (target sales_store) loop_start
             (order 1 "2024-01-01" "ann" 100 "bbbb") stored_order).
    + vm_compute. reflexivity.
    + intros c Hc Hpk Hh Hm.
      repeat (apply elem_of_cons in Hc as [->|Hc]);
        try (vm_compute; reflexivity); try (exfalso; apply Hpk; reflexivity);
        try (exfalso; apply Hh; reflexivity);
        try (exfalso; apply Hm; vm_compute; left).
      inversion Hc.
Defined.

Lemma C1_conflict_witness :
  ls_stats (merge_row (sales_args [] ["order_date"] false) (target sales_store)
              loop_start (order 1 "2024-02-02" "ann" 100 "bbbb"))
  = add_conflicted stats0
  /\ conflicted (ls_stats (merge_row (sales_args [] ["order_date"] false)
                             (target sales_store) loop_start
                             (order 1 "2024-01-01" "ann" 120 "cccc")))
     = 0.
Proof.
  split.
  - apply (C1_conflict_precision_outside_short_circuit
             (sales_args [] ["order_date"] false) (target sales_store) loop_start
             (order 1 "2024-02-02" "ann" 100 "bbbb") stored_order).
    + vm_compute. reflexivity.
    + vm_compute. reflexivity.
    + exists "order_date". split; [left|]. split; vm_compute; [|reflexivity].
      constructor.
  - apply (C1_conflict_precision_outside_short_circuit
             (sales_args [] ["order_date"] false) (target sales_store) loop_start
             (order 1 "2024-01-01" "ann" 120 "cccc") stored_order).
    + vm_compute. reflexivity.
    + intros c Hc. apply elem_of_cons in Hc as [->|Hc]; [vm_compute; reflexivity|].
      inversion Hc.
Defined.

(** C1 as stated fails in two ways.  A stored row and an incoming row
    that carry the same fingerprint but different values of the protected
    column [order_date] are counted as unchanged, not as a conflict; and a
    difference in a protected column that is not among the compared
    business columns ([customer]) does not make a conflict: the row is
    counted as updated and its compared columns are written. *)
Lemma C1_protected_difference_without_conflict :
  "order_date" ∈ protected_cols (sales_args [] ["order_date"] false)
  /\ py_ne (dict_get stored_order "order_date")
           (dict_get (order 1 "2024-02-02" "ann" 100 "aaaa") "order_date") = true
  /\ stats_of (merge_upsert
                 (sales_args [order 1 "2024-02-02" "ann" 100 "aaaa"] ["order_date"] false)
                 sales_store)
     = Some {| inserted := 0; updated := 0; unchanged := 1; conflicted := 0; rejected := 0 |}
  /\ py_ne (dict_get stored_order "customer")
           (dict_get (order 1 "2024-01-01" "bob" 120 "cccc") "customer") = true
  /\ stats_of (merge_upsert
                 (sales_args [order 1 "2024-01-01" "bob" 120 "cccc"] ["customer"] false)
                 sales_store)
     = Some {| inserted := 0; updated := 1; unchanged := 0; conflicted := 0; rejected := 0 |}
  /\ stored_cell (merge_upsert
                    (sales_args [order 1 "2024-01-01" "bob" 120 "cccc"] ["customer"] false)
                    sales_store).2 "1" "revenue"
     = Some (VInt 120).
Proof.
  split; [left|]. repeat split; vm_compute; reflexivity.
Qed.

Definition mixed_batch : merge_args :=
  sales_args [order 1 "2024-02-02" "ann" 100 "bbbb"; order 2 "2024-02-03" "bob" 5 "dddd";
              order 1 "2024-01-01" "ann" 100 "aaaa";
              <["order_id" := VStr "  "]> stored_order]
             ["order_date"] false.

Lemma C10_partition_witness :
  exists s,
    stats_of (merge_upsert mixed_batch sales_store) = Some s
    /\ inserted s + updated s + unchanged s + conflicted s + rejected s = 4.
Proof.
  destruct (merge_upsert mixed_batch sales_store) as [[[[s cs] ds]|e] st'] eqn:H.
  - exists s. split; [reflexivity|].
    exact (C10_classification_partition mixed_batch sales_store st' s cs ds H).
  - vm_compute in H. discriminate H.
Defined.

(** *** Dry run against real run *)

Definition with_dry_run (b : bool) (a : merge_args) : merge_args :=
  {| change_event_id := change_event_id a; table := table a; pk_col := pk_col a;
     df := df a; compare_cols := compare_cols a; protected_cols := protected_cols a;
     dry_run := b; hash_col := hash_col a; meta_cols := meta_cols a;
     diff_sample_size := diff_sample_size a; fetch_chunk_size := fetch_chunk_size a;
     write_chunk_size := write_chunk_size a; backfill_hash := backfill_hash a |}.

(** A diff summary with the backfill counter put aside. *)
Definition without_backfill_count (d : diff_summary) : diff_summary :=
  {| ds_table := ds_table d; inserted_count := inserted_count d;
     updated_count := updated_count d; conflicted_count := conflicted_count d;
     rejected_count := rejected_count d; hash_backfilled_count := 0;
     inserted_pks_sample := inserted_pks_sample d;
     updated_pks_sample := updated_pks_sample d;
     conflicted_pks_sample := conflicted_pks_sample d;
     updated_by_column_counts := updated_by_column_counts d;
     updated_by_column_samples := updated_by_column_samples d |}.

(** Two loop states that agree on everything a dry run computes. *)
Definition same_summary (l1 l2 : loop_state) : Prop :=
  ls_stats l1 = ls_stats l2 /\ ls_conflicts l1 = ls_conflicts l2
  /\ ls_by_counts l1 = ls_by_counts l2 /\ ls_by_samples l1 = ls_by_samples l2
  /\ without_backfill_count (ls_diff l1) = without_backfill_count (ls_diff l2).

Lemma same_summary_by_column key limit (cs : list string) l1 l2 :
  same_summary l1 l2 ->
  same_summary (foldl (fun ls col => with_by_column col key limit ls) l1 cs)
               (foldl (fun ls col => with_by_column col key limit ls) l2 cs).
Proof.
  revert l1 l2. induction cs as [|c cs IH]; intros l1 l2 Hs; simpl; [exact Hs|].
  apply IH. destruct Hs as (H1 & H2 & H3 & H4 & H5).
  unfold same_summary. simpl. rewrite H1, H2, H3, H4, H5. tauto.
Qed.

Lemma without_backfill_added d :
  without_backfill_count (diff_add_backfilled d) = without_backfill_count d.
Proof. reflexivity. Qed.

Lemma without_backfill_conflicted d1 d2 n k l :
  without_backfill_count d1 = without_backfill_count d2 ->
  without_backfill_count (diff_set_conflicted n k l d1)
  = without_backfill_count (diff_set_conflicted n k l d2).
Proof.
  destruct d1, d2. unfold without_backfill_count. simpl.
  now intros [= -> -> -> -> -> -> -> -> -> ->].
Qed.

Lemma without_backfill_inserted d1 d2 n k l :
  without_backfill_count d1 = without_backfill_count d2 ->
  without_backfill_count (diff_set_inserted n k l d1)
  = without_backfill_count (diff_set_inserted n k l d2).
Proof.
  destruct d1, d2. unfold without_backfill_count. simpl.
  now intros [= -> -> -> -> -> -> -> -> -> ->].
Qed.

Lemma without_backfill_updated d1 d2 n k l :
  without_backfill_count d1 = without_backfill_count d2 ->
  without_backfill_count (diff_set_updated n k l d1)
  = without_backfill_count (diff_set_updated n k l d2).
Proof.
  destruct d1, d2. unfold without_backfill_count. simpl.
  now intros [= -> -> -> -> -> -> -> -> -> ->].
Qed.

Ltac summary_fields :=
  unfold same_summary;
  cbn [ls_stats ls_conflicts ls_by_counts ls_by_samples ls_diff
       with_stats with_diff with_store with_conflicts with_to_write fst snd].

Lemma same_summary_step a emap l1 l2 r :
  same_summary l1 l2 ->
  same_summary (merge_row (with_dry_run true a) emap l1 r)
               (merge_row (with_dry_run false a) emap l2 r).
Proof.
  intros Hs. unfold merge_row.
  cbn [with_dry_run dry_run pk_col df hash_col backfill_hash protected_cols
       change_event_id table diff_sample_size].
  change (hash_of (with_dry_run true a)) with (hash_of a).
  change (hash_of (with_dry_run false a)) with (hash_of a).
  change (business_cols (with_dry_run true a)) with (business_cols a).
  change (business_cols (with_dry_run false a)) with (business_cols a).
  set (key := py_str (cell r (pk_col a))).
  set (inc := _row_to_json (columns (df a)) r).
  destruct Hs as (H1 & H2 & H3 & H4 & H5).
  match goal with |- context [if ?b then with_stats add_unchanged l1 else _] =>
    destruct b end.
  { summary_fields. rewrite H1, H2, H3, H4, H5. tauto. }
  match goal with |- context [if ?b then _ else _] => destruct b end.
  { rewrite andb_false_r. cbn [andb negb].
    match goal with |- context [if ?b then _ else _] => destruct b end;
      summary_fields; rewrite ?without_backfill_added, H1, H2, H3, H4, H5; tauto. }
  match goal with |- context [if negb ?b then _ else _] => destruct b end;
    cbn [negb].
  - destruct (emap !! key) as [e|].
    + pose proof (same_summary_by_column key (diff_sample_size a)
                    (_diff_cols (Some e) inc (business_cols a))
                    (with_diff (diff_set_updated (updated (ls_stats (with_stats add_updated l1)))
                                  key (diff_sample_size a)) (with_stats add_updated l1))
                    (with_diff (diff_set_updated (updated (ls_stats (with_stats add_updated l2)))
                                  key (diff_sample_size a)) (with_stats add_updated l2))) as Hf.
      destruct Hf as (F1 & F2 & F3 & F4 & F5).
      { summary_fields. rewrite H1, H2, H3, H4.
        repeat split. now apply without_backfill_updated. }
      summary_fields. tauto.
    + summary_fields. rewrite H1, H2, H3, H4.
      repeat split. now apply without_backfill_inserted.
  - summary_fields. rewrite H1, H2, H3, H4.
    repeat split. now apply without_backfill_conflicted.
Qed.


Lemma same_summary_loop a emap (l : list row) l1 l2 :
  same_summary l1 l2 ->
  same_summary (foldl (merge_row (with_dry_run true a) emap) l1 l)
               (foldl (merge_row (with_dry_run false a) emap) l2 l).
Proof.
  revert l1 l2. induction l as [|r l IH]; intros l1 l2 Hs; simpl; [exact Hs|].
  apply IH, same_summary_step, Hs.
Qed.

Lemma with_dry_run_id a : dry_run a = true -> with_dry_run true a = a.
Proof. destruct a. simpl. now intros ->. Qed.

Lemma without_backfill_by_column d1 d2 c s :
  without_backfill_count d1 = without_backfill_count d2 ->
  without_backfill_count (diff_set_by_column c s d1)
  = without_backfill_count (diff_set_by_column c s d2).
Proof.
  destruct d1, d2. unfold without_backfill_count. simpl.
  now intros [= -> -> -> -> -> -> -> -> -> ->].
Qed.

Lemma dry_run_same_summary a st s cs ds st' :
  merge_upsert (with_dry_run false a) st = (Ok (s, cs, ds), st') ->
  exists ds',
    merge_upsert (with_dry_run true a) st = (Ok (s, cs, ds'), st)
    /\ without_backfill_count ds' = without_backfill_count ds.
Proof.
  rewrite !merge_upsert_unfold.
  change (pk_col (with_dry_run false a)) with (pk_col a).
  change (pk_col (with_dry_run true a)) with (pk_col a).
  change (df (with_dry_run false a)) with (df a).
  change (df (with_dry_run true a)) with (df a).
  change (accepted_rows (with_dry_run false a)) with (accepted_rows a).
  change (accepted_rows (with_dry_run true a)) with (accepted_rows a).
  change (pk_vals (with_dry_run false a)) with (pk_vals a).
  change (pk_vals (with_dry_run true a)) with (pk_vals a).
  change (fetch_chunk_size (with_dry_run false a)) with (fetch_chunk_size a).
  change (fetch_chunk_size (with_dry_run true a)) with (fetch_chunk_size a).
  change (loop0 (with_dry_run false a) st) with (loop0 a st).
  change (loop0 (with_dry_run true a) st) with (loop0 a st).
  destruct (negb (bool_decide (pk_col a ∈ columns (df a)))); [discriminate|].
  case_bool_decide.
  { intros [= <- <- <- <-]. eexists. split; reflexivity. }
  destruct (_fetch_existing_bulk (target st) (pk_vals a) (fetch_chunk_size a))
    as [emap|]; [|discriminate].
  assert (Hsim : same_summary (loop0 a st) (loop0 a st))
    by (unfold same_summary; tauto).
  pose proof (same_summary_loop a emap (accepted_rows a) _ _ Hsim)
    as (H1 & H2 & H3 & H4 & H5).
  unfold finish.
  destruct (batch_write (with_dry_run false a) _) as [stw|]; [|discriminate].
  intros [= <- <- <- <-].
  unfold batch_write. cbn [with_dry_run dry_run negb andb].
  rewrite loop_dry_store by reflexivity.
  rewrite H1, H2, H3, H4. eexists. split; [reflexivity|].
  now apply without_backfill_by_column.
Qed.

(** C5.  A call with [dry_run=True] leaves the store as it found it:
    the target table and the row-change ledger are unchanged, whether the
    call returns or raises.  It still classifies: whenever the same call
    without [dry_run] returns, the dry run returns the same statistics and
    conflicts, and the same diff summary up to the count of fingerprint
    backfills, which a dry run does not perform. *)
Theorem C5_dry_run_leaves_store_unchanged (a : merge_args) (st : store) :
  dry_run a = true ->
  (merge_upsert a st).2 = st
  /\ forall s cs ds st',
       merge_upsert (with_dry_run false a) st = (Ok (s, cs, ds), st') ->
       exists ds',
         merge_upsert a st = (Ok (s, cs, ds'), st)
         /\ without_backfill_count ds' = without_backfill_count ds.
Proof.
  intros Hdry. split; [now apply merge_upsert_dry_store|].
  intros s cs ds st' Hwet.
  destruct (dry_run_same_summary a st s cs ds st' Hwet) as (ds' & Hm & Hd).
  rewrite (with_dry_run_id a Hdry) in Hm. now exists ds'.
Qed.

Lemma C5_dry_run_witness :
  (merge_upsert (sales_args [order 2 "2024-02-03" "bob" 5 "dddd"] [] true) sales_store).2
  = sales_store.
Proof.
  apply (C5_dry_run_leaves_store_unchanged
           (sales_args [order 2 "2024-02-03" "bob" 5 "dddd"] [] true) sales_store).
  reflexivity.
Defined.


(** *** Rejection of bad keys *)

(** A text is blank when all its characters are white space. *)
Definition blank (s : string) : Prop :=
  Forall (fun c => is_space c = true) (list_ascii_of_string s).

(** A key is unusable when it is missing or its text is blank. *)
Definition key_missing_or_blank (v : value) : Prop :=
  isna v = true \/ blank (py_str v).

#[local] Instance key_missing_or_blank_dec v : Decision (key_missing_or_blank v).
Proof. unfold key_missing_or_blank, blank. apply _. Defined.

Lemma lstrip_nil_iff (l : list ascii) :
  lstrip_chars l = [] <-> Forall (fun c => is_space c = true) l.
Proof.
  induction l as [|c l IH]; simpl.
  - split; [constructor | reflexivity].
  - destruct (is_space c) eqn:Hc.
    + rewrite IH. split; [intros H; now constructor | intros H; now inversion H].
    + split; [discriminate|]. intros H. inversion H. congruence.
Qed.

Lemma lstrip_all_space (l : list ascii) :
  Forall (fun c => is_space c = true) (lstrip_chars l)
  <-> Forall (fun c => is_space c = true) l.
Proof.
  induction l as [|c l IH]; simpl; [reflexivity|].
  destruct (is_space c) eqn:Hc; [|reflexivity].
  rewrite IH. split; [intros H; now constructor | intros H; now inversion H].
Qed.

Lemma string_of_list_nil (l : list ascii) :
  string_of_list_ascii l = "" <-> l = [].
Proof. destruct l; simpl; split; intros H; congruence. Qed.

Lemma strip_empty_iff (s : string) : py_strip s = "" <-> blank s.
Proof.
  unfold py_strip, blank. rewrite string_of_list_nil.
  split.
  - intros H. apply (f_equal (@rev ascii)) in H. rewrite rev_involutive in H.
    simpl in H. apply lstrip_nil_iff in H. apply Forall_rev in H.
    rewrite rev_involutive in H. now apply lstrip_all_space.
  - intros H. apply lstrip_all_space in H. apply Forall_rev in H.
    apply lstrip_nil_iff in H. now rewrite H.
Qed.

Lemma bad_pk_spec a r :
  bad_pk a r = true <-> key_missing_or_blank (cell r (pk_col a)).
Proof.
  unfold bad_pk, key_missing_or_blank. rewrite orb_true_iff.
  rewrite String.eqb_eq, strip_empty_iff. reflexivity.
Qed.



Lemma filter_good_spec a (l : list row) :
  filter (fun r => bad_pk a r = false) l
  = filter (fun r => ~ key_missing_or_blank (cell r (pk_col a))) l.
Proof.
  apply list_filter_iff. intros r. rewrite <- bad_pk_spec.
  destruct (bad_pk a r); split; congruence.
Qed.

Lemma existsb_false_filter_good a (l : list row) :
  existsb (bad_pk a) l = false -> filter (fun r => bad_pk a r = false) l = l.
Proof.
  induction l as [|r l IH]; [reflexivity|]. simpl.
  intros [Hr Hl]%orb_false_elim. rewrite filter_cons.
  rewrite decide_True by exact Hr. now rewrite IH.
Qed.

Lemma accepted_rows_spec a :
  accepted_rows a
  = filter (fun r => ~ key_missing_or_blank (cell r (pk_col a))) (rows (df a)).
Proof.
  unfold accepted_rows. rewrite <- filter_good_spec.
  destruct (existsb (bad_pk a) (rows (df a))) eqn:Hany; [reflexivity|].
  now rewrite existsb_false_filter_good.
Qed.

Lemma accepted_rows_good a :
  existsb (bad_pk a) (accepted_rows a) = false.
Proof.
  rewrite accepted_rows_spec, <- filter_good_spec.
  induction (rows (df a)) as [|r l IH]; [reflexivity|].
  rewrite filter_cons. destruct (bad_pk a r) eqn:Hb.
  - rewrite decide_False by discriminate. exact IH.
  - rewrite decide_True by reflexivity. simpl. now rewrite Hb, IH.
Qed.


















(** *** Re-ingestion *)

Lemma chunks_concat {A} (n : nat) :
  (0 < n)%nat ->
  forall fuel (l : list A), (length l <= fuel)%nat -> concat (chunks_fuel fuel n l) = l.
Proof.
  intros Hn. induction fuel as [|fuel IH]; intros l Hl.
  - destruct l; [reflexivity | simpl in Hl; lia].
  - destruct l as [|x l]; [reflexivity|].
    cbn [chunks_fuel concat]. rewrite IH.
    + apply take_drop.
    + rewrite length_drop. simpl in *. lia.
Qed.

Lemma py_chunks_concat {A} (size : Z) (l : list A) :
  (0 < size)%Z -> exists cs, py_chunks size l = Ok cs /\ concat cs = l.
Proof.
  intros Hs. unfold py_chunks.
  rewrite (proj2 (Z.eqb_neq size 0)) by lia.
  rewrite (proj2 (Z.ltb_ge size 0)) by lia.
  eexists. split; [reflexivity|]. apply chunks_concat; lia.
Qed.

Lemma foldl_chunks {A B} (f : B -> A -> B) (cs : list (list A)) (acc : B) :
  foldl (fun out chunk => foldl f out chunk) acc cs = foldl f acc (concat cs).
Proof.
  revert acc. induction cs as [|c cs IH]; intros acc; simpl; [reflexivity|].
  now rewrite IH, foldl_app.
Qed.

Definition fetch_step (tbl : gmap string row) (out : gmap string row) (v : value)
  : gmap string row :=
  match tbl !! py_str v with
  | Some r => <[py_str v := r]> out
  | None => out
  end.

Lemma fetch_fold_lookup tbl (vals : list value) (acc : gmap string row) (k : string) :
  (acc !! k = None \/ acc !! k = tbl !! k) ->
  foldl (fetch_step tbl) acc vals !! k
  = if decide (k ∈ map py_str vals) then tbl !! k else acc !! k.
Proof.
  revert acc. induction vals as [|v vals IH]; intros acc Hacc.
  - simpl. destruct (decide (k ∈ [])) as [H|_]; [inversion H | reflexivity].
  - cbn [foldl map]. rewrite IH.
    + destruct (decide (k ∈ map py_str vals)) as [Hin|Hnin].
      * rewrite decide_True by (now right). reflexivity.
      * unfold fetch_step. destruct (decide (k = py_str v)) as [->|Hne].
        -- rewrite decide_True by left.
           destruct (tbl !! py_str v) as [r|] eqn:Hr.
           ++ now rewrite lookup_insert_eq.
           ++ destruct Hacc as [->| ->]; reflexivity.
        -- rewrite decide_False by (intros [?|?]%elem_of_cons; contradiction).
           destruct (tbl !! py_str v); [now rewrite lookup_insert_ne | reflexivity].
    + unfold fetch_step. destruct (tbl !! py_str v) as [r|] eqn:Hr; [|exact Hacc].
      destruct (decide (k = py_str v)) as [->|Hne].
      * right. now rewrite lookup_insert_eq.
      * now rewrite lookup_insert_ne.
Qed.

Lemma fetch_lookup tbl (vals : list value) (n : Z) :
  (0 < n)%Z ->
  exists m,
    _fetch_existing_bulk tbl vals n = Ok m
    /\ forall k, m !! k = if decide (k ∈ map py_str vals) then tbl !! k else None.
Proof.
  intros Hn. unfold _fetch_existing_bulk.
  destruct vals as [|v vals].
  - eexists. split; [reflexivity|]. intros k. rewrite lookup_empty.
    destruct (decide (k ∈ map py_str [])) as [H|_]; [inversion H | reflexivity].
  - destruct (py_chunks_concat n (v :: vals) Hn) as (cs & -> & Hcs).
    eexists. split; [reflexivity|]. intros k.
    change (fun (out : gmap string row) (v0 : value) =>
              match tbl !! py_str v0 with
              | Some r => <[py_str v0 := r]> out
              | None => out
              end) with (fetch_step tbl).
    rewrite foldl_chunks, Hcs, fetch_fold_lookup by (left; apply lookup_empty).
    now rewrite lookup_empty.
Qed.


Lemma loop_stats_fold a emap (l : list row) ls :
  ls_stats (foldl (merge_row a emap) ls l)
  = foldl (fun s r => bump (classify a (emap !! row_key a r) (row_json a r)) s)
          (ls_stats ls) l.
Proof.
  revert ls. induction l as [|r l IH]; intros ls; simpl; [reflexivity|].
  now rewrite IH, merge_row_stats.
Qed.

(** The guard of the fingerprint backfill. *)
Definition backfills (a : merge_args) (e incoming : row) : bool :=
  backfill_hash a && negb (dry_run a) && truthy (hash_col a)
  && negb (is_none (hash_of a incoming))
  && (is_none (hash_of a e) || py_ne (hash_of a e) (hash_of a incoming)).

(** What one iteration does to the stored row under the key of its row. *)
Definition loop_fn (a : merge_args) (existing : option row) (incoming : row)
    (now : value) : row -> row :=
  match existing with
  | Some e =>
      if short_circuit a incoming e then id
      else if bool_decide (_diff_cols (Some e) incoming (business_cols a) = []) then
        if backfills a e incoming then backfill_row a (hash_of a incoming) now else id
      else id
  | None => id
  end.

Lemma alter_id_map (k : string) (m : gmap string row) : alter id k m = m.
Proof. apply alter_id. reflexivity. Qed.

Lemma merge_row_target a emap ls r :
  target (ls_store (merge_row a emap ls r))
  = alter (loop_fn a (emap !! row_key a r) (row_json a r) (db_now (ls_store ls)))
          (row_key a r) (target (ls_store ls))
  /\ db_now (ls_store (merge_row a emap ls r)) = db_now (ls_store ls).
Proof.
  pose proof (merge_row_cases a emap ls r) as H. cbv zeta in H.
  unfold loop_fn. destruct (emap !! row_key a r) as [e|].
  - destruct (short_circuit a (row_json a r) e).
    { rewrite H. simpl. now rewrite alter_id_map. }
    destruct (bool_decide (_diff_cols (Some e) (row_json a r) (business_cols a) = [])).
    { destruct H as (_ & _ & _ & _ & ->). fold (backfills a e (row_json a r)).
      destruct (backfills a e (row_json a r)); simpl; [tauto|].
      now rewrite alter_id_map. }
    destruct (bool_decide (conflict_cols_of a e (row_json a r) = [])).
    { destruct H as (_ & _ & -> & _). now rewrite alter_id_map. }
    destruct H as (_ & _ & _ & _ & ->).
    destruct (dry_run a); simpl; now rewrite alter_id_map.
  - destruct H as (_ & _ & -> & _). now rewrite alter_id_map.
Qed.

Lemma loop_now a emap (l : list row) ls :
  db_now (ls_store (foldl (merge_row a emap) ls l)) = db_now (ls_store ls).
Proof.
  revert ls. induction l as [|r l IH]; intros ls; simpl; [reflexivity|].
  rewrite IH. apply merge_row_target.
Qed.

Lemma loop_target_other a emap (l : list row) ls (k : string) :
  k ∉ map (row_key a) l ->
  target (ls_store (foldl (merge_row a emap) ls l)) !! k = target (ls_store ls) !! k.
Proof.
  revert ls. induction l as [|r l IH]; intros ls Hk; simpl; [reflexivity|].
  simpl in Hk. apply not_elem_of_cons in Hk as [Hne Hk].
  rewrite IH by exact Hk.
  destruct (merge_row_target a emap ls r) as [-> _].
  now rewrite lookup_alter_ne.
Qed.

Lemma loop_target_own a emap (l1 l2 : list row) (r : row) ls :
  row_key a r ∉ map (row_key a) l1 ->
  row_key a r ∉ map (row_key a) l2 ->
  target (ls_store (foldl (merge_row a emap) ls (l1 ++ r :: l2))) !! row_key a r
  = loop_fn a (emap !! row_key a r) (row_json a r) (db_now (ls_store ls))
      <$> target (ls_store ls) !! row_key a r.
Proof.
  intros H1 H2. rewrite foldl_app. cbn [foldl].
  rewrite loop_target_other by exact H2.
  destruct (merge_row_target a emap (foldl (merge_row a emap) ls l1) r) as [-> _].
  rewrite lookup_alter_eq, loop_now, loop_target_other by exact H1. reflexivity.
Qed.

(** The rows a real run stages for the batch write. *)
Definition staged (a : merge_args) (emap : gmap string row) (r : row) : bool :=
  match classify a (emap !! row_key a r) (row_json a r) with
  | Insert | Update => true
  | _ => false
  end.

Lemma loop_to_write a emap (l : list row) ls :
  dry_run a = false ->
  ls_to_write_params (foldl (merge_row a emap) ls l)
  = ls_to_write_params ls
    ++ map (fun r => write_params a (row_json a r))
           (filter (fun r => staged a emap r = true) l).
Proof.
  intros Hdry. revert ls. induction l as [|r l IH]; intros ls; simpl.
  - now rewrite app_nil_r.
  - rewrite IH, filter_cons.
    pose proof (merge_row_cases a emap ls r) as H. cbv zeta in H.
    rewrite Hdry in H. unfold staged, classify.
    destruct (emap !! row_key a r) as [e|].
    + destruct (short_circuit a (row_json a r) e).
      { rewrite H. rewrite decide_False by discriminate. reflexivity. }
      destruct (bool_decide (_diff_cols (Some e) (row_json a r) (business_cols a) = [])).
      { destruct H as (_ & _ & -> & _). rewrite decide_False by discriminate. reflexivity. }
      destruct (bool_decide (conflict_cols_of a e (row_json a r) = [])).
      * destruct H as (_ & _ & _ & -> & _). rewrite decide_True by reflexivity.
        simpl. now rewrite <- app_assoc.
      * destruct H as (_ & _ & -> & _). rewrite decide_False by discriminate. reflexivity.
    + destruct H as (_ & _ & _ & -> & _). rewrite decide_True by reflexivity.
      simpl. now rewrite <- app_assoc.
Qed.

(** The key under which a parameter set is upserted. *)
Definition params_key (a : merge_args) (p : row) : string :=
  py_str (dict_get p (pk_col a)).

Lemma upsert_other a now (ps : list row) (tbl : gmap string row) (k : string) :
  k ∉ map (params_key a) ps ->
  foldl (exec_upsert a now) tbl ps !! k = tbl !! k.
Proof.
  revert tbl. induction ps as [|p ps IH]; intros tbl Hk; simpl; [reflexivity|].
  simpl in Hk. apply not_elem_of_cons in Hk as [Hne Hk].
  rewrite IH by exact Hk. unfold exec_upsert. now rewrite lookup_insert_ne.
Qed.

Lemma upsert_own a now (p1 p2 : list row) (p : row) (tbl : gmap string row) :
  params_key a p ∉ map (params_key a) p1 ->
  params_key a p ∉ map (params_key a) p2 ->
  foldl (exec_upsert a now) tbl (p1 ++ p :: p2) !! params_key a p
  = Some (upsert_row a now p (tbl !! params_key a p)).
Proof.
  intros H1 H2. rewrite foldl_app. cbn [foldl].
  rewrite upsert_other by exact H2.
  unfold exec_upsert at 1. fold (params_key a p).
  rewrite lookup_insert_eq. now rewrite upsert_other.
Qed.


Lemma fold_set_get (src base : row) (cs : list string) (c : string) :
  dict_get (foldl (fun m c => <[c := dict_get src c]> m) base cs) c
  = if decide (c ∈ cs) then dict_get src c else dict_get base c.
Proof.
  revert base. induction cs as [|k cs IH]; intros base; simpl.
  - destruct (decide (c ∈ [])) as [H|_]; [inversion H | reflexivity].
  - rewrite IH. destruct (decide (c ∈ cs)) as [Hin|Hnin].
    + rewrite decide_True by (now right). reflexivity.
    + destruct (decide (c = k)) as [->|Hne].
      * rewrite decide_True by left. unfold dict_get. now rewrite lookup_insert_eq.
      * rewrite decide_False by (intros [?|?]%elem_of_cons; contradiction).
        unfold dict_get. now rewrite lookup_insert_ne.
Qed.

Lemma dict_get_insert_ne (m : row) (k c : string) (v : value) :
  k <> c -> dict_get (<[k := v]> m) c = dict_get m c.
Proof. intros H. unfold dict_get. now rewrite lookup_insert_ne. Qed.

(** The engine's own columns are not among the written columns. *)
Definition managed_apart (a : merge_args) : Prop :=
  (last_change_event_id ∉ cols a) /\ (last_updated_at ∉ cols a).

Lemma write_params_get a incoming (c : string) :
  c ∈ cols a -> managed_apart a ->
  dict_get (write_params a incoming) c = dict_get incoming c.
Proof.
  intros Hc [Hm _]. unfold write_params.
  rewrite dict_get_insert_ne by (intros <-; contradiction).
  rewrite fold_set_get. rewrite decide_True by exact Hc. reflexivity.
Qed.

Lemma business_in_cols a (c : string) :
  c ∈ business_cols a -> c ∈ filter (fun c => c <> pk_col a) (cols a).
Proof.
  unfold business_cols, cols. intros [(Hpk & _) Hc]%list_elem_of_filter.
  apply list_elem_of_filter. split; [exact Hpk|]. right.
  apply list_elem_of_filter. split; assumption.
Qed.

Lemma upsert_row_business a now incoming (old : option row) (c : string) :
  managed_apart a -> c ∈ business_cols a ->
  dict_get (upsert_row a now (write_params a incoming) old) c = dict_get incoming c.
Proof.
  intros Hm Hc. pose proof (business_in_cols a c Hc) as Hf.
  assert (Hcols : c ∈ cols a) by (apply list_elem_of_filter in Hf; tauto).
  destruct Hm as [Hm1 Hm2]. unfold upsert_row.
  rewrite !dict_get_insert_ne by (intros <-; contradiction).
  destruct old as [e|]; rewrite fold_set_get.
  - rewrite decide_True by exact Hf. now apply write_params_get.
  - rewrite decide_True by exact Hcols. now apply write_params_get.
Qed.

Lemma backfill_row_business a h now (e : row) (c : string) :
  managed_apart a -> truthy (hash_col a) = true -> c ∈ business_cols a ->
  dict_get (backfill_row a h now e) c = dict_get e c.
Proof.
  intros [Hm1 Hm2] Ht Hc. pose proof (business_in_cols a c Hc) as Hf.
  assert (Hcols : c ∈ cols a) by (apply list_elem_of_filter in Hf; tauto).
  unfold backfill_row.
  rewrite !dict_get_insert_ne; [reflexivity| | |].
  - destruct (hash_col a) as [hc|] eqn:Hh; [|discriminate]. simpl.
    intros <-. unfold business_cols in Hc.
    apply list_elem_of_filter in Hc as [(_ & Hne & _) _]. now apply Hne.
  - intros <-. contradiction.
  - intros <-. contradiction.
Qed.

(** How a row is classified when the same input is merged again. *)
Definition settle (v : verdict) : verdict :=
  match v with
  | Conflict => Conflict
  | _ => Unchanged
  end.

Lemma filter_ext_in {A} (P Q : A -> Prop)
    `{!forall x, Decision (P x)} `{!forall x, Decision (Q x)} (l : list A) :
  (forall x, x ∈ l -> (P x <-> Q x)) -> filter P l = filter Q l.
Proof.
  induction l as [|x l IH]; intros Hext; [reflexivity|].
  rewrite !filter_cons.
  rewrite IH by (intros y Hy; apply Hext; now right).
  destruct (decide (P x)) as [HP|HP].
  - rewrite decide_True by (apply Hext; [left | exact HP]). reflexivity.
  - rewrite decide_False; [reflexivity|].
    intros HQ. apply HP. apply Hext; [left | exact HQ].
Qed.

Lemma diff_cols_ext (e e' incoming : row) (cs : list string) :
  (forall c, c ∈ cs -> dict_get e' c = dict_get e c) ->
  _diff_cols (Some e') incoming cs = _diff_cols (Some e) incoming cs.
Proof.
  intros Hext. unfold _diff_cols. apply filter_ext_in.
  intros c Hc. now rewrite Hext.
Qed.

Lemma diff_cols_same (e incoming : row) (cs : list string) :
  (forall c, dict_get incoming c <> VNaN) ->
  (forall c, c ∈ cs -> dict_get e c = dict_get incoming c) ->
  _diff_cols (Some e) incoming cs = [].
Proof.
  intros Hnan Hsame. unfold _diff_cols. apply elem_of_nil_inv.
  intros c [Hne Hc]%list_elem_of_filter.
  rewrite (Hsame c Hc) in Hne. unfold py_ne in Hne.
  rewrite py_eq_refl in Hne by apply Hnan. discriminate.
Qed.

(** What the first run leaves under the key of a row, by the way the row
    was classified. *)
Definition left_by_first_run (a : merge_args) (incoming : row)
    (e0 e1 : option row) : Prop :=
  match classify a e0 incoming with
  | Insert | Update =>
      exists e', e1 = Some e'
                 /\ forall c, c ∈ business_cols a -> dict_get e' c = dict_get incoming c
  | Unchanged =>
      exists e e', e0 = Some e /\ e1 = Some e'
                   /\ (e' = e
                       \/ (short_circuit a incoming e = false
                           /\ forall c, c ∈ business_cols a -> dict_get e' c = dict_get e c))
  | Conflict => e1 = e0
  end.

Lemma classify_again a incoming (e0 e1 : option row) :
  (forall c, dict_get incoming c <> VNaN) ->
  left_by_first_run a incoming e0 e1 ->
  classify a e1 incoming = settle (classify a e0 incoming).
Proof.
  intros Hnan Hleft. unfold left_by_first_run in Hleft.
  destruct (classify a e0 incoming) eqn:Hv; simpl.
  - destruct Hleft as (e & e' & -> & -> & [->|[Hsc Hsame]]); [exact Hv|].
    unfold classify in *. rewrite Hsc in Hv.
    destruct (short_circuit a incoming e'); [reflexivity|].
    rewrite (diff_cols_ext e e' incoming _ Hsame).
    destruct (bool_decide (_diff_cols (Some e) incoming (business_cols a) = []));
      [reflexivity|].
    destruct (bool_decide (conflict_cols_of a e incoming = [])); discriminate.
  - now rewrite Hleft.
  - destruct Hleft as (e' & -> & Hsame). unfold classify.
    destruct (short_circuit a incoming e'); [reflexivity|].
    now rewrite (diff_cols_same e' incoming _ Hnan Hsame).
  - destruct Hleft as (e' & -> & Hsame). unfold classify.
    destruct (short_circuit a incoming e'); [reflexivity|].
    now rewrite (diff_cols_same e' incoming _ Hnan Hsame).
Qed.

(** Counting two runs over the same rows, the second classifying each row
    as the first settled it. *)
Lemma settled_counts {A} (v1 v2 : A -> verdict) (l : list A) :
  (forall r, r ∈ l -> v2 r = settle (v1 r)) ->
  forall sa sb,
    let s1 := foldl (fun s r => bump (v1 r) s) sa l in
    let s2 := foldl (fun s r => bump (v2 r) s) sb l in
    inserted s2 = inserted sb /\ updated s2 = updated sb
    /\ rejected s2 = rejected sb /\ rejected s1 = rejected sa
    /\ conflicted s2 + conflicted sa = conflicted s1 + conflicted sb
    /\ unchanged s2 + inserted sa + updated sa + unchanged sa
       = unchanged sb + inserted s1 + updated s1 + unchanged s1.
Proof.
  induction l as [|r l IH]; intros Hv sa sb; simpl; [lia|].
  specialize (IH (fun x Hx => Hv x (list_elem_of_further _ _ _ Hx))
                 (bump (v1 r) sa) (bump (v2 r) sb)).
  cbv zeta in IH. rewrite (Hv r (list_elem_of_here _ _)) in *.
  destruct (v1 r); simpl in *; lia.
Qed.


Lemma batch_write_target a ls :
  dry_run a = false -> (0 < write_chunk_size a)%Z ->
  exists st',
    batch_write a ls = Ok st'
    /\ target st'
       = foldl (exec_upsert a (db_now (ls_store ls))) (target (ls_store ls))
               (ls_to_write_params ls).
Proof.
  intros Hdry Hw. unfold batch_write. rewrite Hdry. cbn [negb andb].
  case_bool_decide as Hnil.
  - eexists. split; [reflexivity|]. now rewrite Hnil.
  - cbn [negb]. destruct (py_chunks_concat (write_chunk_size a) (ls_to_write_params ls) Hw)
      as (cs & -> & Hcs).
    eexists. split; [reflexivity|]. cbn [target].
    now rewrite foldl_chunks, Hcs.
Qed.

Lemma accepted_row_good a r : r ∈ accepted_rows a -> bad_pk a r = false.
Proof.
  intros Hr. pose proof (accepted_rows_good a) as Hgood.
  destruct (bad_pk a r) eqn:Hb; [|reflexivity].
  assert (existsb (bad_pk a) (accepted_rows a) = true); [|congruence].
  apply existsb_exists. exists r. split; [now apply list_elem_of_In | exact Hb].
Qed.

Lemma row_json_key a r :
  pk_col a ∈ columns (df a) -> bad_pk a r = false ->
  py_str (dict_get (row_json a r) (pk_col a)) = row_key a r.
Proof.
  intros Hpk Hgood. unfold row_json, row_key. rewrite row_to_json_get.
  rewrite decide_True by exact Hpk. unfold json_value.
  unfold bad_pk in Hgood. apply orb_false_elim in Hgood as [-> _]. reflexivity.
Qed.

Lemma staged_keys a emap (l : list row) :
  pk_col a ∈ columns (df a) -> managed_apart a ->
  (forall r, r ∈ l -> bad_pk a r = false) ->
  map (params_key a)
      (map (fun r => write_params a (row_json a r))
           (filter (fun r => staged a emap r = true) l))
  = map (row_key a) (filter (fun r => staged a emap r = true) l).
Proof.
  intros Hpk Hm Hgood. rewrite map_map. apply map_ext_in.
  intros r Hr. apply list_elem_of_In, list_elem_of_filter in Hr as [_ Hr].
  unfold params_key. rewrite write_params_get; [|left|exact Hm].
  apply row_json_key; [exact Hpk | now apply Hgood].
Qed.

Lemma not_in_filtered_keys a (P : row -> Prop) `{!forall r, Decision (P r)}
    (l : list row) (k : string) :
  k ∉ map (row_key a) l -> k ∉ map (row_key a) (filter P l).
Proof.
  intros Hk Hin. apply Hk. apply list_elem_of_fmap in Hin as (r & -> & Hr).
  apply list_elem_of_filter in Hr as [_ Hr]. now apply list_elem_of_fmap_2.
Qed.

(** The state a real run leaves under the key of each accepted row. *)
Lemma first_run_leaves a st0 st1 emap r :
  dry_run a = false -> managed_apart a ->
  pk_col a ∈ columns (df a) ->
  NoDup (map (row_key a) (accepted_rows a)) ->
  (forall k, emap !! k
             = if decide (k ∈ map py_str (pk_vals a)) then target st0 !! k else None) ->
  target st1
  = foldl (exec_upsert a (db_now st0))
          (target (ls_store (foldl (merge_row a emap) (loop0 a st0) (accepted_rows a))))
          (map (fun r => write_params a (row_json a r))
               (filter (fun r => staged a emap r = true) (accepted_rows a))) ->
  r ∈ accepted_rows a ->
  emap !! row_key a r = target st0 !! row_key a r
  /\ left_by_first_run a (row_json a r) (target st0 !! row_key a r)
       (target st1 !! row_key a r).
Proof.
  intros Hdry Hm Hpk Hnd Hemap Hst1 Hr.
  assert (Hekey : emap !! row_key a r = target st0 !! row_key a r).
  { rewrite Hemap. rewrite decide_True; [reflexivity|].
    unfold pk_vals. rewrite map_map. now apply (list_elem_of_fmap_2 (row_key a)). }
  split; [exact Hekey|].
  assert (Hgood : forall x, x ∈ accepted_rows a -> bad_pk a x = false)
    by apply accepted_row_good.
  apply list_elem_of_split in Hr as (l1 & l2 & Hsplit).
  rewrite Hsplit in Hnd, Hst1, Hgood.
  rewrite map_app in Hnd. cbn [map] in Hnd.
  apply NoDup_app in Hnd as (_ & Hl1 & Hnd2).
  apply NoDup_cons in Hnd2 as [Hl2 _].
  assert (Hk1 : row_key a r ∉ map (row_key a) l1).
  { intros Hin. apply (Hl1 _ Hin). left. }
  rewrite filter_app, filter_cons in Hst1.
  unfold left_by_first_run.
  destruct (staged a emap r) eqn:Hstaged.
  - rewrite decide_True in Hst1 by reflexivity.
    rewrite map_app in Hst1. cbn [map] in Hst1.
    assert (Hown : target st1 !! row_key a r
                   = Some (upsert_row a (db_now st0) (write_params a (row_json a r))
                             (target (ls_store (foldl (merge_row a emap) (loop0 a st0)
                                                  (l1 ++ r :: l2))) !! row_key a r))).
    { rewrite Hst1.
      assert (Hpkey : params_key a (write_params a (row_json a r)) = row_key a r).
      { unfold params_key. rewrite write_params_get; [|left|exact Hm].
        apply row_json_key; [exact Hpk|]. apply Hgood, elem_of_app. right. left. }
      rewrite <- Hpkey. apply upsert_own; rewrite Hpkey.
      - rewrite (staged_keys a emap l1 Hpk Hm)
          by (intros x Hx; apply Hgood, elem_of_app; now left).
        now apply not_in_filtered_keys.
      - rewrite (staged_keys a emap l2 Hpk Hm)
          by (intros x Hx; apply Hgood, elem_of_app; right; now right).
        now apply not_in_filtered_keys. }
    unfold staged in Hstaged. rewrite Hekey in Hstaged.
    destruct (classify a (target st0 !! row_key a r) (row_json a r));
      try discriminate;
      (eexists; split; [exact Hown|]; intros c Hc; now apply upsert_row_business).
  - rewrite decide_False in Hst1 by discriminate.
    assert (Hsame : target st1 !! row_key a r
                    = loop_fn a (emap !! row_key a r) (row_json a r) (db_now st0)
                        <$> target st0 !! row_key a r).
    { rewrite Hst1, upsert_other.
      - now rewrite loop_target_own.
      - rewrite <- filter_app.
        rewrite (staged_keys a emap (l1 ++ l2) Hpk Hm).
        + apply not_in_filtered_keys. rewrite map_app.
          apply not_elem_of_app. split; assumption.
        + intros x Hx. apply Hgood. apply elem_of_app in Hx as [Hx|Hx];
            apply elem_of_app; [now left | right; now right]. }
    unfold staged in Hstaged. rewrite Hekey in Hstaged, Hsame.
    unfold classify in *. unfold loop_fn in Hsame.
    destruct (target st0 !! row_key a r) as [e|]; [|discriminate].
    destruct (short_circuit a (row_json a r) e) eqn:Hsc.
    { exists e, e. rewrite Hsame. simpl. tauto. }
    destruct (bool_decide (_diff_cols (Some e) (row_json a r) (business_cols a) = [])).
    + destruct (backfills a e (row_json a r)) eqn:Hbf.
      * eexists e, _. split; [reflexivity|]. split; [exact Hsame|]. right.
        split; [exact Hsc|]. intros c Hc. apply backfill_row_business; try assumption.
        unfold backfills in Hbf. repeat (apply andb_prop in Hbf as [Hbf ?]). assumption.
      * exists e, e. rewrite Hsame. simpl. tauto.
    + destruct (bool_decide (conflict_cols_of a e (row_json a r) = []));
        [discriminate|]. rewrite Hsame. reflexivity.
Qed.


(** C3 (as amended).  Take a real run ([dry_run] false, positive chunk
    sizes, the engine's two columns not among the written columns) over a
    frame whose accepted rows have pairwise different keys.  If it
    returns, the same call on the store it leaves returns too, with zero
    inserted and zero updated rows: every row the first run inserted,
    updated or found unchanged is now unchanged, the same rows are
    rejected, and the rows the first run withheld as conflicts, which it
    did not write, are conflicts again. *)
Theorem C3_second_run_inserts_and_updates_nothing
    (a : merge_args) (st0 st1 : store) (s1 : MergeStats)
    (cs1 : list conflict_entry) (ds1 : diff_summary) :
  dry_run a = false ->
  (0 < fetch_chunk_size a)%Z ->
  (0 < write_chunk_size a)%Z ->
  managed_apart a ->
  NoDup (map (row_key a) (accepted_rows a)) ->
  merge_upsert a st0 = (Ok (s1, cs1, ds1), st1) ->
  exists s2 cs2 ds2 st2,
    merge_upsert a st1 = (Ok (s2, cs2, ds2), st2)
    /\ inserted s2 = 0 /\ updated s2 = 0
    /\ conflicted s2 = conflicted s1
    /\ rejected s2 = rejected s1
    /\ unchanged s2 = inserted s1 + updated s1 + unchanged s1.
Proof.
  intros Hdry Hf Hw Hm Hnd Hrun1.
  rewrite merge_upsert_unfold in Hrun1. rewrite merge_upsert_unfold.
  destruct (bool_decide (pk_col a ∈ columns (df a))) eqn:Hpk; [|discriminate].
  apply bool_decide_eq_true in Hpk. cbn [negb] in *.
  case_bool_decide as Hrows.
  { injection Hrun1 as <- <- <- <-. eexists _, _, _, _. split; [reflexivity|].
    unfold loop0. simpl. destruct (existsb (bad_pk a) (rows (df a))); simpl; lia. }
  destruct (fetch_lookup (target st0) (pk_vals a) (fetch_chunk_size a) Hf)
    as (emap1 & Hfetch1 & Hemap1).
  rewrite Hfetch1 in Hrun1. unfold finish in Hrun1.
  set (ls1 := foldl (merge_row a emap1) (loop0 a st0) (accepted_rows a)) in *.
  destruct (batch_write_target a ls1 Hdry Hw) as (st1' & Hbw1 & Ht1).
  rewrite Hbw1 in Hrun1. injection Hrun1 as <- <- <- <-.
  unfold ls1 in Ht1. rewrite loop_now, (loop_to_write a emap1 _ _ Hdry) in Ht1.
  cbn [loop0 ls_store ls_to_write_params app] in Ht1.
  destruct (fetch_lookup (target st1') (pk_vals a) (fetch_chunk_size a) Hf)
    as (emap2 & -> & Hemap2).
  unfold finish.
  set (ls2 := foldl (merge_row a emap2) (loop0 a st1') (accepted_rows a)).
  destruct (batch_write_target a ls2 Hdry Hw) as (st2 & -> & _).
  eexists _, _, _, _. split; [reflexivity|].
  unfold ls1, ls2. rewrite !loop_stats_fold.
  assert (Hsettle : forall r, r ∈ accepted_rows a ->
            classify a (emap2 !! row_key a r) (row_json a r)
            = settle (classify a (emap1 !! row_key a r) (row_json a r))).
  { intros r Hr.
    destruct (first_run_leaves a st0 st1' emap1 r Hdry Hm Hpk Hnd Hemap1 Ht1 Hr)
      as [Hk1 Hleft].
    rewrite Hk1, Hemap2. rewrite decide_True.
    - apply classify_again; [apply row_to_json_not_nan | exact Hleft].
    - unfold pk_vals. rewrite map_map. now apply (list_elem_of_fmap_2 (row_key a)). }
  pose proof (settled_counts _ _ (accepted_rows a) Hsettle
                (ls_stats (loop0 a st0)) (ls_stats (loop0 a st1'))) as Hcount.
  cbv zeta in Hcount.
  change (ls_stats (loop0 a st1')) with (ls_stats (loop0 a st0)) in *.
  assert (Hzero : inserted (ls_stats (loop0 a st0)) = 0
                  /\ updated (ls_stats (loop0 a st0)) = 0
                  /\ unchanged (ls_stats (loop0 a st0)) = 0
                  /\ conflicted (ls_stats (loop0 a st0)) = 0).
  { unfold loop0. simpl. destruct (existsb (bad_pk a) (rows (df a))); simpl; tauto. }
  lia.
Qed.

Definition reingested : merge_args :=
  sales_args [order 1 "2024-01-01" "ann" 120 "cccc"; order 2 "2024-02-03" "bob" 5 "dddd";
              <["order_id" := VNone]> stored_order]
             ["order_date"] false.

Lemma C3_reingestion_witness :
  exists s1 s2 st1,
    stats_of (merge_upsert reingested sales_store) = Some s1
    /\ (merge_upsert reingested sales_store).2 = st1
    /\ stats_of (merge_upsert reingested st1) = Some s2
    /\ inserted s1 + updated s1 = 2 /\ inserted s2 = 0 /\ updated s2 = 0.
Proof.
  destruct (merge_upsert reingested sales_store) as [[[[s1 cs1] ds1]|e] st1] eqn:Hrun.
  - destruct (C3_second_run_inserts_and_updates_nothing
                reingested sales_store st1 s1 cs1 ds1)
      as (s2 & cs2 & ds2 & st2 & Hrun2 & Hi & Hu & _); try reflexivity; try exact Hrun.
    + split; apply (bool_decide_unpack _); vm_compute; exact I.
    + apply (bool_decide_unpack _). vm_compute. exact I.
    + exists s1, s2, st1. rewrite Hrun2. simpl.
      repeat split; try assumption.
      vm_compute in Hrun. injection Hrun as <- _ _ _. reflexivity.
  - vm_compute in Hrun. discriminate Hrun.
Defined.

(** C3 as stated fails.  A row withheld as a conflict is not written, so
    the second run over the store the first run left reports the same
    conflict again instead of zero conflicts.  With two rows of the same
    key the last one wins the batch write and the first is an update on
    the second run; and a dry run writes nothing, so its repetition
    inserts again. *)
Lemma C3_second_run_is_not_all_unchanged :
  stats_of (merge_upsert
              (sales_args [order 1 "2024-02-02" "ann" 100 "bbbb"] ["order_date"] false)
              (merge_upsert
                 (sales_args [order 1 "2024-02-02" "ann" 100 "bbbb"] ["order_date"] false)
                 sales_store).2)
  = Some {| inserted := 0; updated := 0; unchanged := 0; conflicted := 1; rejected := 0 |}
  /\ stats_of (merge_upsert
                 (sales_args [order 5 "2024-02-02" "ann" 100 "bbbb";
                              order 5 "2024-02-02" "ann" 200 "cccc"] [] false)
                 (merge_upsert
                    (sales_args [order 5 "2024-02-02" "ann" 100 "bbbb";
                                 order 5 "2024-02-02" "ann" 200 "cccc"] [] false)
                    empty_store).2)
     = Some {| inserted := 0; updated := 1; unchanged := 1; conflicted := 0; rejected := 0 |}
  /\ stats_of (merge_upsert
                 (sales_args [order 5 "2024-02-02" "ann" 100 "bbbb"] [] true)
                 (merge_upsert
                    (sales_args [order 5 "2024-02-02" "ann" 100 "bbbb"] [] true)
                    empty_store).2)
     = Some {| inserted := 1; updated := 0; unchanged := 0; conflicted := 0; rejected := 0 |}.
Proof. repeat split; vm_compute; reflexivity. Qed.

End MergeProofs.

(** ** The state chain and rollback *)

Module StateProofs.
Import State.

Set Warnings "-clear-no-such-hyp".

(** *** The chain walk *)

Definition ids (path : list state_image) : list string := map state_image_id path.

(** The ids of the stored images, as a set. *)
Definition stored_ids (d : database) : gset string :=
  list_to_set (ids (default [] (etl_state_images d))).

Lemma get_state_image_some d cur img :
  _get_state_image d cur = Some img ->
  state_image_id img = cur /\ cur ∈ stored_ids d.
Proof.
  unfold _get_state_image, stored_ids.
  destruct (etl_state_images d) as [imgs|]; [|discriminate].
  intros [Hin Heq]%find_some. apply String.eqb_eq in Heq. split; [exact Heq|].
  simpl. apply elem_of_list_to_set, list_elem_of_In, in_map_iff.
  exists img. split; [exact Heq | exact Hin].
Qed.

Lemma stored_ids_size d : size (stored_ids d) <= images_count d.
Proof.
  unfold stored_ids, images_count, ids.
  set (l := default [] (etl_state_images d)).
  rewrite <- (length_map state_image_id l).
  unfold size, set_size. simpl.
  apply submseteq_length, NoDup_submseteq; [apply NoDup_elements|].
  intros x Hx%elem_of_elements. now apply elem_of_list_to_set in Hx.
Qed.

Lemma chain_loop_total fuel d target cur seen chain :
  size (stored_ids d ∖ seen) < fuel ->
  is_Some (chain_loop fuel d target cur seen chain).
Proof.
  revert cur seen chain. induction fuel as [|fuel IH]; intros cur seen chain Hsz; [lia|].
  simpl. destruct (nonempty cur); [|eexists; reflexivity].
  case_bool_decide as Hseen; [eexists; reflexivity|].
  destruct (_get_state_image d cur) as [img|] eqn:Hget; [|eexists; reflexivity].
  destruct (String.eqb (state_image_id img) target); [eexists; reflexivity|].
  apply IH. apply get_state_image_some in Hget as [_ Hin].
  assert (Hsub : stored_ids d ∖ ({[cur]} ∪ seen) ⊂ stored_ids d ∖ seen)
    by set_solver.
  apply subset_size in Hsub. lia.
Qed.

Lemma chain_loop_more_fuel k fuel d target cur seen chain r :
  chain_loop fuel d target cur seen chain = Some r ->
  chain_loop (fuel + k) d target cur seen chain = Some r.
Proof.
  revert cur seen chain. induction fuel as [|fuel IH]; intros cur seen chain; [discriminate|].
  simpl. destruct (nonempty cur); [|trivial].
  case_bool_decide; [trivial|].
  destruct (_get_state_image d cur) as [img|]; [|trivial].
  destruct (String.eqb (state_image_id img) target); [trivial|]. apply IH.
Qed.

Lemma collect_total d head target :
  is_Some (_collect_head_to_target_chain d head target).
Proof.
  apply chain_loop_total.
  pose proof (stored_ids_size d).
  assert (size (stored_ids d ∖ ∅) <= size (stored_ids d))
    by (apply subseteq_size; set_solver).
  lia.
Qed.

(** Whatever a walk with some fuel returns is what the bounded walk of
    the code returns. *)
Lemma collect_of_fuel fuel d head target r :
  chain_loop fuel d target head ∅ [] = Some r ->
  _collect_head_to_target_chain d head target = Some r.
Proof.
  intros Hr. destruct (collect_total d head target) as [r' Hr'].
  rewrite Hr'. unfold _collect_head_to_target_chain in Hr'.
  apply (chain_loop_more_fuel (S (images_count d))) in Hr.
  apply (chain_loop_more_fuel fuel) in Hr'.
  rewrite Nat.add_comm in Hr'. congruence.
Qed.

(** The images met by following parent links from the id [cur]. *)
Inductive parent_path (d : database) : string -> list state_image -> Prop :=
  | path_last cur img :
      nonempty cur = true ->
      _get_state_image d cur = Some img ->
      parent_path d cur [img]
  | path_step cur img rest :
      nonempty cur = true ->
      _get_state_image d cur = Some img ->
      parent_path d (default "" (parent_state_image_id img)) rest ->
      parent_path d cur (img :: rest).

(** Where the walk stands after the images of a path, none of them the
    target except possibly the last. *)
Lemma chain_loop_along d target path :
  forall cur seen chain,
    parent_path d cur path ->
    NoDup (ids path) ->
    (forall i, i ∈ ids path -> i ∉ seen) ->
    (forall img, img ∈ removelast path -> state_image_id img <> target) ->
    forall fuel,
      chain_loop (length path + fuel) d target cur seen chain
      = match last path with
        | None => None
        | Some l =>
            if String.eqb (state_image_id l) target then Some (Ok (chain ++ path))
            else chain_loop fuel d target (default "" (parent_state_image_id l))
                   (list_to_set (ids path) ∪ seen) (chain ++ path)
        end.
Proof.
  induction path as [|img path IH]; intros cur seen chain Hpath Hnd Hseen Hnot fuel.
  - inversion Hpath.
  - assert (Hcur : nonempty cur = true /\ _get_state_image d cur = Some img)
      by (inversion Hpath; subst; tauto).
    destruct Hcur as [Hne Hget].
    pose proof (get_state_image_some _ _ _ Hget) as [Hid _].
    cbn [length Nat.add chain_loop]. rewrite Hne, Hget.
    rewrite bool_decide_eq_false_2
      by (apply Hseen; rewrite <- Hid; simpl; left).
    destruct path as [|img' path'].
    + simpl. destruct (String.eqb (state_image_id img) target); [reflexivity|].
      rewrite Hid. do 2 f_equal. set_solver.
    + assert (Hnt : String.eqb (state_image_id img) target = false).
      { apply String.eqb_neq, Hnot. simpl. left. }
      rewrite Hnt.
      assert (Hrest : parent_path d (default "" (parent_state_image_id img)) (img' :: path'))
        by (inversion Hpath; subst; assumption).
      apply NoDup_cons in Hnd as [Hfresh Hnd].
      rewrite (IH _ ({[cur]} ∪ seen) (chain ++ [img]) Hrest Hnd).
      * rewrite last_cons_cons. destruct (last (img' :: path')) as [l|]; [|reflexivity].
        rewrite <- app_assoc. simpl.
        destruct (String.eqb (state_image_id l) target); [reflexivity|].
        f_equal. rewrite <- Hid. simpl. set_solver.
      * intros i Hi. apply not_elem_of_union. split; [|apply Hseen; now right].
        intros ->%elem_of_singleton. rewrite <- Hid in Hi. contradiction.
      * intros x Hx. apply Hnot. simpl. now right.
Qed.


Lemma removelast_last_not {A} (P : A -> Prop) (l : list A) :
  (forall x, x ∈ l -> P x) -> forall x, x ∈ removelast l -> P x.
Proof.
  intros H x Hx. apply H. apply list_elem_of_In.
  apply list_elem_of_In in Hx. revert Hx. clear.
  induction l as [|a [|b l] IH]; simpl; [tauto | tauto |].
  intros [->|Hx]; [now left | right; now apply IH].
Qed.

Lemma path_ids_nonempty d cur path :
  parent_path d cur path -> forall i, i ∈ ids path -> nonempty i = true.
Proof.
  induction 1 as [cur img Hne Hget | cur img rest Hne Hget _ IH]; intros i Hi.
  - apply get_state_image_some in Hget as [Hid _].
    simpl in Hi. apply elem_of_cons in Hi as [->|Hi]; [now rewrite Hid | inversion Hi].
  - apply get_state_image_some in Hget as [Hid _].
    simpl in Hi. apply elem_of_cons in Hi as [->|Hi]; [now rewrite Hid | now apply IH].
Qed.

Lemma path_last_some d cur path :
  parent_path d cur path -> exists l, last path = Some l.
Proof.
  induction 1 as [cur img | cur img rest _ _ Hrest [l Hl]].
  - now exists img.
  - exists l. destruct rest; [inversion Hrest|]. now rewrite last_cons_cons.
Qed.

(** The parent chain from HEAD through [path] reaches the target at its
    last image and nowhere before. *)
Definition reaches (target : string) (path : list state_image) : Prop :=
  (exists l, last path = Some l /\ state_image_id l = target)
  /\ forall img, img ∈ removelast path -> state_image_id img <> target.

(** A chain the walk returns is the parent chain from its start to the
    target. *)
Lemma chain_loop_sound fuel d target :
  forall cur seen chain0 chain,
    chain_loop fuel d target cur seen chain0 = Some (Ok chain) ->
    exists path,
      chain = chain0 ++ path /\ parent_path d cur path /\ reaches target path.
Proof.
  induction fuel as [|fuel IH]; intros cur seen chain0 chain Hrun; [discriminate|].
  simpl in Hrun. destruct (nonempty cur) eqn:Hne; [|discriminate].
  case_bool_decide; [discriminate|].
  destruct (_get_state_image d cur) as [img|] eqn:Hget; [|discriminate].
  destruct (String.eqb (state_image_id img) target) eqn:Hid.
  - injection Hrun as <-. exists [img]. split; [reflexivity|].
    split; [now apply path_last|]. split.
    + exists img. split; [reflexivity | now apply String.eqb_eq].
    + intros x Hx. inversion Hx.
  - apply IH in Hrun as (path & -> & Hpath & (l & Hl & Hlid) & Hnot).
    exists (img :: path). rewrite <- app_assoc. split; [reflexivity|].
    split; [now apply path_step|].
    destruct path as [|p path]; [inversion Hpath|]. split.
    + exists l. split; [now rewrite last_cons_cons | exact Hlid].
    + intros x Hx. cbn [removelast] in Hx.
      apply elem_of_cons in Hx as [->|Hx]; [now apply String.eqb_neq | now apply Hnot].
Qed.

Lemma collect_sound d head target chain :
  _collect_head_to_target_chain d head target = Some (Ok chain) ->
  parent_path d head chain /\ reaches target chain.
Proof.
  intros Hrun. apply chain_loop_sound in Hrun as (path & -> & Hpath & Hreach).
  now split.
Qed.

(** The last image of [path] is a root: it has no parent. *)
Definition ends_at_root (path : list state_image) : Prop :=
  exists l, last path = Some l /\ nonempty (default "" (parent_state_image_id l)) = false.

(** The parent of the last image of [path] is an image of [path]. *)
Definition loops_back (path : list state_image) : Prop :=
  exists l, last path = Some l
            /\ default "" (parent_state_image_id l) ∈ ids path.

(** C7.  The walk from HEAD to a target always ends within its iteration
    bound, whatever the stored images are.  Along a cycle-free parent
    chain from HEAD: if the chain reaches the target, the walk returns
    that chain, HEAD first and target last; if it ends at a root without
    meeting the target, the walk fails with the unreachable error; if
    the parent of its last image is an image already met, the walk fails
    with the corrupt-chain error.  The three failures are distinct, and
    [rollback_to_point_in_time] itself always ends and fails with the
    not-found error when the target change event has no state image. *)
Theorem C7_chain_walk_total_with_error_taxonomy (d : database) (head target : string) :
  is_Some (_collect_head_to_target_chain d head target)
  /\ (forall path,
        parent_path d head path -> NoDup (ids path) -> reaches target path ->
        _collect_head_to_target_chain d head target = Some (Ok path))
  /\ (forall path,
        parent_path d head path -> NoDup (ids path) ->
        (forall img, img ∈ path -> state_image_id img <> target) ->
        ends_at_root path ->
        _collect_head_to_target_chain d head target = Some (Raise unreachable_error))
  /\ (forall path,
        parent_path d head path -> NoDup (ids path) ->
        (forall img, img ∈ path -> state_image_id img <> target) ->
        loops_back path ->
        _collect_head_to_target_chain d head target = Some (Raise cycle_error))
  /\ (forall w actor,
        is_Some (rollback_to_point_in_time w target actor)
        /\ (etl_state_images (db w) <> None ->
            _get_head_state_image_id (db w) <> None ->
            _get_state_image_by_change_event (db w) target = None ->
            rollback_to_point_in_time w target actor
            = Some (Raise (no_state_image_error target), w)))
  /\ cycle_error <> unreachable_error
  /\ cycle_error <> no_state_image_error target
  /\ unreachable_error <> no_state_image_error target.
Proof.
  split; [apply collect_total|].
  split; [|split; [|split; [|split]]].
  - intros path Hpath Hnd [(l & Hl & Hid) Hnot].
    apply (collect_of_fuel (length path + 0)).
    rewrite (chain_loop_along d target path head ∅ [] Hpath Hnd); [|set_solver|exact Hnot].
    rewrite Hl. rewrite (proj2 (String.eqb_eq _ _) Hid). reflexivity.
  - intros path Hpath Hnd Hnot (l & Hl & Hroot).
    apply (collect_of_fuel (length path + 1)).
    rewrite (chain_loop_along d target path head ∅ [] Hpath Hnd);
      [|set_solver|now apply removelast_last_not].
    rewrite Hl.
    assert (Hin : l ∈ path) by (apply last_Some_elem_of, Hl).
    rewrite (proj2 (String.eqb_neq _ _) (Hnot l Hin)).
    simpl. now rewrite Hroot.
  - intros path Hpath Hnd Hnot (l & Hl & Hback).
    apply (collect_of_fuel (length path + 1)).
    rewrite (chain_loop_along d target path head ∅ [] Hpath Hnd);
      [|set_solver|now apply removelast_last_not].
    rewrite Hl.
    assert (Hin : l ∈ path) by (apply last_Some_elem_of, Hl).
    rewrite (proj2 (String.eqb_neq _ _) (Hnot l Hin)).
    simpl. rewrite (path_ids_nonempty d head path Hpath _ Hback).
    rewrite bool_decide_eq_true_2 by set_solver. reflexivity.
  - intros w actor. split.
    + unfold rollback_to_point_in_time.
      destruct (etl_state_images (db w)); [|eexists; reflexivity].
      destruct (_get_head_state_image_id (db w)) as [h|]; [|eexists; reflexivity].
      destruct (_get_state_image_by_change_event (db w) target) as [t|];
        [|eexists; reflexivity].
      destruct (collect_total (db w) h (state_image_id t)) as [[chain|e] ->];
        [|eexists; reflexivity].
      destruct (length chain =? 1)%nat; [eexists; reflexivity|].
      destruct (rollback_images w actor (removelast chain) [] 0) as [[[ids' n]|e] w'];
        eexists; reflexivity.
    + intros Himgs Hhead Hnone. unfold rollback_to_point_in_time.
      destruct (etl_state_images (db w)); [|contradiction].
      destruct (_get_head_state_image_id (db w)); [|contradiction].
      now rewrite Hnone.
  - repeat split; discriminate.
Qed.


(** *** Rollback of one change event *)

Lemma set_head_frame d sid :
  tables (set_head d sid) = tables d
  /\ etl_change_events (set_head d sid) = etl_change_events d
  /\ etl_row_changes (set_head d sid) = etl_row_changes d
  /\ etl_state_images (set_head d sid) = etl_state_images d.
Proof.
  unfold set_head. destruct (etl_state_pointer d); [simpl; tauto|].
  destruct (etl_state_head d); simpl; tauto.
Qed.

(** [create_state_image] touches the state tables only. *)
Lemma create_state_image_frame w eid notes :
  let w' := (create_state_image w eid notes).2 in
  tables (db w') = tables (db w)
  /\ etl_change_events (db w') = etl_change_events (db w)
  /\ etl_row_changes (db w') = etl_row_changes (db w).
Proof.
  unfold create_state_image.
  destruct (etl_state_images (db w)) as [imgs|]; [|simpl; tauto].
  destruct (_get_state_image_by_change_event (db w) eid) as [existing|].
  - cbn [snd with_db db].
    match goal with |- context [set_head ?d ?s] =>
      destruct (set_head_frame d s) as (-> & -> & -> & _) end.
    destruct (truthy notes && _); simpl; tauto.
  - cbn [uuid4].
    match goal with |- context [if ?b then _ else _] => destruct b end.
    + match goal with |- context [_get_state_image_by_change_event ?d ?e] =>
        destruct (_get_state_image_by_change_event d e) end;
        cbn [snd with_db db]; [|simpl; tauto].
      match goal with |- context [set_head ?d ?s] =>
        destruct (set_head_frame d s) as (-> & -> & -> & _) end.
      simpl; tauto.
    + match goal with |- context [_get_state_image_by_change_event ?d ?e] =>
        destruct (_get_state_image_by_change_event d e) end;
        cbn [snd with_db db]; [|simpl; tauto].
      match goal with |- context [set_head ?d ?s] =>
        destruct (set_head_frame d s) as (-> & -> & -> & _) end.
      simpl; tauto.
Qed.

(** The change event a rollback inserts, before it is finished. *)
Definition running_event (rollback_eid actor change_event_id : string) : change_event :=
  {| ce_change_event_id := rollback_eid; ce_actor := actor;
     ce_source_name := "rollback";
     ce_file_name := "rollback:" +:+ change_event_id;
     ce_status := "RUNNING";
     ce_notes := Some ("Rollback of " +:+ change_event_id);
     ce_finished := false |}.

Definition event_ids (evs : list change_event) : list string :=
  map ce_change_event_id evs.

Lemma finish_success_others eid (evs : list change_event) :
  eid ∉ event_ids evs -> map (finish_success eid) evs = evs.
Proof.
  induction evs as [|e evs IH]; intros Hnot; [reflexivity|]. simpl.
  rewrite IH by (intros H; apply Hnot; simpl; now right).
  unfold finish_success.
  destruct (String.eqb_spec (ce_change_event_id e) eid) as [Heq|_]; [|reflexivity].
  exfalso. apply Hnot. simpl. rewrite Heq. left.
Qed.

Lemma existsb_event_id eid (evs : list change_event) :
  change_event_id_taken evs eid = false <-> eid ∉ event_ids evs.
Proof.
  unfold change_event_id_taken. induction evs as [|e evs IH]; simpl.
  - split; [intros _ H; inversion H | reflexivity].
  - rewrite orb_false_iff, IH, String.eqb_neq. unfold event_ids. simpl.
    rewrite not_elem_of_cons. split; intros [H1 H2]; split; auto.
Qed.

(** *** The transaction of a rollback *)


















(** The tables a rollback of [eid] leaves when none of its statements
    fails. *)
Definition inverted (ts : gmap string table) (rcs : list RowChange) (eid : string)
  : transaction :=
  foldl invert_row_change (begin ts) (applied_row_changes rcs eid).

Lemma rollback_change_event_ok w eid actor evs rcs :
  etl_change_events (db w) = Some evs ->
  etl_row_changes (db w) = Some rcs ->
  uuids w (drawn w) ∉ event_ids evs ->
  tx_aborted (inverted (tables (db w)) rcs eid) = false ->
  exists w',
    rollback_change_event w eid actor
    = (Ok {| rb_status := "SUCCESS";
             rb_message := "Rollback complete. Created rollback change_event_id: "
                           +:+ uuids w (drawn w);
             rb_change_event_id := uuids w (drawn w) |}, w')
    /\ tables (db w') = tx_tables (inverted (tables (db w)) rcs eid)
    /\ etl_change_events (db w')
       = Some (evs ++ [finish_success (uuids w (drawn w))
                         (running_event (uuids w (drawn w)) actor eid)])
    /\ etl_row_changes (db w') = Some rcs.
Proof.
  intros Hevs Hrcs Hfresh Hrun. unfold rollback_change_event. cbn [uuid4 db].
  rewrite Hevs, Hrcs. rewrite (proj2 (existsb_event_id _ _) Hfresh).
  cbn [with_db db with_events tables]. unfold inverted in Hrun. rewrite Hrun.
  eexists. split; [reflexivity|].
  match goal with |- context [create_state_image ?x ?e ?n] =>
    destruct (create_state_image_frame x e n) as (-> & -> & ->) end.
  cbn [db with_db with_events with_tables tables etl_change_events etl_row_changes].
  rewrite Hevs, Hrcs. cbn [fmap option_fmap option_map].
  split; [reflexivity|]. split; [|reflexivity].
  f_equal. rewrite map_app. rewrite finish_success_others by exact Hfresh.
  reflexivity.
Qed.

(** When a statement of the inversion fails, the call raises and the
    transaction is undone: only the identifier has been drawn. *)
Lemma rollback_change_event_aborted w eid actor evs rcs :
  etl_change_events (db w) = Some evs ->
  etl_row_changes (db w) = Some rcs ->
  uuids w (drawn w) ∉ event_ids evs ->
  tx_aborted (inverted (tables (db w)) rcs eid) = true ->
  rollback_change_event w eid actor
  = (Raise in_failed_transaction_error, (uuid4 w).2).
Proof.
  intros Hevs Hrcs Hfresh Hrun. unfold rollback_change_event. cbn [uuid4 db].
  rewrite Hevs, Hrcs. rewrite (proj2 (existsb_event_id _ _) Hfresh).
  cbn [with_db db with_events tables]. unfold inverted in Hrun. now rewrite Hrun.
Qed.

Lemma applied_row_changes_elem rcs eid r :
  r ∈ applied_row_changes rcs eid
  <-> r ∈ rcs /\ rc_change_event_id r = eid /\ rc_applied r = true.
Proof.
  unfold applied_row_changes. split; intros H.
  - apply list_elem_of_In, in_rev, list_elem_of_In, list_elem_of_filter in H. tauto.
  - apply list_elem_of_In. apply -> in_rev.
    apply list_elem_of_In, list_elem_of_filter. tauto.
Qed.


(** *** Rollback to a point in time *)

Lemma rollback_change_event_inv w eid actor r w' :
  rollback_change_event w eid actor = (Ok r, w') ->
  exists evs rcs,
    etl_change_events (db w) = Some evs
    /\ etl_row_changes (db w) = Some rcs
    /\ (uuids w (drawn w) ∉ event_ids evs)
    /\ rb_change_event_id r = uuids w (drawn w)
    /\ etl_change_events (db w')
       = Some (evs ++ [finish_success (uuids w (drawn w))
                         (running_event (uuids w (drawn w)) actor eid)])
    /\ etl_row_changes (db w') = Some rcs.
Proof.
  intros Hrun.
  destruct (etl_change_events (db w)) as [evs|] eqn:Hevs;
    [|unfold rollback_change_event in Hrun; cbn [uuid4 db] in Hrun;
      rewrite Hevs in Hrun; discriminate].
  destruct (etl_row_changes (db w)) as [rcs|] eqn:Hrcs;
    [|unfold rollback_change_event in Hrun; cbn [uuid4 db] in Hrun;
      rewrite Hevs, Hrcs in Hrun; discriminate].
  destruct (change_event_id_taken evs (uuids w (drawn w))) eqn:Hex.
  { unfold rollback_change_event in Hrun. cbn [uuid4 db] in Hrun.
    rewrite Hevs, Hrcs, Hex in Hrun. discriminate. }
  apply existsb_event_id in Hex.
  destruct (tx_aborted (inverted (tables (db w)) rcs eid)) eqn:Hab.
  { rewrite (rollback_change_event_aborted w eid actor evs rcs Hevs Hrcs Hex Hab) in Hrun.
    discriminate. }
  destruct (rollback_change_event_ok w eid actor evs rcs Hevs Hrcs Hex Hab)
    as (w2 & Hok & _ & He & Hr).
  rewrite Hok in Hrun. injection Hrun as <- <-.
  exists evs, rcs. repeat split; assumption.
Qed.


















Import History.

Ltac by_computation := apply (bool_decide_unpack _); vm_compute; exact I.

Lemma C7_chain_walk_witness :
  _collect_head_to_target_chain history "s3" "s1" = Some (Ok [image3; image2; image1])
  /\ _collect_head_to_target_chain history "s2" "s3" = Some (Raise unreachable_error)
  /\ _collect_head_to_target_chain corrupt_history "s3" "s9" = Some (Raise cycle_error).
Proof.
  split; [|split].
  - destruct (C7_chain_walk_total_with_error_taxonomy history "s3" "s1")
      as (_ & Hfound & _).
    apply (Hfound [image3; image2; image1]).
    + apply path_step; [reflexivity | reflexivity |].
      apply path_step; [reflexivity | reflexivity |].
      apply path_last; reflexivity.
    + by_computation.
    + split.
      * exists image1. split; reflexivity.
      * intros img Himg. simpl in Himg.
        apply elem_of_cons in Himg as [->|Himg]; [discriminate|].
        apply elem_of_cons in Himg as [->|Himg]; [discriminate|].
        inversion Himg.
  - destruct (C7_chain_walk_total_with_error_taxonomy history "s2" "s3")
      as (_ & _ & Hroot & _).
    apply (Hroot [image2; image1]).
    + apply path_step; [reflexivity | reflexivity |].
      apply path_last; reflexivity.
    + by_computation.
    + intros img Himg.
      apply elem_of_cons in Himg as [->|Himg]; [discriminate|].
      apply elem_of_cons in Himg as [->|Himg]; [discriminate|].
      inversion Himg.
    + exists image1. split; reflexivity.
  - destruct (C7_chain_walk_total_with_error_taxonomy corrupt_history "s3" "s9")
      as (_ & _ & _ & Hcycle & _).
    apply (Hcycle [image3; image2; image "s1" "e1" (Some "s3")]).
    + apply path_step; [reflexivity | reflexivity |].
      apply path_step; [reflexivity | reflexivity |].
      apply path_last; reflexivity.
    + by_computation.
    + intros img Himg.
      apply elem_of_cons in Himg as [->|Himg]; [discriminate|].
      apply elem_of_cons in Himg as [->|Himg]; [discriminate|].
      apply elem_of_cons in Himg as [->|Himg]; [discriminate|].
      inversion Himg.
    + exists (image "s1" "e1" (Some "s3")). split; [reflexivity|]. by_computation.
Defined.


(** C9.  The rollback of an applied INSERT on the budget staging table,
    whose key column is [transaction_id]: the DELETE by the first
    candidate column, [order_id], fails and aborts the transaction, the
    DELETE by [transaction_id] that follows fails in the aborted
    transaction although the same statement deletes the row when it runs
    first, and the status UPDATE raises.  The call raises, the row is
    still stored, and no rollback event is recorded: the store is as
    before the call. *)
Theorem C9_rollback_of_budget_insert_raises :
  rollback_change_event budget_world "b1" "ops"
  = (Raise in_failed_transaction_error,
     {| db := budget_history; uuids := uuids budget_world; drawn := 1 |})
  /\ (t_rows <$> tables budget_history !! "stg_budget_transactions")
     = Some [budget_line "T7" 40]
  /\ (execute (fun ts => sql_delete ts "stg_budget_transactions" "order_id" "T7")
        (begin (tables budget_history))).1 = true
  /\ (t_rows <$> tx_tables
        (execute (fun ts => sql_delete ts "stg_budget_transactions" "transaction_id" "T7")
           (begin (tables budget_history))).2 !! "stg_budget_transactions")
     = Some [].
Proof. repeat split; vm_compute; reflexivity. Qed.

End StateProofs.

(** ** Invariants of the merge engine *)

Module MergeInvariants.
Import Merge Scenario MergeProofs.

Lemma row_to_json_lookup_fold (r : row) (cs : list string) (acc : row) (c : string) :
  foldl (fun out k => let v := cell r k in
                      if isna v then <[k := VNone]> out else <[k := v]> out)
        acc cs !! c
  = if decide (c ∈ cs) then Some (json_value (cell r c)) else acc !! c.
Proof.
  revert acc. induction cs as [|k cs IH]; intros acc; simpl.
  - destruct (decide (c ∈ [])) as [H|_]; [inversion H | reflexivity].
  - rewrite IH. destruct (decide (c ∈ cs)) as [Hin|Hout].
    + rewrite decide_True by (now right). reflexivity.
    + destruct (decide (c = k)) as [->|Hne].
      * rewrite decide_True by (now left). unfold json_value.
        destruct (isna (cell r k)); now rewrite lookup_insert_eq.
      * rewrite decide_False
          by (intros [?|?]%elem_of_cons; [now apply Hne | now apply Hout]).
        destruct (isna (cell r k)); now rewrite lookup_insert_ne.
Qed.

(** X1.  The dictionary [_row_to_json] builds from a row has exactly the
    columns of the frame as its keys; under each it holds the cell of the
    row, with [None] in place of a missing value, so no value of it is a
    NaN, and a column the row does not define reads [None]. *)
Theorem row_to_json_keys_and_values (cs : list string) (r : row) :
  dom (_row_to_json cs r) = list_to_set cs
  /\ (forall k, k ∈ cs ->
        _row_to_json cs r !! k
        = Some (if isna (cell r k) then VNone else cell r k))
  /\ (forall k, _row_to_json cs r !! k <> Some VNaN)
  /\ (forall k, r !! k = None -> k ∈ cs -> _row_to_json cs r !! k = Some VNone).
Proof.
  assert (Hget : forall k, _row_to_json cs r !! k
                           = if decide (k ∈ cs) then Some (json_value (cell r k)) else None).
  { intros k. unfold _row_to_json. rewrite row_to_json_lookup_fold.
    destruct (decide (k ∈ cs)); [reflexivity | apply lookup_empty]. }
  split; [|split; [|split]].
  - apply set_eq. intros k. rewrite elem_of_dom, Hget, elem_of_list_to_set.
    destruct (decide (k ∈ cs)); split; intros H; try assumption.
    + now eexists.
    + now destruct H.
    + contradiction.
  - intros k Hk. rewrite Hget, decide_True by assumption. reflexivity.
  - intros k. rewrite Hget. destruct (decide (k ∈ cs)); [|discriminate].
    unfold json_value. destruct (cell r k); simpl; discriminate.
  - intros k Hnone Hk. rewrite Hget, decide_True by assumption.
    unfold json_value, cell. now rewrite Hnone.
Qed.

Lemma push_sample_fold (limit : Z) (vs l0 : list string) :
  foldl (fun l v => _push_sample l v limit) l0 vs
  = l0 ++ take (Z.to_nat limit - length l0) vs.
Proof.
  revert l0. induction vs as [|v vs IH]; intros l0; simpl.
  - now rewrite take_nil, app_nil_r.
  - rewrite IH. unfold _push_sample.
    destruct (Z.ltb_spec (Z.of_nat (length l0)) limit) as [Hlt|Hge].
    + rewrite length_app. simpl.
      replace (Z.to_nat limit - length l0)%nat with (S (Z.to_nat limit - (length l0 + 1)))%nat by lia.
      simpl. now rewrite <- app_assoc.
    + replace (Z.to_nat limit - length l0)%nat with 0%nat by lia.
      simpl. reflexivity.
Qed.

(** X2.  Pushing values one after the other into an empty sample with
    [_push_sample] keeps the first [limit] of them, in the order they came;
    the sample never grows beyond [limit], and stays empty when [limit] is
    zero or negative. *)
Theorem push_sample_keeps_first_values (limit : Z) (vs : list string) :
  foldl (fun l v => _push_sample l v limit) [] vs = take (Z.to_nat limit) vs
  /\ (Z.of_nat (length (foldl (fun l v => _push_sample l v limit) [] vs)) <= Z.max 0 limit)%Z.
Proof.
  rewrite push_sample_fold. simpl. rewrite Nat.sub_0_r. split; [reflexivity|].
  rewrite length_take. lia.
Qed.

#[local] Instance verdict_eq_dec : EqDecision verdict.
Proof. solve_decision. Defined.

(** The verdict of the loop on a row of the frame. *)
Definition verdict_of (a : merge_args) (emap : gmap string row) (r : row) : verdict :=
  classify a (emap !! row_key a r) (row_json a r).

(** The changed business columns the loop computes for a row. *)
Definition changed_of (a : merge_args) (emap : gmap string row) (r : row) : list string :=
  _diff_cols (emap !! row_key a r) (row_json a r) (business_cols a).

Definition count_column (col : string) (m : gmap string nat) : gmap string nat :=
  <[col := S (default 0%nat (m !! col))]> m.

Definition sample_column (key : string) (limit : Z) (col : string)
    (m : gmap string (list string)) : gmap string (list string) :=
  <[col := _push_sample (default [] (m !! col)) key limit]> m.

Lemma by_column_fold_maps a key (cs : list string) ls :
  let ls' := foldl (fun ls col => with_by_column col key (diff_sample_size a) ls) ls cs in
  ls_by_counts ls' = foldl (fun m c => count_column c m) (ls_by_counts ls) cs
  /\ ls_by_samples ls'
     = foldl (fun m c => sample_column key (diff_sample_size a) c m) (ls_by_samples ls) cs.
Proof.
  cbv zeta. revert ls. induction cs as [|c cs IH]; intros ls; simpl; [split; reflexivity|].
  destruct (IH (with_by_column c key (diff_sample_size a) ls)) as [-> ->].
  split; reflexivity.
Qed.

(** What one iteration does to the diff summary and to the per-column
    accumulators, by the verdict on the row. *)
Lemma merge_row_diff a emap ls r :
  let key := row_key a r in
  let ls' := merge_row a emap ls r in
  let limit := diff_sample_size a in
  match verdict_of a emap r with
  | Unchanged =>
      (ls_diff ls' = ls_diff ls \/ ls_diff ls' = diff_add_backfilled (ls_diff ls))
      /\ ls_by_counts ls' = ls_by_counts ls /\ ls_by_samples ls' = ls_by_samples ls
  | Conflict =>
      ls_diff ls' = diff_set_conflicted (S (conflicted (ls_stats ls))) key limit (ls_diff ls)
      /\ ls_by_counts ls' = ls_by_counts ls /\ ls_by_samples ls' = ls_by_samples ls
  | Insert =>
      ls_diff ls' = diff_set_inserted (S (inserted (ls_stats ls))) key limit (ls_diff ls)
      /\ ls_by_counts ls' = ls_by_counts ls /\ ls_by_samples ls' = ls_by_samples ls
  | Update =>
      ls_diff ls' = diff_set_updated (S (updated (ls_stats ls))) key limit (ls_diff ls)
      /\ ls_by_counts ls'
         = foldl (fun m c => count_column c m) (ls_by_counts ls) (changed_of a emap r)
      /\ ls_by_samples ls'
         = foldl (fun m c => sample_column key limit c m) (ls_by_samples ls)
                 (changed_of a emap r)
  end.
Proof.
  intros key ls' limit. subst ls'. unfold verdict_of, changed_of, classify, merge_row.
  fold (row_key a r). fold key. fold (row_json a r).
  set (inc := row_json a r).
  destruct (emap !! key) as [e|] eqn:He.
  - rewrite guard_some. destruct (short_circuit a inc e) eqn:Hsc.
    { simpl. tauto. }
    cbn [is_present andb from_option].
    destruct (bool_decide (_diff_cols (Some e) inc (business_cols a) = [])) eqn:Hd.
    + match goal with |- context [if ?b then with_diff _ _ else _] => destruct b end;
        simpl; tauto.
    + fold (conflict_cols_of a e inc).
      destruct (bool_decide (conflict_cols_of a e inc = [])) eqn:Hc; cbn [negb].
      * pose proof (by_column_fold_fields a key
                      (_diff_cols (Some e) inc (business_cols a))
                      (with_diff (diff_set_updated
                                    (updated (ls_stats (with_stats add_updated ls)))
                                    key (diff_sample_size a))
                                 (with_stats add_updated ls))) as Hf.
        pose proof (by_column_fold_maps a key
                      (_diff_cols (Some e) inc (business_cols a))
                      (with_diff (diff_set_updated
                                    (updated (ls_stats (with_stats add_updated ls)))
                                    key (diff_sample_size a))
                                 (with_stats add_updated ls))) as Hm.
        cbv zeta in Hf, Hm. destruct Hf as (_ & _ & H3 & _). destruct Hm as [Hm1 Hm2].
        destruct (dry_run a);
          cbn [fst snd with_to_write ls_diff ls_by_counts ls_by_samples];
          rewrite H3, Hm1, Hm2; simpl; tauto.
      * destruct (dry_run a); simpl; tauto.
  - simpl. rewrite !andb_false_r. simpl.
    destruct (dry_run a); simpl; tauto.
Qed.

(** The counters of the summary follow the statistics. *)
Definition counts_agree (a : merge_args) (ls : loop_state) : Prop :=
  ds_table (ls_diff ls) = table a
  /\ inserted_count (ls_diff ls) = inserted (ls_stats ls)
  /\ updated_count (ls_diff ls) = updated (ls_stats ls)
  /\ conflicted_count (ls_diff ls) = conflicted (ls_stats ls)
  /\ rejected_count (ls_diff ls) = rejected (ls_stats ls)
  /\ length (ls_conflicts ls) = conflicted (ls_stats ls).

Lemma counts_agree_step a emap ls r :
  counts_agree a ls -> counts_agree a (merge_row a emap ls r).
Proof.
  intros (Ht & Hi & Hu & Hc & Hr & Hl). unfold counts_agree.
  pose proof (merge_row_diff a emap ls r) as Hd. cbv zeta in Hd.
  pose proof (merge_row_cases a emap ls r) as Hcs. cbv zeta in Hcs.
  rewrite merge_row_stats. unfold verdict_of, classify in *.
  destruct (emap !! row_key a r) as [e|].
  - destruct (short_circuit a (row_json a r) e).
    { rewrite Hcs. destruct Hd as ([Hd|Hd] & _); simpl; tauto. }
    destruct (bool_decide (_diff_cols (Some e) (row_json a r) (business_cols a) = [])).
    { destruct Hcs as (_ & -> & _). destruct Hd as ([->| ->] & _); simpl; tauto. }
    destruct (bool_decide (conflict_cols_of a e (row_json a r) = [])).
    + destruct Hcs as (_ & -> & _). destruct Hd as (-> & _). simpl. tauto.
    + destruct Hcs as (_ & -> & _). destruct Hd as (-> & _). simpl.
      rewrite length_app. simpl. repeat split; try assumption; lia.
  - destruct Hcs as (_ & -> & _). destruct Hd as (-> & _). simpl. tauto.
Qed.

Lemma counts_agree_loop a emap (l : list row) ls :
  counts_agree a ls -> counts_agree a (foldl (merge_row a emap) ls l).
Proof.
  revert ls. induction l as [|r l IH]; intros ls H; simpl; [exact H|].
  apply IH, counts_agree_step, H.
Qed.

Lemma counts_agree_start a st : counts_agree a (loop0 a st).
Proof.
  unfold counts_agree, loop0. cbn [ls_diff ls_stats ls_conflicts].
  destruct (existsb (bad_pk a) (rows (df a))); simpl; tauto.
Qed.

(** X3.  In what [merge_upsert] returns, the counters of the diff
    summary are the statistics: the inserted, updated, conflicted and
    rejected counts of the summary equal those of [MergeStats], the
    summary names the merged table, and the conflicts frame has one row
    per conflicted row. *)
Theorem diff_summary_counts_agree_with_stats
    (a : merge_args) (st st' : store) (s : MergeStats)
    (cs : list conflict_entry) (ds : diff_summary) :
  merge_upsert a st = (Ok (s, cs, ds), st') ->
  ds_table ds = table a
  /\ inserted_count ds = inserted s
  /\ updated_count ds = updated s
  /\ conflicted_count ds = conflicted s
  /\ rejected_count ds = rejected s
  /\ length cs = conflicted s.
Proof.
  rewrite merge_upsert_unfold.
  destruct (negb (bool_decide (pk_col a ∈ columns (df a)))); [discriminate|].
  destruct (bool_decide (accepted_rows a = [])).
  { intros [= <- <- <- _]. pose proof (counts_agree_start a st) as H.
    destruct H as (? & ? & ? & ? & ? & H6). repeat split; assumption. }
  destruct (_fetch_existing_bulk _ _ _) as [emap|]; [|discriminate].
  unfold finish. destruct (batch_write _ _); [|discriminate].
  intros [= <- <- <- _].
  apply (counts_agree_loop a emap (accepted_rows a)), counts_agree_start.
Qed.

(** The keys of the rows of [l] with verdict [v], in the order of the frame. *)
Definition keys_of (a : merge_args) (emap : gmap string row) (v : verdict)
    (l : list row) : list string :=
  map (row_key a) (filter (fun r => verdict_of a emap r = v) l).

Definition push_all (limit : Z) (l0 vs : list string) : list string :=
  foldl (fun l v => _push_sample l v limit) l0 vs.

Lemma keys_of_cons a emap v r l :
  keys_of a emap v (r :: l)
  = if decide (verdict_of a emap r = v) then row_key a r :: keys_of a emap v l
    else keys_of a emap v l.
Proof.
  unfold keys_of. rewrite filter_cons.
  destruct (decide (verdict_of a emap r = v)); reflexivity.
Qed.

Lemma loop_samples a emap (l : list row) ls :
  let ls' := foldl (merge_row a emap) ls l in
  let limit := diff_sample_size a in
  inserted_pks_sample (ls_diff ls')
  = push_all limit (inserted_pks_sample (ls_diff ls)) (keys_of a emap Insert l)
  /\ updated_pks_sample (ls_diff ls')
     = push_all limit (updated_pks_sample (ls_diff ls)) (keys_of a emap Update l)
  /\ conflicted_pks_sample (ls_diff ls')
     = push_all limit (conflicted_pks_sample (ls_diff ls)) (keys_of a emap Conflict l).
Proof.
  cbv zeta. revert ls. induction l as [|r l IH]; intros ls; [repeat split|].
  cbn [foldl]. destruct (IH (merge_row a emap ls r)) as (-> & -> & ->).
  rewrite !keys_of_cons.
  pose proof (merge_row_diff a emap ls r) as Hd. cbv zeta in Hd.
  destruct (verdict_of a emap r).
  - destruct Hd as ([-> | ->] & _); repeat split.
  - destruct Hd as (-> & _). repeat split.
  - destruct Hd as (-> & _). repeat split.
  - destruct Hd as (-> & _). repeat split.
Qed.

Lemma loop0_samples a st :
  inserted_pks_sample (ls_diff (loop0 a st)) = []
  /\ updated_pks_sample (ls_diff (loop0 a st)) = []
  /\ conflicted_pks_sample (ls_diff (loop0 a st)) = []
  /\ ls_by_counts (loop0 a st) = ∅ /\ ls_by_samples (loop0 a st) = ∅.
Proof.
  unfold loop0. cbn [ls_diff ls_by_counts ls_by_samples].
  destruct (existsb (bad_pk a) (rows (df a))); repeat split.
Qed.

Lemma push_all_take limit vs : push_all limit [] vs = take (Z.to_nat limit) vs.
Proof. unfold push_all. rewrite push_sample_fold. simpl. now rewrite Nat.sub_0_r. Qed.

Lemma loop_conflict_keys a emap (l : list row) ls :
  map c_pk (ls_conflicts (foldl (merge_row a emap) ls l))
  = map c_pk (ls_conflicts ls) ++ keys_of a emap Conflict l.
Proof.
  revert ls. induction l as [|r l IH]; intros ls; [simpl; now rewrite app_nil_r|].
  cbn [foldl]. rewrite IH, keys_of_cons.
  pose proof (merge_row_cases a emap ls r) as H. cbv zeta in H.
  unfold verdict_of, classify.
  destruct (emap !! row_key a r) as [e|].
  - destruct (short_circuit a (row_json a r) e); [now rewrite H|].
    destruct (bool_decide (_diff_cols (Some e) (row_json a r) (business_cols a) = []));
      [now destruct H as (_ & -> & _)|].
    destruct (bool_decide (conflict_cols_of a e (row_json a r) = [])).
    + now destruct H as (_ & -> & _).
    + destruct H as (_ & -> & _). rewrite map_app. simpl. now rewrite <- app_assoc.
  - now destruct H as (_ & -> & _).
Qed.

(** X4.  The three key samples of the diff summary are the keys of the
    first [diff_sample_size] rows the loop inserted, updated and withheld
    as conflicts, each in the order of the frame, where the verdict on a
    row is taken against the rows fetched before the loop; the keys of the
    conflicts frame are the keys of all the withheld rows, in that order. *)
Theorem pk_samples_are_first_keys_by_verdict
    (a : merge_args) (st st' : store) (emap : gmap string row) (s : MergeStats)
    (cs : list conflict_entry) (ds : diff_summary) :
  _fetch_existing_bulk (target st) (pk_vals a) (fetch_chunk_size a) = Ok emap ->
  merge_upsert a st = (Ok (s, cs, ds), st') ->
  let first_keys v := take (Z.to_nat (diff_sample_size a))
                           (keys_of a emap v (accepted_rows a)) in
  inserted_pks_sample ds = first_keys Insert
  /\ updated_pks_sample ds = first_keys Update
  /\ conflicted_pks_sample ds = first_keys Conflict
  /\ map c_pk cs = keys_of a emap Conflict (accepted_rows a).
Proof.
  intros Hfetch. rewrite merge_upsert_unfold.
  destruct (negb (bool_decide (pk_col a ∈ columns (df a)))); [discriminate|].
  case_bool_decide as Hacc.
  { intros [= <- <- <- _]. rewrite Hacc. cbv zeta. unfold keys_of.
    rewrite !filter_nil. cbn [map]. rewrite take_nil.
    destruct (existsb (bad_pk a) (rows (df a))); repeat split. }
  rewrite Hfetch. unfold finish. destruct (batch_write _ _); [|discriminate].
  intros [= <- <- <- _]. cbv zeta.
  destruct (loop_samples a emap (accepted_rows a) (loop0 a st)) as (H1 & H2 & H3).
  destruct (loop0_samples a st) as (E1 & E2 & E3 & _).
  rewrite E1 in H1. rewrite E2 in H2. rewrite E3 in H3.
  rewrite push_all_take in H1, H2, H3.
  split; [exact H1|]. split; [exact H2|]. split; [exact H3|].
  apply loop_conflict_keys.
Qed.

(** The (column, key) pairs of the updated rows of [l]: one pair for every
    changed business column of every row with verdict [Update], in the
    order the loop visits them. *)
Definition column_hits (a : merge_args) (emap : gmap string row) (l : list row)
  : list (string * string) :=
  flat_map (fun r => map (fun c => (c, row_key a r)) (changed_of a emap r))
           (filter (fun r => verdict_of a emap r = Update) l).

Definition hits_of (c : string) (hits : list (string * string)) : list string :=
  map snd (filter (fun h => h.1 = c) hits).

Definition count_hit (m : gmap string nat) (h : string * string) : gmap string nat :=
  count_column h.1 m.

Definition sample_hit (limit : Z) (m : gmap string (list string)) (h : string * string)
  : gmap string (list string) :=
  sample_column h.2 limit h.1 m.

Lemma count_hits_lookup (hits : list (string * string)) (m : gmap string nat) (c : string) :
  foldl count_hit m hits !! c
  = match hits_of c hits with
    | [] => m !! c
    | ks => Some (default 0 (m !! c) + length ks)
    end.
Proof.
  revert m. induction hits as [|[c' k] hits IH]; intros m; [reflexivity|].
  cbn [foldl]. rewrite IH. unfold hits_of. rewrite filter_cons. cbn [fst].
  change (count_hit m (c', k)) with (<[c' := S (default 0%nat (m !! c'))]> m).
  destruct (decide (c' = c)) as [->|Hne].
  - rewrite lookup_insert_eq. cbn [map snd default length].
    destruct (map snd (filter (fun h => h.1 = c) hits)); simpl; f_equal; lia.
  - rewrite lookup_insert_ne by exact Hne. reflexivity.
Qed.

Lemma sample_hits_lookup limit (hits : list (string * string))
    (m : gmap string (list string)) (c : string) :
  foldl (sample_hit limit) m hits !! c
  = match hits_of c hits with
    | [] => m !! c
    | ks => Some (push_all limit (default [] (m !! c)) ks)
    end.
Proof.
  revert m. induction hits as [|[c' k] hits IH]; intros m; [reflexivity|].
  cbn [foldl]. rewrite IH. unfold hits_of. rewrite filter_cons. cbn [fst].
  change (sample_hit limit m (c', k))
    with (<[c' := _push_sample (default [] (m !! c')) k limit]> m).
  destruct (decide (c' = c)) as [->|Hne].
  - rewrite lookup_insert_eq. cbn [map snd default].
    destruct (map snd (filter (fun h => h.1 = c) hits)); reflexivity.
  - rewrite lookup_insert_ne by exact Hne. reflexivity.
Qed.

Lemma fold_hits_of_row {M} (f : M -> string * string -> M) (key : string)
    (cs : list string) (m : M) :
  foldl (fun m c => f m (c, key)) m cs = foldl f m (map (fun c => (c, key)) cs).
Proof. revert m. induction cs as [|c cs IH]; intros m; simpl; [reflexivity | apply IH]. Qed.

Lemma loop_by_column a emap (l : list row) ls :
  let ls' := foldl (merge_row a emap) ls l in
  ls_by_counts ls' = foldl count_hit (ls_by_counts ls) (column_hits a emap l)
  /\ ls_by_samples ls'
     = foldl (sample_hit (diff_sample_size a)) (ls_by_samples ls) (column_hits a emap l).
Proof.
  cbv zeta. revert ls. induction l as [|r l IH]; intros ls; [split; reflexivity|].
  cbn [foldl]. destruct (IH (merge_row a emap ls r)) as [-> ->].
  unfold column_hits. rewrite filter_cons.
  pose proof (merge_row_diff a emap ls r) as Hd. cbv zeta in Hd.
  destruct (verdict_of a emap r) eqn:Hv.
  - rewrite decide_False by discriminate. destruct Hd as (_ & -> & ->). split; reflexivity.
  - rewrite decide_False by discriminate. destruct Hd as (_ & -> & ->). split; reflexivity.
  - rewrite decide_False by discriminate. destruct Hd as (_ & -> & ->). split; reflexivity.
  - rewrite decide_True by reflexivity. destruct Hd as (_ & -> & ->).
    cbn [flat_map]. rewrite !foldl_app.
    rewrite <- (fold_hits_of_row count_hit), <- (fold_hits_of_row (sample_hit _)).
    split; reflexivity.
Qed.

Lemma changed_of_business a emap r c :
  c ∈ changed_of a emap r -> c ∈ business_cols a.
Proof.
  unfold changed_of, _diff_cols. destruct (emap !! row_key a r); [|trivial].
  intros H. apply list_elem_of_filter in H. tauto.
Qed.

Lemma hits_of_business a emap (l : list row) (c : string) :
  hits_of c (column_hits a emap l) <> [] -> c ∈ business_cols a.
Proof.
  unfold hits_of, column_hits. intros Hne.
  destruct (filter _ _) as [|[c' k] hs] eqn:Hf; [contradiction|].
  assert (Hin : (c', k) ∈ filter (fun h : string * string => h.1 = c)
                  (flat_map (fun r => map (fun c => (c, row_key a r)) (changed_of a emap r))
                            (filter (fun r => verdict_of a emap r = Update) l))).
  { rewrite Hf. left. }
  apply list_elem_of_filter in Hin as [Hc Hin]. simpl in Hc. subst c'.
  apply list_elem_of_In, in_flat_map in Hin as (r & _ & Hin).
  apply in_map_iff in Hin as (c0 & [= -> _] & Hin).
  apply (changed_of_business a emap r). now apply list_elem_of_In.
Qed.

(** X5.  For a column [c], let [keys] be the keys of the updated rows
    among whose changed business columns [c] is, one per occurrence, in the
    order of the frame.  If there is none, the per-column counts and
    samples of the summary have no entry for [c].  Otherwise [c] is a
    business column (never the key, the hash or a metadata column), its
    count is the number of these keys and its sample their first
    [diff_sample_size]. *)
Theorem by_column_counts_and_samples
    (a : merge_args) (st st' : store) (emap : gmap string row) (s : MergeStats)
    (cs : list conflict_entry) (ds : diff_summary) (c : string) :
  _fetch_existing_bulk (target st) (pk_vals a) (fetch_chunk_size a) = Ok emap ->
  merge_upsert a st = (Ok (s, cs, ds), st') ->
  let keys := hits_of c (column_hits a emap (accepted_rows a)) in
  (keys = [] ->
   updated_by_column_counts ds !! c = None /\ updated_by_column_samples ds !! c = None)
  /\ (keys <> [] ->
      c ∈ business_cols a
      /\ updated_by_column_counts ds !! c = Some (length keys)
      /\ updated_by_column_samples ds !! c
         = Some (take (Z.to_nat (diff_sample_size a)) keys)).
Proof.
  intros Hfetch. rewrite merge_upsert_unfold.
  destruct (negb (bool_decide (pk_col a ∈ columns (df a)))); [discriminate|].
  case_bool_decide as Hacc.
  { intros [= <- <- <- _]. rewrite Hacc. cbv zeta. split; [|intros H; now contradiction H].
    intros _. unfold loop0. cbn [ls_diff].
    destruct (existsb (bad_pk a) (rows (df a))); split; apply lookup_empty. }
  rewrite Hfetch. unfold finish. destruct (batch_write _ _); [|discriminate].
  intros [= <- <- <- _]. cbv zeta.
  cbn [diff_set_by_column updated_by_column_counts updated_by_column_samples].
  destruct (loop_by_column a emap (accepted_rows a) (loop0 a st)) as [-> ->].
  destruct (loop0_samples a st) as (_ & _ & _ & -> & ->).
  rewrite count_hits_lookup, sample_hits_lookup, !lookup_empty.
  split.
  - intros ->. split; reflexivity.
  - intros Hne. split; [now apply (hits_of_business a emap (accepted_rows a))|].
    destruct (hits_of c (column_hits a emap (accepted_rows a))) as [|k ks];
      [contradiction|].
    cbn [default]. rewrite push_all_take. split; reflexivity.
Qed.

Definition zero_step_error : exn := ValueError "range() arg 3 must not be zero".

Lemma fetch_restricts (tbl : gmap string row) (pk_vals : list value) (n : Z) :
  (0 < n)%Z ->
  _fetch_existing_bulk tbl pk_vals n
  = Ok (filter (fun kv => kv.1 ∈ map py_str pk_vals) tbl).
Proof.
  intros Hn. destruct (fetch_lookup tbl pk_vals n Hn) as (m & -> & Hm).
  f_equal. apply map_eq. intros k. rewrite Hm. apply option_eq. intros r.
  rewrite map_lookup_filter_Some. cbn [fst].
  destruct (decide (k ∈ map py_str pk_vals)); split; try tauto; discriminate.
Qed.

(** X6.  [_fetch_existing_bulk] with a positive chunk size returns the
    stored rows whose key is the text of one of the requested values,
    whatever the chunk size is.  A negative chunk size fetches nothing, a
    zero one raises the [ValueError] of [range] unless there is no value
    to fetch, and an empty request returns the empty dictionary without
    looking at the chunk size. *)
Theorem fetch_existing_bulk_by_chunk_size
    (tbl : gmap string row) (pk_vals : list value) (n : Z) :
  ((0 < n)%Z ->
   _fetch_existing_bulk tbl pk_vals n
   = Ok (filter (fun kv => kv.1 ∈ map py_str pk_vals) tbl))
  /\ ((n < 0)%Z -> _fetch_existing_bulk tbl pk_vals n = Ok ∅)
  /\ (n = 0%Z -> pk_vals <> [] -> _fetch_existing_bulk tbl pk_vals n = Raise zero_step_error)
  /\ _fetch_existing_bulk tbl [] n = Ok ∅.
Proof.
  split; [|split; [|split]].
  - apply fetch_restricts.
  - intros Hn. unfold _fetch_existing_bulk, py_chunks.
    destruct pk_vals; [reflexivity|].
    rewrite (proj2 (Z.eqb_neq n 0)) by lia. rewrite (proj2 (Z.ltb_lt n 0)) by lia.
    reflexivity.
  - intros -> Hne. destruct pk_vals; [contradiction|]. reflexivity.
  - reflexivity.
Qed.

Definition with_chunk_sizes (f w : Z) (a : merge_args) : merge_args :=
  {| change_event_id := change_event_id a; table := table a; pk_col := pk_col a;
     df := df a; compare_cols := compare_cols a; protected_cols := protected_cols a;
     dry_run := dry_run a; hash_col := hash_col a; meta_cols := meta_cols a;
     diff_sample_size := diff_sample_size a; fetch_chunk_size := f;
     write_chunk_size := w; backfill_hash := backfill_hash a |}.

Lemma merge_row_chunk_sizes f w a : merge_row (with_chunk_sizes f w a) = merge_row a.
Proof. reflexivity. Qed.

Lemma exec_upsert_chunk_sizes f w a : exec_upsert (with_chunk_sizes f w a) = exec_upsert a.
Proof. reflexivity. Qed.

Lemma batch_write_positive a ls :
  (0 < write_chunk_size a)%Z ->
  batch_write a ls
  = if negb (dry_run a) && negb (bool_decide (ls_to_write_params ls = [])) then
      Ok {| target := foldl (exec_upsert a (db_now (ls_store ls)))
                            (target (ls_store ls)) (ls_to_write_params ls);
            etl_row_changes :=
              foldl (fun l e =>
                       log_row_change l (change_event_id a) (table a) (a_pk e) (a_op e)
                         (a_changed_columns e) (a_db_before e) (a_db_after e)
                         true false None)
                    (Merge.etl_row_changes (ls_store ls)) (ls_to_write_audit ls);
            db_now := db_now (ls_store ls) |}
    else Ok (ls_store ls).
Proof.
  intros Hw. unfold batch_write.
  destruct (negb (dry_run a) && negb (bool_decide (ls_to_write_params ls = [])));
    [|reflexivity].
  destruct (py_chunks_concat (write_chunk_size a) (ls_to_write_params ls) Hw)
    as (cs & -> & Hcs).
  now rewrite foldl_chunks, Hcs.
Qed.

(** X7.  What [merge_upsert] returns and the store it leaves do not
    depend on the fetch and write chunk sizes, as long as both are
    positive. *)
Theorem merge_upsert_independent_of_chunk_sizes
    (a : merge_args) (st : store) (f1 w1 f2 w2 : Z) :
  (0 < f1)%Z -> (0 < w1)%Z -> (0 < f2)%Z -> (0 < w2)%Z ->
  merge_upsert (with_chunk_sizes f1 w1 a) st = merge_upsert (with_chunk_sizes f2 w2 a) st.
Proof.
  intros Hf1 Hw1 Hf2 Hw2. rewrite !merge_upsert_unfold.
  change (pk_col (with_chunk_sizes f1 w1 a)) with (pk_col a).
  change (pk_col (with_chunk_sizes f2 w2 a)) with (pk_col a).
  change (df (with_chunk_sizes f1 w1 a)) with (df a).
  change (df (with_chunk_sizes f2 w2 a)) with (df a).
  change (accepted_rows (with_chunk_sizes f1 w1 a)) with (accepted_rows a).
  change (accepted_rows (with_chunk_sizes f2 w2 a)) with (accepted_rows a).
  change (loop0 (with_chunk_sizes f1 w1 a) st) with (loop0 a st).
  change (loop0 (with_chunk_sizes f2 w2 a) st) with (loop0 a st).
  change (pk_vals (with_chunk_sizes f1 w1 a)) with (pk_vals a).
  change (pk_vals (with_chunk_sizes f2 w2 a)) with (pk_vals a).
  destruct (negb (bool_decide (pk_col a ∈ columns (df a)))); [reflexivity|].
  destruct (bool_decide (accepted_rows a = [])); [reflexivity|].
  cbn [fetch_chunk_size with_chunk_sizes].
  rewrite !fetch_restricts by assumption.
  rewrite !merge_row_chunk_sizes. unfold finish.
  rewrite !batch_write_positive by assumption.
  reflexivity.
Qed.

Definition missing_pk_col_error : exn :=
  KeyError "merge_upsert: pk_col not found in df columns".

(** X8.  The early exits of [merge_upsert] leave the store alone.  When
    the key column is not a column of the frame it raises [KeyError].
    When every row is rejected, or the frame has no row, it returns
    without reading or writing the store: all rows are counted as rejected
    and nothing else is counted.  With a fetch chunk size of zero and a
    row to look up it raises the [ValueError] of [range] before anything
    is read or written. *)
Theorem merge_upsert_early_exits_leave_the_store
    (a : merge_args) (st : store) :
  ((pk_col a ∉ columns (df a)) -> merge_upsert a st = (Raise missing_pk_col_error, st))
  /\ (pk_col a ∈ columns (df a) -> accepted_rows a = [] ->
      exists s ds,
        merge_upsert a st = (Ok (s, [], ds), st)
        /\ rejected s = length (rows (df a))
        /\ inserted s = 0 /\ updated s = 0 /\ unchanged s = 0 /\ conflicted s = 0)
  /\ (pk_col a ∈ columns (df a) -> accepted_rows a <> [] ->
      fetch_chunk_size a = 0%Z ->
      merge_upsert a st = (Raise zero_step_error, st)).
Proof.
  rewrite merge_upsert_unfold. split; [|split].
  - intros Hpk. now rewrite (bool_decide_eq_false_2 _ Hpk).
  - intros Hpk Hacc. rewrite (bool_decide_eq_true_2 _ Hpk), (bool_decide_eq_true_2 _ Hacc).
    cbn [negb]. eexists _, _. split; [reflexivity|].
    pose proof (rejected_plus_accepted a) as Htot. rewrite Hacc in Htot.
    unfold total in Htot. cbn [length] in Htot.
    unfold loop0 in *. cbn [ls_stats] in *.
    destruct (existsb (bad_pk a) (rows (df a))); simpl in *; repeat split; lia.
  - intros Hpk Hacc Hz.
    rewrite (bool_decide_eq_true_2 _ Hpk), (bool_decide_eq_false_2 _ Hacc).
    cbn [negb]. unfold _fetch_existing_bulk, pk_vals, py_chunks. rewrite Hz.
    destruct (accepted_rows a); [contradiction | reflexivity].
Qed.

Lemma batch_write_ok_cases a ls st' :
  batch_write a ls = Ok st' ->
  db_now st' = db_now (ls_store ls)
  /\ (((dry_run a = true \/ ls_to_write_params ls = []) /\ st' = ls_store ls)
      \/ (dry_run a = false /\ ls_to_write_params ls <> []
          /\ Merge.etl_row_changes st'
             = foldl (fun l e =>
                        log_row_change l (change_event_id a) (table a) (a_pk e) (a_op e)
                          (a_changed_columns e) (a_db_before e) (a_db_after e)
                          true false None)
                     (Merge.etl_row_changes (ls_store ls)) (ls_to_write_audit ls)
          /\ (((0 < write_chunk_size a)%Z
               /\ target st'
                  = foldl (exec_upsert a (db_now (ls_store ls))) (target (ls_store ls))
                          (ls_to_write_params ls))
              \/ ((write_chunk_size a < 0)%Z /\ target st' = target (ls_store ls))))).
Proof.
  unfold batch_write.
  destruct (dry_run a) eqn:Hdry; cbn [negb andb].
  { intros [= <-]. split; [reflexivity|]. left. split; [now left | reflexivity]. }
  case_bool_decide as Hps; cbn [negb].
  { intros [= <-]. split; [reflexivity|]. left. split; [now right | reflexivity]. }
  destruct (Z.lt_trichotomy (write_chunk_size a) 0) as [Hn|[Hz|Hp]].
  - unfold py_chunks. rewrite (proj2 (Z.eqb_neq _ 0)) by lia.
    rewrite (proj2 (Z.ltb_lt _ 0)) by lia. intros [= <-]. split; [reflexivity|].
    right. repeat split; try assumption. right. split; [exact Hn | reflexivity].
  - unfold py_chunks. rewrite Hz. discriminate.
  - destruct (py_chunks_concat (write_chunk_size a) (ls_to_write_params ls) Hp)
      as (cs & -> & Hcs).
    intros [= <-]. split; [reflexivity|]. right. repeat split; try assumption.
    left. split; [exact Hp|]. cbn [target]. now rewrite foldl_chunks, Hcs.
Qed.

Lemma loop_to_write_dry a emap (l : list row) ls :
  dry_run a = true ->
  ls_to_write_params (foldl (merge_row a emap) ls l) = ls_to_write_params ls
  /\ ls_to_write_audit (foldl (merge_row a emap) ls l) = ls_to_write_audit ls.
Proof.
  intros Hdry. revert ls. induction l as [|r l IH]; intros ls; [split; reflexivity|].
  cbn [foldl]. destruct (IH (merge_row a emap ls r)) as [-> ->].
  pose proof (merge_row_cases a emap ls r) as H. cbv zeta in H. rewrite Hdry in H.
  destruct (emap !! row_key a r) as [e|].
  - destruct (short_circuit a (row_json a r) e); [rewrite H; split; reflexivity|].
    destruct (bool_decide (_diff_cols (Some e) (row_json a r) (business_cols a) = []));
      [tauto|].
    destruct (bool_decide (conflict_cols_of a e (row_json a r) = [])); tauto.
  - tauto.
Qed.

(** X9.  With the two audit columns not among the written columns, a
    call of [merge_upsert] leaves every stored row whose key is not the
    key of an accepted row of the frame exactly as it was, whether the
    call returns or raises. *)
Theorem merge_upsert_leaves_other_keys
    (a : merge_args) (st : store) (k : string) :
  managed_apart a ->
  k ∉ map (row_key a) (accepted_rows a) ->
  target (merge_upsert a st).2 !! k = target st !! k.
Proof.
  intros Hm Hk. rewrite merge_upsert_unfold.
  case_bool_decide as Hpk; cbn [negb]; [|reflexivity].
  case_bool_decide as Hacc; [reflexivity|].
  destruct (_fetch_existing_bulk _ _ _) as [emap|e0]; [|reflexivity].
  unfold finish.
  set (ls := foldl (merge_row a emap) (loop0 a st) (accepted_rows a)).
  assert (Hloop : target (ls_store ls) !! k = target st !! k).
  { subst ls. now rewrite loop_target_other. }
  destruct (batch_write a ls) as [st1|e1] eqn:Hw; [|exact Hloop].
  cbn [snd]. apply batch_write_ok_cases in Hw as [_ [[_ ->]|(Hdry & _ & _ & Ht)]];
    [exact Hloop|].
  destruct Ht as [[_ ->]|[_ ->]]; [|exact Hloop].
  rewrite upsert_other; [exact Hloop|].
  subst ls. rewrite loop_to_write by exact Hdry.
  change (ls_to_write_params (loop0 a st)) with (@nil row). rewrite app_nil_l.
  rewrite (staged_keys a emap (accepted_rows a) Hpk Hm)
    by (intros r Hr; now apply accepted_row_good).
  now apply not_in_filtered_keys.
Qed.

(** A column no statement of the engine assigns on a stored row: the key
    column or a column outside [cols], and not one of the two audit
    columns or the hash column. *)
Definition never_assigned (a : merge_args) (c : string) : Prop :=
  (c = pk_col a \/ c ∉ cols a)
  /\ c <> last_change_event_id /\ c <> last_updated_at /\ Some c <> hash_col a.

(** Every row of [t] is still stored in [t'], with the same value in the
    columns that are never assigned. *)
Definition rows_kept (a : merge_args) (t t' : gmap string row) : Prop :=
  forall k e, t !! k = Some e ->
    exists e', t' !! k = Some e'
               /\ forall c, never_assigned a c -> dict_get e' c = dict_get e c.

Lemma rows_kept_refl a t : rows_kept a t t.
Proof. intros k e He. exists e. split; [exact He | reflexivity]. Qed.

Lemma rows_kept_trans a t1 t2 t3 :
  rows_kept a t1 t2 -> rows_kept a t2 t3 -> rows_kept a t1 t3.
Proof.
  intros H12 H23 k e He. destruct (H12 k e He) as (e2 & He2 & Hc2).
  destruct (H23 k e2 He2) as (e3 & He3 & Hc3). exists e3. split; [exact He3|].
  intros c Hc. now rewrite Hc3, Hc2.
Qed.

Lemma loop_fn_keeps a existing incoming now (e : row) (c : string) :
  never_assigned a c ->
  dict_get (loop_fn a existing incoming now e) c = dict_get e c.
Proof.
  intros (_ & H1 & H2 & H3). unfold loop_fn.
  destruct existing as [e0|]; [|reflexivity].
  destruct (short_circuit a incoming e0); [reflexivity|].
  destruct (bool_decide _); [|reflexivity].
  destruct (backfills a e0 incoming) eqn:Hb; [|reflexivity].
  unfold backfills in Hb. apply andb_prop in Hb as [Hb _].
  apply andb_prop in Hb as [Hb _]. apply andb_prop in Hb as [_ Hb].
  unfold backfill_row. rewrite !dict_get_insert_ne; try congruence.
  destruct (hash_col a) as [h|]; [|discriminate]. simpl. congruence.
Qed.

Lemma upsert_row_keeps a now params (e : row) (c : string) :
  never_assigned a c ->
  dict_get (upsert_row a now params (Some e)) c = dict_get e c.
Proof.
  intros (Hc & H1 & H2 & _). unfold upsert_row.
  rewrite !dict_get_insert_ne by congruence.
  rewrite fold_set_get. rewrite decide_False; [reflexivity|].
  intros Hin. apply list_elem_of_filter in Hin as [Hne Hin]. destruct Hc; contradiction.
Qed.

Lemma exec_upsert_keeps a now t params : rows_kept a t (exec_upsert a now t params).
Proof.
  intros k e He. unfold exec_upsert.
  destruct (decide (py_str (dict_get params (pk_col a)) = k)) as [<-|Hne].
  - rewrite lookup_insert_eq, He. eexists. split; [reflexivity|].
    intros c Hc. now apply upsert_row_keeps.
  - rewrite lookup_insert_ne by exact Hne. exists e. split; [exact He | reflexivity].
Qed.

Lemma upserts_keep a now (ps : list row) t :
  rows_kept a t (foldl (exec_upsert a now) t ps).
Proof.
  revert t. induction ps as [|p ps IH]; intros t; [apply rows_kept_refl|].
  cbn [foldl]. eapply rows_kept_trans; [apply exec_upsert_keeps | apply IH].
Qed.

Lemma loop_keeps a emap (l : list row) ls :
  rows_kept a (target (ls_store ls)) (target (ls_store (foldl (merge_row a emap) ls l))).
Proof.
  revert ls. induction l as [|r l IH]; intros ls; [apply rows_kept_refl|].
  cbn [foldl]. eapply rows_kept_trans; [|apply IH].
  destruct (merge_row_target a emap ls r) as [-> _].
  intros k e He. destruct (decide (row_key a r = k)) as [<-|Hne].
  - rewrite lookup_alter_eq, He. eexists. split; [reflexivity|].
    intros c Hc. now apply loop_fn_keeps.
  - rewrite lookup_alter_ne by exact Hne. exists e. split; [exact He | reflexivity].
Qed.

(** X10.  [merge_upsert] never deletes a stored row, and on a stored
    row it never changes the key column or a column that is not among the
    written columns [cols], the two audit columns and the hash column
    apart. *)
Theorem merge_upsert_keeps_stored_rows
    (a : merge_args) (st : store) (k : string) (e : row) :
  target st !! k = Some e ->
  exists e',
    target (merge_upsert a st).2 !! k = Some e'
    /\ forall c, (c = pk_col a \/ c ∉ cols a) ->
                 c <> last_change_event_id -> c <> last_updated_at ->
                 Some c <> hash_col a ->
                 dict_get e' c = dict_get e c.
Proof.
  intros He.
  assert (Hkept : rows_kept a (target st) (target (merge_upsert a st).2)).
  { rewrite merge_upsert_unfold.
    destruct (negb _); [apply rows_kept_refl|].
    destruct (bool_decide _); [apply rows_kept_refl|].
    destruct (_fetch_existing_bulk _ _ _) as [emap|e0]; [|apply rows_kept_refl].
    unfold finish.
    pose proof (loop_keeps a emap (accepted_rows a) (loop0 a st)) as Hloop.
    change (target (ls_store (loop0 a st))) with (target st) in Hloop.
    destruct (batch_write a _) as [st1|e1] eqn:Hw; [|exact Hloop].
    cbn [snd]. apply batch_write_ok_cases in Hw as [_ [[_ ->]|(_ & _ & _ & Ht)]];
      [exact Hloop|].
    destruct Ht as [[_ ->]|[_ ->]]; [|exact Hloop].
    eapply rows_kept_trans; [exact Hloop | apply upserts_keep]. }
  destruct (Hkept k e He) as (e' & He' & Hc). exists e'. split; [exact He'|].
  intros c H1 H2 H3 H4. apply Hc. repeat split; assumption.
Qed.

(** The ledger entry of a row withheld as a conflict. *)
Definition conflict_change (a : merge_args) (emap : gmap string row) (r : row)
  : RowChange :=
  {| rc_change_event_id := change_event_id a; rc_table_name := table a;
     rc_pk := row_key a r; rc_op := "UPDATE"; rc_conflict := true;
     rc_conflict_reason :=
       Some ("Protected field mismatch: "
             +:+ py_join ", " (from_option (fun e => conflict_cols_of a e (row_json a r))
                                           [] (emap !! row_key a r)));
     rc_applied := false;
     rc_changed_columns := changed_of a emap r;
     rc_db_before := emap !! row_key a r;
     rc_db_after := row_json a r |}.

(** The ledger entry of a row that was written. *)
Definition applied_change (a : merge_args) (emap : gmap string row) (r : row)
  : RowChange :=
  {| rc_change_event_id := change_event_id a; rc_table_name := table a;
     rc_pk := row_key a r;
     rc_op := if emap !! row_key a r is Some _ then "UPDATE" else "INSERT";
     rc_conflict := false; rc_conflict_reason := None; rc_applied := true;
     rc_changed_columns := changed_of a emap r;
     rc_db_before := emap !! row_key a r;
     rc_db_after := row_json a r |}.

Definition audit_of (a : merge_args) (emap : gmap string row) (r : row) : audit_entry :=
  {| a_pk := row_key a r;
     a_op := if emap !! row_key a r is Some _ then "UPDATE" else "INSERT";
     a_changed_columns := changed_of a emap r;
     a_db_before := emap !! row_key a r;
     a_db_after := row_json a r |}.

Lemma loop_ledger a emap (l : list row) ls :
  dry_run a = false ->
  let ls' := foldl (merge_row a emap) ls l in
  Merge.etl_row_changes (ls_store ls')
  = Merge.etl_row_changes (ls_store ls)
    ++ map (conflict_change a emap) (filter (fun r => verdict_of a emap r = Conflict) l)
  /\ ls_to_write_audit ls'
     = ls_to_write_audit ls
       ++ map (audit_of a emap) (filter (fun r => staged a emap r = true) l).
Proof.
  intros Hdry. cbv zeta. revert ls.
  induction l as [|r l IH]; intros ls; [simpl; now rewrite !app_nil_r|].
  cbn [foldl]. destruct (IH (merge_row a emap ls r)) as [-> ->].
  rewrite !filter_cons.
  pose proof (merge_row_cases a emap ls r) as H. cbv zeta in H. rewrite Hdry in H.
  assert (Hcc : forall e, emap !! row_key a r = Some e ->
            conflict_change a emap r
            = {| rc_change_event_id := change_event_id a; rc_table_name := table a;
                 rc_pk := row_key a r; rc_op := "UPDATE"; rc_conflict := true;
                 rc_conflict_reason :=
                   Some ("Protected field mismatch: "
                         +:+ py_join ", " (conflict_cols_of a e (row_json a r)));
                 rc_applied := false;
                 rc_changed_columns := _diff_cols (Some e) (row_json a r) (business_cols a);
                 rc_db_before := Some e; rc_db_after := row_json a r |}).
  { intros e He. unfold conflict_change, changed_of. now rewrite He. }
  assert (Hau : forall e, emap !! row_key a r = Some e ->
            audit_of a emap r
            = {| a_pk := row_key a r; a_op := "UPDATE";
                 a_changed_columns := _diff_cols (Some e) (row_json a r) (business_cols a);
                 a_db_before := Some e; a_db_after := row_json a r |}).
  { intros e He. unfold audit_of, changed_of. now rewrite He. }
  assert (Hai : emap !! row_key a r = None ->
            audit_of a emap r
            = {| a_pk := row_key a r; a_op := "INSERT";
                 a_changed_columns := business_cols a;
                 a_db_before := None; a_db_after := row_json a r |}).
  { intros He. unfold audit_of, changed_of. now rewrite He. }
  unfold staged, verdict_of, classify.
  destruct (emap !! row_key a r) as [e|].
  - specialize (Hcc e eq_refl). specialize (Hau e eq_refl).
    destruct (short_circuit a (row_json a r) e).
    { rewrite H. rewrite !decide_False by discriminate. split; reflexivity. }
    destruct (bool_decide (_diff_cols (Some e) (row_json a r) (business_cols a) = [])).
    { destruct H as (_ & _ & _ & -> & Hs). rewrite !decide_False by discriminate.
      split; [|reflexivity]. rewrite Hs.
      match goal with |- context [if ?b then _ else _] => destruct b end; reflexivity. }
    destruct (bool_decide (conflict_cols_of a e (row_json a r) = [])).
    + destruct H as (_ & _ & -> & _ & ->).
      rewrite decide_False by discriminate. rewrite decide_True by reflexivity.
      cbn [map]. rewrite Hau, <- app_assoc. split; reflexivity.
    + destruct H as (_ & _ & _ & -> & ->).
      rewrite decide_True by reflexivity. rewrite decide_False by discriminate.
      cbn [map]. rewrite Hcc. unfold with_ledger, log_row_change.
      cbn [Merge.etl_row_changes]. rewrite <- app_assoc. split; reflexivity.
  - specialize (Hai eq_refl). destruct H as (_ & _ & -> & _ & ->).
    rewrite decide_False by discriminate. rewrite decide_True by reflexivity.
    cbn [map]. rewrite Hai, <- app_assoc. split; reflexivity.
Qed.

Lemma log_applied_fold a emap (rs : list row) (l0 : list RowChange) :
  foldl (fun l e =>
           log_row_change l (change_event_id a) (table a) (a_pk e) (a_op e)
             (a_changed_columns e) (a_db_before e) (a_db_after e) true false None)
        l0 (map (audit_of a emap) rs)
  = l0 ++ map (applied_change a emap) rs.
Proof.
  revert l0. induction rs as [|r rs IH]; intros l0; [simpl; now rewrite app_nil_r|].
  cbn [map foldl]. rewrite IH. unfold log_row_change.
  rewrite <- app_assoc. reflexivity.
Qed.

Lemma bump_counts {A} (v : A -> verdict) (l : list A) (s : MergeStats) :
  let s' := foldl (fun s r => bump (v r) s) s l in
  inserted s' = inserted s + length (filter (fun r => v r = Insert) l)
  /\ updated s' = updated s + length (filter (fun r => v r = Update) l)
  /\ conflicted s' = conflicted s + length (filter (fun r => v r = Conflict) l)
  /\ unchanged s' = unchanged s + length (filter (fun r => v r = Unchanged) l).
Proof.
  cbv zeta. revert s. induction l as [|r l IH]; intros s; [simpl; lia|].
  cbn [foldl]. destruct (IH (bump (v r) s)) as (-> & -> & -> & ->).
  rewrite !filter_cons.
  destruct (v r); simpl; lia.
Qed.

Lemma staged_split a emap (l : list row) :
  length (filter (fun r => staged a emap r = true) l)
  = length (filter (fun r => verdict_of a emap r = Insert) l)
    + length (filter (fun r => verdict_of a emap r = Update) l).
Proof.
  induction l as [|r l IH]; [reflexivity|].
  rewrite !filter_cons. unfold staged, verdict_of in *.
  destruct (classify a (emap !! row_key a r) (row_json a r)); simpl; lia.
Qed.

Lemma loop0_counts a st :
  inserted (ls_stats (loop0 a st)) = 0 /\ updated (ls_stats (loop0 a st)) = 0
  /\ conflicted (ls_stats (loop0 a st)) = 0 /\ unchanged (ls_stats (loop0 a st)) = 0.
Proof.
  unfold loop0. cbn [ls_stats]. destruct (existsb _ _); repeat split.
Qed.

(** X11.  A real run of [merge_upsert] that returns only appends to the
    row-change ledger: first one entry per row withheld as a conflict
    (not applied, flagged as a conflict), then one applied entry per row
    written, each in the order of the frame and under the change event
    and table of the call.  Unchanged and rejected rows leave no entry:
    the number of conflict entries is the conflicted count and the number
    of applied entries is the inserted count plus the updated count. *)
Theorem merge_upsert_appends_to_ledger
    (a : merge_args) (st st' : store) (emap : gmap string row) (s : MergeStats)
    (cs : list conflict_entry) (ds : diff_summary) :
  dry_run a = false ->
  _fetch_existing_bulk (target st) (pk_vals a) (fetch_chunk_size a) = Ok emap ->
  merge_upsert a st = (Ok (s, cs, ds), st') ->
  let withheld := filter (fun r => verdict_of a emap r = Conflict) (accepted_rows a) in
  let written := filter (fun r => staged a emap r = true) (accepted_rows a) in
  Merge.etl_row_changes st'
  = Merge.etl_row_changes st
    ++ map (conflict_change a emap) withheld ++ map (applied_change a emap) written
  /\ length withheld = conflicted s
  /\ length written = inserted s + updated s.
Proof.
  intros Hdry Hfetch. rewrite merge_upsert_unfold.
  destruct (negb (bool_decide (pk_col a ∈ columns (df a)))); [discriminate|].
  case_bool_decide as Hacc.
  { intros [= <- _ _ <-]. rewrite Hacc. cbv zeta. rewrite !filter_nil. cbn [map length].
    rewrite !app_nil_r. destruct (existsb (bad_pk a) (rows (df a))); repeat split. }
  rewrite Hfetch. unfold finish.
  set (ls := foldl (merge_row a emap) (loop0 a st) (accepted_rows a)).
  destruct (batch_write a ls) as [st1|e1] eqn:Hw; [|discriminate].
  intros [= <- _ _ <-]. cbv zeta.
  destruct (loop_ledger a emap (accepted_rows a) (loop0 a st) Hdry) as [Hl Ha].
  fold ls in Hl, Ha. change (ls_store (loop0 a st)) with st in Hl.
  change (ls_to_write_audit (loop0 a st)) with (@nil audit_entry) in Ha.
  rewrite app_nil_l in Ha.
  assert (Hps : ls_to_write_params ls
                = map (fun r => write_params a (row_json a r))
                      (filter (fun r => staged a emap r = true) (accepted_rows a))).
  { subst ls. rewrite loop_to_write by exact Hdry. reflexivity. }
  split.
  - apply batch_write_ok_cases in Hw as [_ [[[Hd|Hnil] ->]|(_ & _ & -> & _)]].
    + congruence.
    + rewrite Hl. rewrite Hps in Hnil. apply map_eq_nil in Hnil. rewrite Hnil.
      cbn [map]. now rewrite app_nil_r.
    + rewrite Ha, log_applied_fold, Hl, <- app_assoc. reflexivity.
  - subst ls. rewrite loop_stats_fold.
    pose proof (bump_counts (verdict_of a emap) (accepted_rows a) (ls_stats (loop0 a st)))
      as Hb. cbv zeta in Hb. rewrite staged_split. unfold verdict_of in *.
    destruct Hb as (-> & -> & -> & _).
    destruct (loop0_counts a st) as (-> & -> & -> & _).
    split; reflexivity.
Qed.

Lemma upsert_row_written a now incoming (old : option row) (c : string) :
  managed_apart a -> c ∈ cols a -> c <> pk_col a ->
  dict_get (upsert_row a now (write_params a incoming) old) c = dict_get incoming c.
Proof.
  intros Hm Hc Hne. destruct Hm as [Hm1 Hm2]. unfold upsert_row.
  rewrite !dict_get_insert_ne by (intros <-; contradiction).
  destruct old as [e|]; rewrite fold_set_get.
  - rewrite decide_True by (apply list_elem_of_filter; split; assumption).
    now apply write_params_get.
  - rewrite decide_True by exact Hc. now apply write_params_get.
Qed.

Lemma upsert_row_stamps a now incoming (old : option row) :
  dict_get (upsert_row a now (write_params a incoming) old) last_updated_at = now
  /\ dict_get (upsert_row a now (write_params a incoming) old) last_change_event_id
     = VStr (change_event_id a).
Proof.
  unfold upsert_row, write_params, dict_get. rewrite lookup_insert_eq. split; [reflexivity|].
  rewrite lookup_insert_ne by discriminate. now rewrite !lookup_insert_eq.
Qed.

Lemma upsert_row_new_key a now incoming :
  managed_apart a ->
  dict_get (upsert_row a now (write_params a incoming) None) (pk_col a)
  = dict_get incoming (pk_col a).
Proof.
  intros Hm. pose proof Hm as [Hm1 Hm2]. unfold upsert_row.
  assert (Hpk : pk_col a ∈ cols a) by (unfold cols; left).
  rewrite !dict_get_insert_ne by (intros Heq; rewrite Heq in *; contradiction).
  rewrite fold_set_get. rewrite decide_True by exact Hpk. now apply write_params_get.
Qed.

(** X12.  After a real run with positive chunk sizes over a frame whose
    accepted rows have pairwise different keys, a row the run inserted or
    updated is stored under its key with, in every written column other
    than the key, the value of the incoming row, stamped with the change
    event of the call and the database time; an inserted row also carries
    the incoming key.  A row withheld as a conflict is stored as before
    the run. *)
Theorem written_rows_read_back_and_conflicts_stay
    (a : merge_args) (st0 st1 : store) (emap : gmap string row) (s : MergeStats)
    (cs : list conflict_entry) (ds : diff_summary) (r : row) :
  dry_run a = false ->
  (0 < fetch_chunk_size a)%Z ->
  (0 < write_chunk_size a)%Z ->
  managed_apart a ->
  NoDup (map (row_key a) (accepted_rows a)) ->
  _fetch_existing_bulk (target st0) (pk_vals a) (fetch_chunk_size a) = Ok emap ->
  merge_upsert a st0 = (Ok (s, cs, ds), st1) ->
  r ∈ accepted_rows a ->
  match verdict_of a emap r with
  | Insert | Update =>
      exists e',
        target st1 !! row_key a r = Some e'
        /\ (forall c, c ∈ cols a -> c <> pk_col a ->
                      dict_get e' c = dict_get (row_json a r) c)
        /\ dict_get e' last_change_event_id = VStr (change_event_id a)
        /\ dict_get e' last_updated_at = db_now st0
        /\ (verdict_of a emap r = Insert ->
            dict_get e' (pk_col a) = dict_get (row_json a r) (pk_col a))
  | Conflict => target st1 !! row_key a r = target st0 !! row_key a r
  | Unchanged => True
  end.
Proof.
  intros Hdry Hf Hw Hm Hnd Hfetch Hrun Hr.
  rewrite merge_upsert_unfold in Hrun.
  destruct (bool_decide (pk_col a ∈ columns (df a))) eqn:Hpk; [|discriminate].
  apply bool_decide_eq_true in Hpk. cbn [negb] in Hrun.
  case_bool_decide as Hrows.
  { rewrite Hrows in Hr. inversion Hr. }
  rewrite Hfetch in Hrun. unfold finish in Hrun.
  set (ls1 := foldl (merge_row a emap) (loop0 a st0) (accepted_rows a)) in *.
  destruct (batch_write_target a ls1 Hdry Hw) as (st1' & Hbw1 & Ht1).
  rewrite Hbw1 in Hrun. injection Hrun as _ _ _ <-.
  unfold ls1 in Ht1. rewrite loop_now, (loop_to_write a emap _ _ Hdry) in Ht1.
  cbn [loop0 ls_store ls_to_write_params app] in Ht1.
  assert (Hekey : emap !! row_key a r = target st0 !! row_key a r).
  { destruct (fetch_lookup (target st0) (pk_vals a) (fetch_chunk_size a) Hf)
      as (m & Hm' & Hlook).
    rewrite Hfetch in Hm'. injection Hm' as <-.
    rewrite Hlook. rewrite decide_True; [reflexivity|].
    unfold pk_vals. rewrite map_map. now apply (list_elem_of_fmap_2 (row_key a)). }
  assert (Hgood : forall x, x ∈ accepted_rows a -> bad_pk a x = false)
    by apply accepted_row_good.
  apply list_elem_of_split in Hr as (l1 & l2 & Hsplit).
  rewrite Hsplit in Hnd, Ht1, Hgood.
  rewrite map_app in Hnd. cbn [map] in Hnd.
  apply NoDup_app in Hnd as (_ & Hl1 & Hnd2).
  apply NoDup_cons in Hnd2 as [Hl2 _].
  assert (Hk1 : row_key a r ∉ map (row_key a) l1).
  { intros Hin. apply (Hl1 _ Hin). left. }
  rewrite filter_app, filter_cons in Ht1.
  assert (Hstaged : staged a emap r = true ->
            exists old,
              target st1' !! row_key a r
              = Some (upsert_row a (db_now st0) (write_params a (row_json a r)) old)
              /\ (target st0 !! row_key a r = None -> old = None)).
  { intros Hst. rewrite Hst in Ht1. rewrite decide_True in Ht1 by reflexivity.
    rewrite map_app in Ht1. cbn [map] in Ht1.
    assert (Hpkey : params_key a (write_params a (row_json a r)) = row_key a r).
    { unfold params_key. rewrite write_params_get; [|left|exact Hm].
      apply row_json_key; [exact Hpk|]. apply Hgood, elem_of_app. right. left. }
    eexists. split.
    - rewrite Ht1. rewrite <- Hpkey. apply upsert_own; rewrite Hpkey.
      + rewrite (staged_keys a emap l1 Hpk Hm)
          by (intros x Hx; apply Hgood, elem_of_app; now left).
        now apply not_in_filtered_keys.
      + rewrite (staged_keys a emap l2 Hpk Hm)
          by (intros x Hx; apply Hgood, elem_of_app; right; now right).
        now apply not_in_filtered_keys.
    - intros Hnone. rewrite Hpkey, loop_target_own by assumption.
      cbn [loop0 ls_store]. now rewrite Hnone. }
  destruct (verdict_of a emap r) eqn:Hv; [exact I| | |].
  - (* Conflict *)
    assert (Hst : staged a emap r = false).
    { unfold staged. unfold verdict_of in Hv. now rewrite Hv. }
    rewrite Hst in Ht1. rewrite decide_False in Ht1 by discriminate.
    rewrite Ht1, upsert_other.
    + rewrite loop_target_own by assumption.
      unfold loop_fn. unfold verdict_of, classify in Hv.
      destruct (emap !! row_key a r) as [e|]; [|discriminate].
      destruct (short_circuit a (row_json a r) e); [discriminate|].
      destruct (bool_decide (_ = [])); [discriminate|].
      cbn [loop0 ls_store]. now rewrite option_fmap_id.
    + rewrite <- filter_app.
      rewrite (staged_keys a emap (l1 ++ l2) Hpk Hm).
      * apply not_in_filtered_keys. rewrite map_app.
        apply not_elem_of_app. split; assumption.
      * intros x Hx. apply Hgood. apply elem_of_app in Hx as [Hx|Hx];
          apply elem_of_app; [now left | right; now right].
  - (* Insert *)
    destruct Hstaged as (old & Hown & Hold).
    { unfold staged. unfold verdict_of in Hv. now rewrite Hv. }
    exists (upsert_row a (db_now st0) (write_params a (row_json a r)) old).
    split; [exact Hown|].
    split; [intros c Hc Hne; now apply upsert_row_written|].
    destruct (upsert_row_stamps a (db_now st0) (row_json a r) old) as [Hu He].
    split; [exact He|]. split; [exact Hu|]. intros _.
    rewrite Hold; [now apply upsert_row_new_key|].
    rewrite <- Hekey. unfold verdict_of, classify in Hv.
    destruct (emap !! row_key a r) as [e|]; [|reflexivity].
    destruct (short_circuit a (row_json a r) e); [discriminate|].
    destruct (bool_decide (_ = [])); [discriminate|].
    destruct (bool_decide (_ = [])); discriminate.
  - (* Update *)
    destruct Hstaged as (old & Hown & _).
    { unfold staged. unfold verdict_of in Hv. now rewrite Hv. }
    exists (upsert_row a (db_now st0) (write_params a (row_json a r)) old).
    split; [exact Hown|].
    split; [intros c Hc Hne; now apply upsert_row_written|].
    destruct (upsert_row_stamps a (db_now st0) (row_json a r) old) as [Hu He].
    split; [exact He|]. split; [exact Hu|]. discriminate.
Qed.

(** *** The properties above on concrete batches *)

Ltac computed := apply (bool_decide_unpack _); vm_compute; exact I.

Lemma diff_summary_counts_witness :
  exists s cs ds st',
    merge_upsert mixed_batch sales_store = (Ok (s, cs, ds), st')
    /\ ds_table ds = "stg_sales_orders"
    /\ inserted_count ds = inserted s /\ updated_count ds = updated s
    /\ conflicted_count ds = conflicted s /\ rejected_count ds = rejected s
    /\ length cs = conflicted s.
Proof.
  destruct (merge_upsert mixed_batch sales_store) as [[[[s cs] ds]|e] st'] eqn:H.
  - exists s, cs, ds, st'. split; [reflexivity|].
    exact (diff_summary_counts_agree_with_stats mixed_batch sales_store st' s cs ds H).
  - vm_compute in H. discriminate H.
Defined.

Lemma pk_samples_witness :
  exists emap s cs ds st',
    _fetch_existing_bulk (target sales_store) (pk_vals mixed_batch)
      (fetch_chunk_size mixed_batch) = Ok emap
    /\ merge_upsert mixed_batch sales_store = (Ok (s, cs, ds), st')
    /\ inserted_pks_sample ds
       = take (Z.to_nat (diff_sample_size mixed_batch))
              (keys_of mixed_batch emap Insert (accepted_rows mixed_batch))
    /\ map c_pk cs = keys_of mixed_batch emap Conflict (accepted_rows mixed_batch).
Proof.
  destruct (_fetch_existing_bulk (target sales_store) (pk_vals mixed_batch)
              (fetch_chunk_size mixed_batch)) as [emap|e] eqn:Hf;
    [|vm_compute in Hf; discriminate Hf].
  destruct (merge_upsert mixed_batch sales_store) as [[[[s cs] ds]|e] st'] eqn:H;
    [|vm_compute in H; discriminate H].
  exists emap, s, cs, ds, st'. split; [reflexivity|]. split; [reflexivity|].
  destruct (pk_samples_are_first_keys_by_verdict mixed_batch sales_store st' emap
              s cs ds Hf H) as (Hi & _ & _ & Hc).
  split; [exact Hi | exact Hc].
Defined.

(** An update of the revenue of the stored order. *)
Definition revenue_update : merge_args :=
  sales_args [order 1 "2024-01-01" "bob" 120 "cccc"] [] false.

Lemma by_column_witness :
  exists emap s cs ds st',
    _fetch_existing_bulk (target sales_store) (pk_vals revenue_update)
      (fetch_chunk_size revenue_update) = Ok emap
    /\ merge_upsert revenue_update sales_store = (Ok (s, cs, ds), st')
    /\ hits_of "revenue" (column_hits revenue_update emap (accepted_rows revenue_update))
       = ["1"]
    /\ updated_by_column_counts ds !! "revenue" = Some 1.
Proof.
  destruct (_fetch_existing_bulk (target sales_store) (pk_vals revenue_update)
              (fetch_chunk_size revenue_update)) as [emap|e] eqn:Hf;
    [|vm_compute in Hf; discriminate Hf].
  destruct (merge_upsert revenue_update sales_store) as [[[[s cs] ds]|e] st'] eqn:H;
    [|vm_compute in H; discriminate H].
  exists emap, s, cs, ds, st'. split; [reflexivity|]. split; [reflexivity|].
  assert (Hk : hits_of "revenue"
                 (column_hits revenue_update emap (accepted_rows revenue_update)) = ["1"]).
  { vm_compute in Hf. injection Hf as <-. vm_compute. reflexivity. }
  split; [exact Hk|].
  destruct (by_column_counts_and_samples revenue_update sales_store st' emap
              s cs ds "revenue" Hf H) as [_ Hsome].
  destruct Hsome as (_ & Hcount & _); [rewrite Hk; discriminate|].
  rewrite Hk in Hcount. exact Hcount.
Defined.

Lemma chunk_sizes_witness :
  merge_upsert (with_chunk_sizes 1 1 mixed_batch) sales_store
  = merge_upsert (with_chunk_sizes 2000 500 mixed_batch) sales_store.
Proof.
  apply merge_upsert_independent_of_chunk_sizes; lia.
Defined.

(** A batch that only brings a new order. *)
Definition new_order : merge_args :=
  sales_args [order 2 "2024-02-03" "bob" 5 "dddd"] [] false.

Lemma other_keys_witness :
  managed_apart new_order
  /\ ("1" ∉ map (row_key new_order) (accepted_rows new_order))
  /\ target (merge_upsert new_order sales_store).2 !! "1" = Some stored_order.
Proof.
  assert (Hm : managed_apart new_order) by (split; computed).
  assert (Hk : "1" ∉ map (row_key new_order) (accepted_rows new_order)) by computed.
  split; [exact Hm|]. split; [exact Hk|].
  rewrite (merge_upsert_leaves_other_keys new_order sales_store "1" Hm Hk).
  reflexivity.
Defined.

Lemma stored_rows_witness :
  target sales_store !! "1" = Some stored_order
  /\ exists e',
       target (merge_upsert revenue_update sales_store).2 !! "1" = Some e'
       /\ dict_get e' "customer" = VStr "ann".
Proof.
  split; [reflexivity|].
  destruct (merge_upsert_keeps_stored_rows revenue_update sales_store "1" stored_order
              eq_refl) as (e' & He' & Hc).
  exists e'. split; [exact He'|].
  rewrite (Hc "customer"); [reflexivity | right; computed | discriminate..].
Defined.

Lemma ledger_witness :
  exists emap s cs ds st',
    _fetch_existing_bulk (target sales_store) (pk_vals mixed_batch)
      (fetch_chunk_size mixed_batch) = Ok emap
    /\ merge_upsert mixed_batch sales_store = (Ok (s, cs, ds), st')
    /\ length (Merge.etl_row_changes st') = conflicted s + (inserted s + updated s).
Proof.
  destruct (_fetch_existing_bulk (target sales_store) (pk_vals mixed_batch)
              (fetch_chunk_size mixed_batch)) as [emap|e] eqn:Hf;
    [|vm_compute in Hf; discriminate Hf].
  destruct (merge_upsert mixed_batch sales_store) as [[[[s cs] ds]|e] st'] eqn:H;
    [|vm_compute in H; discriminate H].
  exists emap, s, cs, ds, st'. split; [reflexivity|]. split; [reflexivity|].
  destruct (merge_upsert_appends_to_ledger mixed_batch sales_store st' emap s cs ds
              eq_refl Hf H) as (Hl & Hc & Hw).
  rewrite Hl, !length_app, !length_map, Hc, Hw. reflexivity.
Defined.

Lemma written_rows_witness :
  exists emap s cs ds st1,
    _fetch_existing_bulk (target sales_store) (pk_vals reingested)
      (fetch_chunk_size reingested) = Ok emap
    /\ merge_upsert reingested sales_store = (Ok (s, cs, ds), st1)
    /\ exists e',
         target st1 !! "2" = Some e'
         /\ dict_get e' "revenue" = VInt 5
         /\ dict_get e' last_change_event_id = VStr "event-2".
Proof.
  destruct (_fetch_existing_bulk (target sales_store) (pk_vals reingested)
              (fetch_chunk_size reingested)) as [emap|e] eqn:Hf;
    [|vm_compute in Hf; discriminate Hf].
  destruct (merge_upsert reingested sales_store) as [[[[s cs] ds]|e] st1] eqn:H;
    [|vm_compute in H; discriminate H].
  exists emap, s, cs, ds, st1. split; [reflexivity|]. split; [reflexivity|].
  pose proof (written_rows_read_back_and_conflicts_stay reingested sales_store st1 emap
                s cs ds (order 2 "2024-02-03" "bob" 5 "dddd")) as Hrow.
  assert (Hv : verdict_of reingested emap (order 2 "2024-02-03" "bob" 5 "dddd") = Insert).
  { vm_compute in Hf. injection Hf as <-. vm_compute. reflexivity. }
  rewrite Hv in Hrow.
  destruct Hrow as (e' & He' & Hcols & Hev & _); try assumption.
  - reflexivity.
  - vm_compute. reflexivity.
  - vm_compute. reflexivity.
  - split; computed.
  - computed.
  - computed.
  - exists e'. split; [exact He'|]. split; [|exact Hev].
    rewrite (Hcols "revenue"); [reflexivity | computed | discriminate].
Defined.

(** X28.  A row of the batch found unchanged keeps its stored row: after a
    run that writes, every column other than the fingerprint column and the
    two bookkeeping columns reads as before; the stored row is left as it
    was when the fingerprints already agree or when the backfill is off.
    The hypotheses are those under which the rows read by the run are the
    stored ones (positive chunk sizes, bookkeeping columns apart from the
    compared ones, no key met twice in the batch). *)
Theorem unchanged_rows_keep_their_stored_row
    (a : merge_args) (st0 st1 : store) (emap : gmap string row) (s : MergeStats)
    (cs : list conflict_entry) (ds : diff_summary) (r : row) :
  dry_run a = false ->
  (0 < fetch_chunk_size a)%Z ->
  (0 < write_chunk_size a)%Z ->
  managed_apart a ->
  NoDup (map (row_key a) (accepted_rows a)) ->
  _fetch_existing_bulk (target st0) (pk_vals a) (fetch_chunk_size a) = Ok emap ->
  merge_upsert a st0 = (Ok (s, cs, ds), st1) ->
  r ∈ accepted_rows a ->
  verdict_of a emap r = Unchanged ->
  exists e e',
    target st0 !! row_key a r = Some e
    /\ target st1 !! row_key a r = Some e'
    /\ (forall c, Some c <> hash_col a -> c <> last_change_event_id ->
                  c <> last_updated_at -> dict_get e' c = dict_get e c)
    /\ (short_circuit a (row_json a r) e = true -> e' = e)
    /\ (backfill_hash a = false -> e' = e).
Proof.
  intros Hdry Hf Hw Hm Hnd Hfetch Hrun Hr Hv.
  rewrite merge_upsert_unfold in Hrun.
  destruct (bool_decide (pk_col a ∈ columns (df a))) eqn:Hpk; [|discriminate].
  apply bool_decide_eq_true in Hpk. cbn [negb] in Hrun.
  case_bool_decide as Hrows.
  { rewrite Hrows in Hr. inversion Hr. }
  rewrite Hfetch in Hrun. unfold finish in Hrun.
  set (ls1 := foldl (merge_row a emap) (loop0 a st0) (accepted_rows a)) in *.
  destruct (batch_write_target a ls1 Hdry Hw) as (st1' & Hbw1 & Ht1).
  rewrite Hbw1 in Hrun. injection Hrun as _ _ _ <-.
  unfold ls1 in Ht1. rewrite loop_now, (loop_to_write a emap _ _ Hdry) in Ht1.
  cbn [loop0 ls_store ls_to_write_params app] in Ht1.
  assert (Hekey : emap !! row_key a r = target st0 !! row_key a r).
  { destruct (fetch_lookup (target st0) (pk_vals a) (fetch_chunk_size a) Hf)
      as (m & Hm' & Hlook).
    rewrite Hfetch in Hm'. injection Hm' as <-.
    rewrite Hlook. rewrite decide_True; [reflexivity|].
    unfold pk_vals. rewrite map_map. now apply (list_elem_of_fmap_2 (row_key a)). }
  assert (Hgood : forall x, x ∈ accepted_rows a -> bad_pk a x = false)
    by apply accepted_row_good.
  apply list_elem_of_split in Hr as (l1 & l2 & Hsplit).
  rewrite Hsplit in Hnd, Ht1, Hgood.
  rewrite map_app in Hnd. cbn [map] in Hnd.
  apply NoDup_app in Hnd as (_ & Hl1 & Hnd2).
  apply NoDup_cons in Hnd2 as [Hl2 _].
  assert (Hk1 : row_key a r ∉ map (row_key a) l1).
  { intros Hin. apply (Hl1 _ Hin). left. }
  rewrite filter_app, filter_cons in Ht1.
  assert (Hst : staged a emap r = false).
  { unfold staged. unfold verdict_of in Hv. now rewrite Hv. }
  rewrite Hst in Ht1. rewrite decide_False in Ht1 by discriminate.
  assert (Hsame : target st1' !! row_key a r
                  = loop_fn a (emap !! row_key a r) (row_json a r) (db_now st0)
                      <$> target st0 !! row_key a r).
  { rewrite Ht1, upsert_other.
    - now rewrite loop_target_own.
    - rewrite <- filter_app.
      rewrite (staged_keys a emap (l1 ++ l2) Hpk Hm).
      + apply not_in_filtered_keys. rewrite map_app.
        apply not_elem_of_app. split; assumption.
      + intros x Hx. apply Hgood. apply elem_of_app in Hx as [Hx|Hx];
          apply elem_of_app; [now left | right; now right]. }
  unfold verdict_of, classify in Hv. rewrite Hekey in Hsame, Hv.
  destruct (target st0 !! row_key a r) as [e|] eqn:He; [|discriminate].
  exists e. eexists. split; [reflexivity|]. split; [exact Hsame|].
  unfold loop_fn.
  destruct (short_circuit a (row_json a r) e) eqn:Hsc.
  { repeat split. }
  destruct (bool_decide (_diff_cols (Some e) (row_json a r) (business_cols a) = []));
    [|destruct (bool_decide _); discriminate].
  destruct (backfills a e (row_json a r)) eqn:Hb; [|repeat split; discriminate].
  split; [|split; [discriminate|]].
  - intros c Hh H1 H2. unfold backfills in Hb.
    apply andb_prop in Hb as [Hb _]. apply andb_prop in Hb as [Hb _].
    apply andb_prop in Hb as [_ Hb].
    unfold backfill_row. rewrite !dict_get_insert_ne; try congruence.
    destruct (hash_col a) as [h|]; [|discriminate]. simpl. congruence.
  - intros Hoff. unfold backfills in Hb. rewrite Hoff in Hb. discriminate.
Qed.

(** The stored order sent again with another fingerprint. *)
Definition refingerprinted : merge_args :=
  sales_args [order 1 "2024-01-01" "ann" 100 "bbbb"] [] false.

Lemma unchanged_rows_witness :
  exists emap s cs ds st1,
    _fetch_existing_bulk (target sales_store) (pk_vals refingerprinted)
      (fetch_chunk_size refingerprinted) = Ok emap
    /\ merge_upsert refingerprinted sales_store = (Ok (s, cs, ds), st1)
    /\ exists e',
         target st1 !! "1" = Some e'
         /\ dict_get e' "revenue" = VInt 100
         /\ dict_get e' "customer" = VStr "ann".
Proof.
  destruct (_fetch_existing_bulk (target sales_store) (pk_vals refingerprinted)
              (fetch_chunk_size refingerprinted)) as [emap|e] eqn:Hf;
    [|vm_compute in Hf; discriminate Hf].
  destruct (merge_upsert refingerprinted sales_store) as [[[[s cs] ds]|e] st1] eqn:H;
    [|vm_compute in H; discriminate H].
  exists emap, s, cs, ds, st1. split; [reflexivity|]. split; [reflexivity|].
  destruct (unchanged_rows_keep_their_stored_row refingerprinted sales_store st1 emap
              s cs ds (order 1 "2024-01-01" "ann" 100 "bbbb"))
    as (e0 & e' & He0 & He' & Hcols & _); try assumption.
  - reflexivity.
  - vm_compute. reflexivity.
  - vm_compute. reflexivity.
  - split; computed.
  - computed.
  - computed.
  - vm_compute in Hf. injection Hf as <-. vm_compute. reflexivity.
  - exists e'. split; [exact He'|].
    assert (e0 = stored_order) as ->.
    { vm_compute in He0. injection He0 as <-. reflexivity. }
    split; (rewrite Hcols; [reflexivity | discriminate | discriminate | discriminate]).
Defined.

End MergeInvariants.

(** ** Invariants of the state chain and of rollback *)

Module StateInvariants.
Import State StateProofs.

Set Warnings "-clear-no-such-hyp".

Lemma set_head_same d sid :
  _get_head_state_image_id d = Some sid -> set_head d sid = d.
Proof.
  unfold _get_head_state_image_id, set_head. destruct d as [t e r i p h]. simpl.
  destruct p as [[s|]|].
  - destruct (nonempty s); [|discriminate]. now intros [= ->].
  - discriminate.
  - destruct h as [[s|]|]; try discriminate.
    destruct (nonempty s); [|discriminate]. now intros [= ->].
Qed.

Lemma set_head_read d sid :
  (etl_state_pointer d <> None \/ etl_state_head d <> None) ->
  nonempty sid = true ->
  _get_head_state_image_id (set_head d sid) = Some sid
  /\ get_current_state (set_head d sid) = Some sid.
Proof.
  intros Htab Hne. unfold set_head, _get_head_state_image_id, get_current_state.
  destruct (etl_state_pointer d) as [p|] eqn:Hp.
  - cbn [etl_state_pointer]. rewrite Hne. split; reflexivity.
  - destruct (etl_state_head d) as [h|] eqn:Hh.
    + cbn [etl_state_pointer etl_state_head]. rewrite Hne. split; reflexivity.
    + destruct Htab; contradiction.
Qed.

(** X13.  Reading HEAD back after [set_head]: when the pointer table or
    the older head table exists and the identifier is not empty, both
    [_get_head_state_image_id] and [get_current_state] return the
    identifier just set.  The pointer table is preferred: when it exists
    the older head table is not written.  When neither table exists
    [set_head] does nothing and there is no HEAD.  In every case the
    business tables, the change events, the row changes and the state
    images are left as they are. *)
Theorem set_head_then_read_head (d : database) (sid : string) :
  ((etl_state_pointer d <> None \/ etl_state_head d <> None) ->
   nonempty sid = true ->
   _get_head_state_image_id (set_head d sid) = Some sid
   /\ get_current_state (set_head d sid) = Some sid)
  /\ (etl_state_pointer d <> None -> etl_state_head (set_head d sid) = etl_state_head d)
  /\ (etl_state_pointer d = None -> etl_state_head d = None ->
      set_head d sid = d /\ _get_head_state_image_id d = None
      /\ get_current_state d = None)
  /\ tables (set_head d sid) = tables d
  /\ etl_change_events (set_head d sid) = etl_change_events d
  /\ etl_row_changes (set_head d sid) = etl_row_changes d
  /\ etl_state_images (set_head d sid) = etl_state_images d.
Proof.
  split; [|split; [|split]].
  - apply set_head_read.
  - intros Hp. unfold set_head. destruct (etl_state_pointer d); [reflexivity|contradiction].
  - intros Hp Hh. unfold set_head, _get_head_state_image_id, get_current_state.
    rewrite Hp, Hh. repeat split.
  - apply set_head_frame.
Qed.

(** The stored state images, none when the table is missing. *)
Definition images (d : database) : list state_image := default [] (etl_state_images d).

Definition fill_notes (eid : string) (notes : option string) (i : state_image)
  : state_image :=
  if String.eqb (si_change_event_id i) eid then set_notes notes i else i.

Lemma find_fill_notes eid notes (imgs : list state_image) :
  List.find (fun i => String.eqb (si_change_event_id i) eid) (map (fill_notes eid notes) imgs)
  = set_notes notes <$> List.find (fun i => String.eqb (si_change_event_id i) eid) imgs.
Proof.
  induction imgs as [|i imgs IH]; [reflexivity|]. cbn [map List.find].
  assert (Hev : si_change_event_id (fill_notes eid notes i) = si_change_event_id i).
  { unfold fill_notes. destruct (String.eqb _ _); reflexivity. }
  rewrite Hev. destruct (String.eqb (si_change_event_id i) eid) eqn:Hi.
  - unfold fill_notes. rewrite Hi. reflexivity.
  - exact IH.
Qed.

Lemma ids_fill_notes eid notes (imgs : list state_image) :
  ids (map (fill_notes eid notes) imgs) = ids imgs.
Proof.
  unfold ids. rewrite map_map. apply map_ext. intros i. unfold fill_notes.
  destruct (String.eqb _ _); reflexivity.
Qed.

Lemma set_head_images d sid : etl_state_images (set_head d sid) = etl_state_images d.
Proof. apply set_head_frame. Qed.

Lemma get_by_event_set_head d sid eid :
  _get_state_image_by_change_event (set_head d sid) eid
  = _get_state_image_by_change_event d eid.
Proof. unfold _get_state_image_by_change_event. now rewrite set_head_images. Qed.

(** The call on a change event that already has an image. *)
Lemma create_state_image_existing w eid notes ex :
  _get_state_image_by_change_event (db w) eid = Some ex ->
  let fill := truthy notes && negb (nonempty (py_strip (default "" (si_notes ex)))) in
  let img := if fill then set_notes notes ex else ex in
  let d1 := if fill then with_images (map (fill_notes eid notes)) (db w) else db w in
  create_state_image w eid notes
  = (Some img, {| db := set_head d1 (state_image_id ex);
                  uuids := uuids w; drawn := drawn w |}).
Proof.
  intros Hex. cbv zeta. unfold create_state_image.
  pose proof Hex as Hex'. unfold _get_state_image_by_change_event in Hex'.
  destruct (etl_state_images (db w)) as [imgs|] eqn:Himgs; [|discriminate].
  rewrite Hex.
  destruct (truthy notes && negb (nonempty (py_strip (default "" (si_notes ex)))));
    reflexivity.
Qed.

Lemma create_state_image_stored w eid notes img w' :
  create_state_image w eid notes = (Some img, w') ->
  _get_state_image_by_change_event (db w') eid = Some img.
Proof.
  destruct (_get_state_image_by_change_event (db w) eid) as [ex|] eqn:Hex.
  - rewrite (create_state_image_existing w eid notes ex Hex). cbv zeta.
    intros [= <- <-]. cbn [db]. rewrite get_by_event_set_head.
    destruct (truthy notes && _); [|exact Hex].
    unfold _get_state_image_by_change_event in *. unfold with_images.
    cbn [etl_state_images].
    destruct (etl_state_images (db w)) as [imgs|]; [|discriminate].
    cbn [fmap option_fmap option_map]. rewrite find_fill_notes, Hex. reflexivity.
  - unfold create_state_image. rewrite Hex.
    destruct (etl_state_images (db w)) as [imgs|]; [|discriminate].
    cbn [uuid4].
    match goal with |- context [_get_state_image_by_change_event ?d eid] =>
      destruct (_get_state_image_by_change_event d eid) as [c|] eqn:Hc end;
      [|discriminate].
    intros [= <- <-]. cbn [db with_db]. rewrite get_by_event_set_head. exact Hc.
Qed.

Lemma create_state_image_head w eid notes img w' :
  create_state_image w eid notes = (Some img, w') ->
  exists d1, db w' = set_head d1 (state_image_id img)
             /\ etl_state_pointer d1 = etl_state_pointer (db w)
             /\ etl_state_head d1 = etl_state_head (db w).
Proof.
  destruct (_get_state_image_by_change_event (db w) eid) as [ex|] eqn:Hex.
  - rewrite (create_state_image_existing w eid notes ex Hex). cbv zeta.
    intros [= <- <-]. cbn [db].
    destruct (truthy notes && _); eexists; (split; [reflexivity|]); split; reflexivity.
  - unfold create_state_image. rewrite Hex.
    destruct (etl_state_images (db w)) as [imgs|]; [|discriminate].
    cbn [uuid4].
    match goal with |- context [_get_state_image_by_change_event ?d eid] =>
      destruct (_get_state_image_by_change_event d eid) as [c|] eqn:Hc end;
      [|discriminate].
    intros [= <- <-]. cbn [db with_db]. eexists. split; [reflexivity|].
    destruct (state_image_id_taken imgs _); split; reflexivity.
Qed.

Lemma set_head_idem d sid : set_head (set_head d sid) sid = set_head d sid.
Proof.
  unfold set_head. destruct d as [t e r i p h]. simpl.
  destruct p as [p|]; [reflexivity|]. destruct h as [h|]; reflexivity.
Qed.

(** X14.  [create_state_image] is idempotent: after a call that returned
    an image for a change event, another call for the same event returns
    an image with the same identifier, event and parent, stores no new
    image, draws no identifier and leaves HEAD where it is; when it is
    given no notes it returns the very same image and changes nothing at
    all. *)
Theorem create_state_image_is_idempotent
    (w w1 : world) (eid : string) (notes notes2 : option string) (img : state_image) :
  create_state_image w eid notes = (Some img, w1) ->
  exists img2 w2,
    create_state_image w1 eid notes2 = (Some img2, w2)
    /\ state_image_id img2 = state_image_id img
    /\ si_change_event_id img2 = si_change_event_id img
    /\ parent_state_image_id img2 = parent_state_image_id img
    /\ ids (images (db w2)) = ids (images (db w1))
    /\ uuids w2 = uuids w1 /\ drawn w2 = drawn w1
    /\ etl_state_pointer (db w2) = etl_state_pointer (db w1)
    /\ etl_state_head (db w2) = etl_state_head (db w1)
    /\ (truthy notes2 = false -> img2 = img /\ w2 = w1).
Proof.
  intros Hrun.
  pose proof (create_state_image_stored w eid notes img w1 Hrun) as Hst.
  destruct (create_state_image_head w eid notes img w1 Hrun) as (d1 & Hd1 & _).
  rewrite (create_state_image_existing w1 eid notes2 img Hst). cbv zeta.
  eexists _, _. split; [reflexivity|].
  assert (Hhead : forall d, etl_state_pointer d = etl_state_pointer (db w1) ->
            etl_state_head d = etl_state_head (db w1) ->
            etl_state_pointer (set_head d (state_image_id img)) = etl_state_pointer (db w1)
            /\ etl_state_head (set_head d (state_image_id img)) = etl_state_head (db w1)).
  { intros d Hp Hh. rewrite Hd1 in *. unfold set_head in *.
    destruct d as [t e r i p h]. destruct d1 as [t1 e1 r1 i1 p1 h1]. simpl in *.
    destruct p1 as [p1|]; simpl in *; subst.
    - split; reflexivity.
    - destruct h1 as [h1|]; simpl in *; subst; split; reflexivity. }
  destruct (truthy notes2) eqn:Hn2; cbn [andb].
  - destruct (negb (nonempty (py_strip (default "" (si_notes img))))).
    + cbn [db uuids drawn]. unfold images. rewrite set_head_images.
      destruct (Hhead (with_images (map (fill_notes eid notes2)) (db w1)) eq_refl eq_refl)
        as [Hp Hh].
      repeat split; try assumption; try discriminate.
      unfold with_images. cbn [etl_state_images].
      destruct (etl_state_images (db w1)) as [imgs|]; [|reflexivity].
      cbn [fmap option_fmap option_map default]. apply ids_fill_notes.
    + cbn [db uuids drawn]. unfold images. rewrite set_head_images.
      destruct (Hhead (db w1) eq_refl eq_refl) as [Hp Hh].
      repeat split; try assumption; discriminate.
  - cbn [db uuids drawn]. unfold images. rewrite set_head_images.
    destruct (Hhead (db w1) eq_refl eq_refl) as [Hp Hh].
    repeat split; try assumption.
    rewrite Hd1, set_head_idem, <- Hd1. now destruct w1.
Qed.

Lemma find_app_l {A} (f : A -> bool) (l1 l2 : list A) (x : A) :
  List.find f l1 = Some x -> List.find f (l1 ++ l2) = Some x.
Proof.
  induction l1 as [|y l1 IH]; [discriminate|]. simpl.
  destruct (f y); [trivial | exact IH].
Qed.

Lemma find_app_r {A} (f : A -> bool) (l1 l2 : list A) :
  List.find f l1 = None -> List.find f (l1 ++ l2) = List.find f l2.
Proof.
  induction l1 as [|y l1 IH]; [reflexivity|]. simpl.
  destruct (f y); [discriminate | exact IH].
Qed.

Lemma not_taken_find (imgs : list state_image) (sid : string) :
  state_image_id_taken imgs sid = false ->
  List.find (fun i => String.eqb (state_image_id i) sid) imgs = None.
Proof.
  unfold state_image_id_taken. induction imgs as [|i imgs IH]; [reflexivity|].
  simpl. destruct (String.eqb (state_image_id i) sid); [discriminate | exact IH].
Qed.

Lemma head_is_current d h :
  _get_head_state_image_id d = Some h ->
  get_current_state d = Some h /\ nonempty h = true
  /\ (etl_state_pointer d <> None \/ etl_state_head d <> None).
Proof.
  unfold _get_head_state_image_id, get_current_state.
  destruct (etl_state_pointer d) as [[s|]|].
  - destruct (nonempty s) eqn:Hs; [|discriminate]. intros [= <-].
    repeat split; [exact Hs | left; discriminate].
  - discriminate.
  - destruct (etl_state_head d) as [[s|]|]; try discriminate.
    destruct (nonempty s) eqn:Hs; [|discriminate]. intros [= <-].
    repeat split; [exact Hs | right; discriminate].
Qed.

(** The image a call creates for a change event that has none. *)
Definition new_image (w : world) (eid : string) (notes : option string) : state_image :=
  {| state_image_id := uuids w (drawn w);
     si_change_event_id := eid;
     parent_state_image_id :=
       match get_current_state (db w) with
       | Some h => if nonempty h then Some h else None
       | None => None
       end;
     si_notes := notes |}.

Lemma create_state_image_new w eid notes imgs :
  etl_state_images (db w) = Some imgs ->
  _get_state_image_by_change_event (db w) eid = None ->
  state_image_id_taken imgs (uuids w (drawn w)) = false ->
  create_state_image w eid notes
  = (Some (new_image w eid notes),
     {| db := set_head (with_images (fun l => l ++ [new_image w eid notes]) (db w))
                       (uuids w (drawn w));
        uuids := uuids w; drawn := S (drawn w) |}).
Proof.
  intros Himgs Hnone Hfree. unfold create_state_image.
  rewrite Himgs, Hnone. cbn [uuid4 db]. rewrite Hfree.
  fold (new_image w eid notes).
  unfold _get_state_image_by_change_event, with_db, with_images.
  cbn [db etl_state_images]. rewrite Himgs. cbn [fmap option_fmap option_map].
  unfold _get_state_image_by_change_event in Hnone. rewrite Himgs in Hnone.
  rewrite (find_app_r _ _ _ Hnone). cbn [List.find new_image si_change_event_id].
  rewrite String.eqb_refl. reflexivity.
Qed.

Lemma chain_onto_previous_head d sid h img old :
  nonempty sid = true -> nonempty h = true -> sid <> h ->
  _get_state_image d sid = Some img ->
  parent_state_image_id img = Some h ->
  _get_state_image d h = Some old ->
  _collect_head_to_target_chain d sid h = Some (Ok [img; old]).
Proof.
  intros Hsid Hh Hne Hget Hparent Hold.
  destruct (get_state_image_some d sid img Hget) as [Himg _].
  destruct (get_state_image_some d h old Hold) as [Holdid _].
  apply (collect_of_fuel 2). cbn [chain_loop]. rewrite Hsid.
  rewrite bool_decide_eq_false_2 by set_solver. rewrite Hget, Himg.
  rewrite (proj2 (String.eqb_neq sid h) Hne). rewrite Hparent.
  change (default "" (Some h)) with h. cbn [chain_loop].
  rewrite Hh. rewrite bool_decide_eq_false_2 by set_solver.
  rewrite Hold, Holdid, String.eqb_refl. reflexivity.
Qed.

(** X15.  When the images table exists, the change event has no image
    yet and the identifier drawn is not in use, [create_state_image]
    appends exactly one image, for that event and under that identifier,
    returns it, and it is then found both by its identifier and by its
    change event.  If a HEAD table exists HEAD moves to it.  Its parent is
    the previous HEAD: if HEAD pointed to a stored image, the walk from
    the new HEAD back to the previous one returns these two images. *)
Theorem create_state_image_extends_chain
    (w : world) (eid : string) (notes : option string) (imgs : list state_image) :
  etl_state_images (db w) = Some imgs ->
  _get_state_image_by_change_event (db w) eid = None ->
  state_image_id_taken imgs (uuids w (drawn w)) = false ->
  let sid := uuids w (drawn w) in
  exists w',
    create_state_image w eid notes = (Some (new_image w eid notes), w')
    /\ etl_state_images (db w') = Some (imgs ++ [new_image w eid notes])
    /\ drawn w' = S (drawn w)
    /\ _get_state_image_by_change_event (db w') eid = Some (new_image w eid notes)
    /\ _get_state_image (db w') sid = Some (new_image w eid notes)
    /\ (nonempty sid = true ->
        (etl_state_pointer (db w) <> None \/ etl_state_head (db w) <> None) ->
        _get_head_state_image_id (db w') = Some sid)
    /\ (forall h old,
          nonempty sid = true ->
          _get_head_state_image_id (db w) = Some h ->
          _get_state_image (db w) h = Some old ->
          parent_state_image_id (new_image w eid notes) = Some h
          /\ _collect_head_to_target_chain (db w') sid h
             = Some (Ok [new_image w eid notes; old])).
Proof.
  intros Himgs Hnone Hfree sid. subst sid.
  rewrite (create_state_image_new w eid notes imgs Himgs Hnone Hfree).
  eexists. split; [reflexivity|]. cbn [db drawn].
  set (sid := uuids w (drawn w)) in *.
  set (d' := set_head (with_images (fun l => l ++ [new_image w eid notes]) (db w)) sid).
  assert (Hi' : etl_state_images d' = Some (imgs ++ [new_image w eid notes])).
  { unfold d'. rewrite set_head_images. unfold with_images. cbn [etl_state_images].
    now rewrite Himgs. }
  assert (Hget : _get_state_image d' sid = Some (new_image w eid notes)).
  { unfold _get_state_image. rewrite Hi'.
    rewrite (find_app_r _ _ _ (not_taken_find imgs sid Hfree)).
    cbn [List.find new_image state_image_id]. fold sid. now rewrite String.eqb_refl. }
  split; [exact Hi'|]. split; [reflexivity|]. split; [|split; [exact Hget|split]].
  - unfold _get_state_image_by_change_event. rewrite Hi'.
    unfold _get_state_image_by_change_event in Hnone. rewrite Himgs in Hnone.
    rewrite (find_app_r _ _ _ Hnone). cbn [List.find new_image si_change_event_id].
    now rewrite String.eqb_refl.
  - intros Hsid Htab. unfold d'.
    apply set_head_read; assumption.
  - intros h old Hsid Hhead Hold.
    destruct (head_is_current (db w) h Hhead) as (Hcur & Hh & _).
    assert (Hparent : parent_state_image_id (new_image w eid notes) = Some h).
    { unfold new_image. cbn [parent_state_image_id]. now rewrite Hcur, Hh. }
    split; [exact Hparent|].
    assert (Hold' : _get_state_image d' h = Some old).
    { unfold _get_state_image in *. rewrite Hi'. rewrite Himgs in Hold.
      now apply find_app_l. }
    assert (Hne : sid <> h).
    { intros <-. unfold _get_state_image in Hold. rewrite Himgs in Hold.
      rewrite (not_taken_find imgs sid Hfree) in Hold. discriminate. }
    now apply (chain_onto_previous_head d' sid h _ old).
Qed.


(** The world in which [rollback_change_event] calls [create_state_image]:
    the rollback event is recorded and finished and the row changes are
    inverted, no inverse statement having failed. *)
Definition rolled_world (w : world) (eid actor : string) : world :=
  let rid := uuids w (drawn w) in
  {| db := with_events (map (finish_success rid))
             (with_tables
                (fun ts => tx_tables
                             (inverted ts (default [] (etl_row_changes (db w))) eid))
                (with_events (fun l => l ++ [running_event rid actor eid]) (db w)));
     uuids := uuids w; drawn := S (drawn w) |}.

Lemma rollback_change_event_world w eid actor evs rcs :
  etl_change_events (db w) = Some evs ->
  etl_row_changes (db w) = Some rcs ->
  uuids w (drawn w) ∉ event_ids evs ->
  tx_aborted (inverted (tables (db w)) rcs eid) = false ->
  rollback_change_event w eid actor
  = (Ok {| rb_status := "SUCCESS";
           rb_message := "Rollback complete. Created rollback change_event_id: "
                         +:+ uuids w (drawn w);
           rb_change_event_id := uuids w (drawn w) |},
     (create_state_image (rolled_world w eid actor) (uuids w (drawn w))
        (Some ("rollback of " +:+ eid))).2).
Proof.
  intros Hevs Hrcs Hfresh Hab. unfold rollback_change_event. cbn [uuid4 db].
  rewrite Hevs, Hrcs, (proj2 (existsb_event_id _ _) Hfresh).
  cbn [with_db db with_events tables]. unfold inverted in Hab. rewrite Hab.
  unfold rolled_world. rewrite Hrcs. reflexivity.
Qed.

Lemma rolled_world_state w eid actor :
  etl_state_images (db (rolled_world w eid actor)) = etl_state_images (db w)
  /\ etl_state_pointer (db (rolled_world w eid actor)) = etl_state_pointer (db w)
  /\ etl_state_head (db (rolled_world w eid actor)) = etl_state_head (db w).
Proof. repeat split. Qed.

(** X16.  A rollback never rewrites the history of states but extends
    it: with the audit and state tables in place, HEAD on a stored image,
    fresh identifiers and no inverse statement of the rollback failing
    (which would abort its transaction), [rollback_change_event] appends
    one state image for the rollback event whose parent is the previous
    HEAD and moves HEAD to it, so the walk from the new HEAD back to the
    previous HEAD returns these two images.  Two identifiers are drawn,
    the first for the rollback event and the second for its image. *)
Theorem rollback_puts_new_image_on_top_of_head
    (w : world) (eid actor h : string)
    (evs : list change_event) (rcs : list RowChange) (imgs : list state_image)
    (old : state_image) :
  etl_change_events (db w) = Some evs ->
  etl_row_changes (db w) = Some rcs ->
  etl_state_images (db w) = Some imgs ->
  tx_aborted (inverted (tables (db w)) rcs eid) = false ->
  let rid := uuids w (drawn w) in
  let sid := uuids w (S (drawn w)) in
  rid ∉ event_ids evs ->
  _get_state_image_by_change_event (db w) rid = None ->
  state_image_id_taken imgs sid = false ->
  nonempty sid = true ->
  _get_head_state_image_id (db w) = Some h ->
  _get_state_image (db w) h = Some old ->
  let img := {| state_image_id := sid; si_change_event_id := rid;
                parent_state_image_id := Some h;
                si_notes := Some ("rollback of " +:+ eid) |} in
  exists r w',
    rollback_change_event w eid actor = (Ok r, w')
    /\ rb_change_event_id r = rid
    /\ etl_state_images (db w') = Some (imgs ++ [img])
    /\ _get_head_state_image_id (db w') = Some sid
    /\ _collect_head_to_target_chain (db w') sid h = Some (Ok [img; old])
    /\ drawn w' = S (S (drawn w)).
Proof.
  intros Hevs Hrcs Himgs Hab rid sid Hfresh Hnone Hfree Hsid Hhead Hold img.
  subst rid sid img.
  rewrite (rollback_change_event_world w eid actor evs rcs Hevs Hrcs Hfresh Hab).
  destruct (head_is_current (db w) h Hhead) as (Hcur & Hh & Htab).
  set (img := {| state_image_id := uuids w (S (drawn w));
                 si_change_event_id := uuids w (drawn w);
                 parent_state_image_id := Some h;
                 si_notes := Some ("rollback of " +:+ eid) |}).
  assert (Hnew : new_image (rolled_world w eid actor) (uuids w (drawn w))
                   (Some ("rollback of " +:+ eid)) = img).
  { unfold new_image, img. cbn [uuids drawn rolled_world].
    change (get_current_state (db (rolled_world w eid actor)))
      with (get_current_state (db w)).
    now rewrite Hcur, Hh. }
  rewrite (create_state_image_new (rolled_world w eid actor) (uuids w (drawn w))
             (Some ("rollback of " +:+ eid)) imgs);
    [|exact Himgs|exact Hnone|exact Hfree].
  rewrite Hnew. cbn [snd]. eexists _, _. split; [reflexivity|]. cbn [db drawn].
  change (uuids (rolled_world w eid actor) (drawn (rolled_world w eid actor)))
    with (uuids w (S (drawn w))).
  set (sid := uuids w (S (drawn w))) in *.
  set (d' := set_head (with_images (fun l => l ++ [img]) (db (rolled_world w eid actor)))
                      sid).
  assert (Hi' : etl_state_images d' = Some (imgs ++ [img])).
  { unfold d'. rewrite set_head_images. unfold with_images. cbn [etl_state_images].
    change (etl_state_images (db (rolled_world w eid actor)))
      with (etl_state_images (db w)).
    now rewrite Himgs. }
  split; [reflexivity|]. split; [exact Hi'|]. split; [|split; [|reflexivity]].
  - unfold d'. apply set_head_read; [exact Htab | exact Hsid].
  - apply (chain_onto_previous_head d' sid h img old); try assumption.
    + intros Heq. unfold _get_state_image in Hold. rewrite Himgs in Hold.
      rewrite <- Heq, (not_taken_find imgs sid Hfree) in Hold. discriminate.
    + unfold _get_state_image. rewrite Hi'.
      rewrite (find_app_r _ _ _ (not_taken_find imgs sid Hfree)).
      cbn [List.find img state_image_id]. now rewrite String.eqb_refl.
    + reflexivity.
    + unfold _get_state_image in *. rewrite Hi'. rewrite Himgs in Hold.
      now apply find_app_l.
Qed.

Lemma no_applied_changes (rcs : list RowChange) (eid : string) :
  (forall rc, rc ∈ rcs -> rc_change_event_id rc = eid -> rc_applied rc = false) ->
  applied_row_changes rcs eid = [].
Proof.
  intros Hnone. destruct (applied_row_changes rcs eid) as [|rc l] eqn:Hl; [reflexivity|].
  assert (Hin : rc ∈ applied_row_changes rcs eid) by (rewrite Hl; left).
  apply applied_row_changes_elem in Hin as (Hin & He & Ha).
  rewrite (Hnone rc Hin He) in Ha. discriminate.
Qed.

(** X17.  Rolling back a change event that has no applied row change
    (an unknown identifier, a dry run, an event whose rows were all
    withheld) still succeeds and records a finished rollback event, but
    changes no business table and no row of the ledger. *)
Theorem rollback_without_applied_changes_keeps_tables
    (w : world) (eid actor : string)
    (evs : list change_event) (rcs : list RowChange) :
  etl_change_events (db w) = Some evs ->
  etl_row_changes (db w) = Some rcs ->
  uuids w (drawn w) ∉ event_ids evs ->
  (forall rc, rc ∈ rcs -> rc_change_event_id rc = eid -> rc_applied rc = false) ->
  exists r w',
    rollback_change_event w eid actor = (Ok r, w')
    /\ rb_status r = "SUCCESS"
    /\ tables (db w') = tables (db w)
    /\ etl_row_changes (db w') = Some rcs
    /\ exists ev,
         etl_change_events (db w') = Some (evs ++ [ev])
         /\ ce_change_event_id ev = rb_change_event_id r
         /\ ce_status ev = "SUCCESS" /\ ce_source_name ev = "rollback"
         /\ ce_file_name ev = "rollback:" +:+ eid.
Proof.
  intros Hevs Hrcs Hfresh Hnone.
  assert (Hab : tx_aborted (inverted (tables (db w)) rcs eid) = false).
  { unfold inverted. now rewrite (no_applied_changes rcs eid Hnone). }
  destruct (rollback_change_event_ok w eid actor evs rcs Hevs Hrcs Hfresh Hab)
    as (w' & -> & Ht & He & Hr).
  eexists _, w'. split; [reflexivity|]. split; [reflexivity|].
  unfold inverted in Ht.
  rewrite (no_applied_changes rcs eid Hnone) in Ht. split; [exact Ht|].
  split; [exact Hr|]. eexists. split; [exact He|].
  unfold finish_success, running_event. cbn [ce_change_event_id].
  rewrite String.eqb_refl. repeat split.
Qed.

(** X18.  A rollback cannot be undone by rolling back the rollback
    event: [rollback_change_event] writes no row change under the
    identifier of the event it creates, so, unless the ledger already
    held rows under that identifier, rolling that event back succeeds and
    leaves every business table as the first rollback left it. *)
Theorem rolling_back_a_rollback_changes_no_table
    (w w1 : world) (eid actor actor2 : string) (r : rollback_result) :
  rollback_change_event w eid actor = (Ok r, w1) ->
  (forall rcs rc, etl_row_changes (db w) = Some rcs -> rc ∈ rcs ->
                  rc_change_event_id rc <> rb_change_event_id r) ->
  (forall evs1, etl_change_events (db w1) = Some evs1 ->
                uuids w1 (drawn w1) ∉ event_ids evs1) ->
  exists r2 w2,
    rollback_change_event w1 (rb_change_event_id r) actor2 = (Ok r2, w2)
    /\ rb_status r2 = "SUCCESS"
    /\ tables (db w2) = tables (db w1)
    /\ etl_row_changes (db w2) = etl_row_changes (db w).
Proof.
  intros Hrun Hledger Hfresh2.
  apply rollback_change_event_inv in Hrun
    as (evs & rcs & Hevs & Hrcs & Hfresh & Hrid & Hevs1 & Hrcs1).
  assert (Hno : applied_row_changes rcs (rb_change_event_id r) = []).
  { apply no_applied_changes. intros rc Hin Hid. exfalso.
    exact (Hledger rcs rc Hrcs Hin Hid). }
  assert (Hab : tx_aborted (inverted (tables (db w1)) rcs (rb_change_event_id r)) = false).
  { unfold inverted. now rewrite Hno. }
  destruct (rollback_change_event_ok w1 (rb_change_event_id r) actor2 _ rcs Hevs1 Hrcs1
              (Hfresh2 _ Hevs1) Hab) as (w2 & -> & Ht & _ & Hr).
  eexists _, w2. split; [reflexivity|]. split; [reflexivity|].
  unfold inverted in Ht. rewrite Hno in Ht.
  split; [exact Ht|]. now rewrite Hr, Hrcs.
Qed.


Lemma get_state_image_stored d cur img :
  _get_state_image d cur = Some img -> img ∈ images d.
Proof.
  unfold _get_state_image, images. destruct (etl_state_images d) as [imgs|]; [|discriminate].
  intros H. apply find_some in H as [H _]. now apply list_elem_of_In.
Qed.

Lemma chain_loop_distinct fuel d target :
  forall cur seen chain0 chain,
    chain_loop fuel d target cur seen chain0 = Some (Ok chain) ->
    NoDup (ids chain0) ->
    (forall i, i ∈ ids chain0 -> i ∈ seen) ->
    (forall img, img ∈ chain0 -> img ∈ images d) ->
    NoDup (ids chain) /\ (forall img, img ∈ chain -> img ∈ images d).
Proof.
  induction fuel as [|fuel IH]; intros cur seen chain0 chain Hrun Hnd Hseen Hst;
    [discriminate|].
  cbn [chain_loop] in Hrun.
  destruct (nonempty cur); [|discriminate].
  case_bool_decide as Hcur; [discriminate|].
  destruct (_get_state_image d cur) as [img|] eqn:Hget; [|discriminate].
  destruct (get_state_image_some d cur img Hget) as [Hid _].
  assert (Hnd' : NoDup (ids (chain0 ++ [img]))).
  { unfold ids. rewrite map_app. apply NoDup_app. split; [exact Hnd|]. split.
    - intros i Hi Hin. simpl in Hin. apply list_elem_of_singleton in Hin.
      apply Hcur. apply Hseen. unfold ids. now rewrite <- Hid, <- Hin.
    - simpl. apply NoDup_singleton. }
  assert (Hst' : forall x, x ∈ chain0 ++ [img] -> x ∈ images d).
  { intros x [Hx|Hx]%elem_of_app; [now apply Hst|].
    apply list_elem_of_singleton in Hx as ->. now apply (get_state_image_stored d cur). }
  destruct (String.eqb (state_image_id img) target).
  - injection Hrun as <-. split; assumption.
  - apply (IH _ _ _ _ Hrun Hnd' ); [|exact Hst'].
    intros i Hi. unfold ids in Hi. rewrite map_app in Hi.
    apply elem_of_app in Hi as [Hi|Hi]; [apply elem_of_union_r; now apply Hseen|].
    simpl in Hi. apply list_elem_of_singleton in Hi. rewrite Hi, Hid.
    apply elem_of_union_l. now apply elem_of_singleton.
Qed.

(** X19.  A chain that [_collect_head_to_target_chain] returns holds no
    image twice, consists of stored images, has at least one and at most
    as many images as are stored, starts with the image of the HEAD
    identifier and ends with the image of the target identifier. *)
Theorem collected_chain_is_duplicate_free_and_stored
    (d : database) (head target : string) (chain : list state_image) :
  _collect_head_to_target_chain d head target = Some (Ok chain) ->
  NoDup (ids chain)
  /\ (forall img, img ∈ chain -> img ∈ images d)
  /\ 1 <= length chain <= images_count d
  /\ (state_image_id <$> List.hd_error chain) = Some head
  /\ (state_image_id <$> last chain) = Some target.
Proof.
  intros Hrun. pose proof Hrun as Hrun'.
  unfold _collect_head_to_target_chain in Hrun'.
  destruct (chain_loop_distinct _ d target head ∅ [] chain Hrun') as [Hnd Hst].
  { constructor. }
  { intros i Hi. inversion Hi. }
  { intros i Hi. inversion Hi. }
  destruct (collect_sound d head target chain Hrun) as [Hpath [(l & Hlast & Hl) _]].
  split; [exact Hnd|]. split; [exact Hst|].
  split; [|split].
  - split.
    + destruct Hpath; simpl; lia.
    + assert (Hsub : (list_to_set (ids chain) : gset string) ⊆ stored_ids d).
      { intros i Hi. apply elem_of_list_to_set in Hi.
        unfold ids in Hi. apply list_elem_of_fmap in Hi as (img & -> & Himg).
        unfold stored_ids. apply elem_of_list_to_set. unfold ids.
        apply list_elem_of_fmap. exists img. split; [reflexivity|]. now apply Hst. }
      apply subseteq_size in Hsub. rewrite size_list_to_set in Hsub by exact Hnd.
      unfold ids in Hsub. rewrite length_map in Hsub.
      pose proof (stored_ids_size d). lia.
  - destruct Hpath as [cur img Hne Hget | cur img rest Hne Hget _]; simpl;
      f_equal; now apply (get_state_image_some d cur img).
  - rewrite Hlast. simpl. now rewrite Hl.
Qed.

(** X20.  [rollback_to_point_in_time] checks before it acts: without the
    images table, without a HEAD, without a state image for the target
    event, and when the walk from HEAD to the target fails, it raises the
    corresponding error and leaves everything as it is, no identifier
    being drawn.  A call that raises after anything has changed passes on
    the exception of one of its single-event rollbacks: the chain was
    found, has more than one image, and the loop over its images raised. *)
Theorem point_in_time_preflight_errors_change_nothing
    (w : world) (target actor : string) :
  (etl_state_images (db w) = None ->
   rollback_to_point_in_time w target actor = Some (Raise no_images_table_error, w))
  /\ (etl_state_images (db w) <> None ->
      _get_head_state_image_id (db w) = None ->
      rollback_to_point_in_time w target actor = Some (Raise no_head_error, w))
  /\ (forall h,
        etl_state_images (db w) <> None ->
        _get_head_state_image_id (db w) = Some h ->
        _get_state_image_by_change_event (db w) target = None ->
        rollback_to_point_in_time w target actor
        = Some (Raise (no_state_image_error target), w))
  /\ (forall h t e,
        etl_state_images (db w) <> None ->
        _get_head_state_image_id (db w) = Some h ->
        _get_state_image_by_change_event (db w) target = Some t ->
        _collect_head_to_target_chain (db w) h (state_image_id t) = Some (Raise e) ->
        rollback_to_point_in_time w target actor = Some (Raise e, w))
  /\ (forall e w',
        rollback_to_point_in_time w target actor = Some (Raise e, w') ->
        w' <> w ->
        exists h t chain,
          _get_head_state_image_id (db w) = Some h
          /\ _get_state_image_by_change_event (db w) target = Some t
          /\ _collect_head_to_target_chain (db w) h (state_image_id t) = Some (Ok chain)
          /\ length chain <> 1
          /\ rollback_images w actor (removelast chain) [] 0 = (Raise e, w')).
Proof.
  unfold rollback_to_point_in_time. split; [|split; [|split; [|split]]].
  - intros Hnone. now rewrite Hnone.
  - intros Hsome Hhead.
    destruct (etl_state_images (db w)); [|contradiction]. now rewrite Hhead.
  - intros h Hsome Hhead Htarget.
    destruct (etl_state_images (db w)); [|contradiction]. now rewrite Hhead, Htarget.
  - intros h t e Hsome Hhead Htarget Hwalk.
    destruct (etl_state_images (db w)); [|contradiction].
    now rewrite Hhead, Htarget, Hwalk.
  - intros e w'.
    destruct (etl_state_images (db w)); [|intros [= _ <-] Hne; contradiction].
    destruct (_get_head_state_image_id (db w)) as [h|];
      [|intros [= _ <-] Hne; contradiction].
    destruct (_get_state_image_by_change_event (db w) target) as [t|];
      [|intros [= _ <-] Hne; contradiction].
    destruct (_collect_head_to_target_chain (db w) h (state_image_id t))
      as [[chain|e0]|] eqn:Hwalk; [|intros [= _ <-] Hne; contradiction|discriminate].
    destruct (length chain =? 1)%nat eqn:Hlen; [discriminate|].
    apply Nat.eqb_neq in Hlen.
    destruct (rollback_images w actor (removelast chain) [] 0) as [[[i n]|e1] w1] eqn:Hl;
      [discriminate|].
    intros [= <- <-] _. exists h, t, chain.
    do 2 (split; [reflexivity|]). split; [exact Hwalk|].
    split; [exact Hlen | exact Hl].
Qed.

(** *** The properties above on the concrete history *)

Import History.

Ltac computed := apply (bool_decide_unpack _); vm_compute; exact I.

Lemma create_state_image_idempotent_witness :
  exists img w1 img2 w2,
    create_state_image world0 "e9" (Some "manual") = (Some img, w1)
    /\ create_state_image w1 "e9" None = (Some img2, w2)
    /\ state_image_id img2 = state_image_id img
    /\ img2 = img /\ w2 = w1.
Proof.
  destruct (create_state_image world0 "e9" (Some "manual")) as [[img|] w1] eqn:H;
    [|vm_compute in H; discriminate H].
  destruct (create_state_image_is_idempotent world0 w1 "e9" (Some "manual") None img H)
    as (img2 & w2 & Hrun & Hid & _ & _ & _ & _ & _ & _ & _ & Hsame).
  destruct (Hsame eq_refl) as [Himg Hw].
  exists img, w1, img2, w2. repeat split; assumption.
Defined.

Lemma create_state_image_chain_witness :
  exists w',
    create_state_image world0 "e9" None = (Some (image "rb-0" "e9" (Some "s3")), w')
    /\ _get_head_state_image_id (db w') = Some "rb-0"
    /\ _collect_head_to_target_chain (db w') "rb-0" "s3"
       = Some (Ok [image "rb-0" "e9" (Some "s3"); image3]).
Proof.
  destruct (create_state_image_extends_chain world0 "e9" None [image1; image2; image3])
    as (w' & Hrun & _ & _ & _ & _ & Hhead & Hchain); try reflexivity.
  exists w'. split; [exact Hrun|]. split.
  - apply Hhead; [reflexivity | left; discriminate].
  - apply (Hchain "s3" image3); reflexivity.
Defined.

Lemma rollback_head_witness :
  exists r w',
    rollback_change_event world0 "e3" "ops" = (Ok r, w')
    /\ _get_head_state_image_id (db w') = Some "rb-1"
    /\ _collect_head_to_target_chain (db w') "rb-1" "s3"
       = Some (Ok [ {| state_image_id := "rb-1"; si_change_event_id := "rb-0";
                       parent_state_image_id := Some "s3";
                       si_notes := Some "rollback of e3" |}; image3 ]).
Proof.
  destruct (rollback_puts_new_image_on_top_of_head world0 "e3" "ops" "s3"
              [event "e1"; event "e2"; event "e3"]
              [ change "e1" "1" "INSERT" None (sale 1 100) true;
                change "e2" "2" "INSERT" None (sale 2 200) true;
                change "e3" "1" "UPDATE" (Some (sale 1 100)) (sale 1 150) true;
                change "e3" "2" "UPDATE" (Some (sale 2 200)) (sale 2 999) false ]
              [image1; image2; image3] image3)
    as (r & w' & Hrun & _ & _ & Hhead & Hchain & _); try reflexivity.
  - computed.
  - exists r, w'. split; [exact Hrun|]. split; [exact Hhead | exact Hchain].
Defined.

Lemma rollback_unknown_event_witness :
  exists r w',
    rollback_change_event world0 "e9" "ops" = (Ok r, w')
    /\ rb_status r = "SUCCESS"
    /\ tables (db w') = tables history.
Proof.
  destruct (rollback_without_applied_changes_keeps_tables world0 "e9" "ops"
              [event "e1"; event "e2"; event "e3"]
              [ change "e1" "1" "INSERT" None (sale 1 100) true;
                change "e2" "2" "INSERT" None (sale 2 200) true;
                change "e3" "1" "UPDATE" (Some (sale 1 100)) (sale 1 150) true;
                change "e3" "2" "UPDATE" (Some (sale 2 200)) (sale 2 999) false ])
    as (r & w' & Hrun & Hst & Ht & _); try reflexivity.
  - computed.
  - intros rc Hin Hid. exfalso. revert Hid.
    repeat (apply elem_of_cons in Hin as [->|Hin]; [discriminate|]). inversion Hin.
  - exists r, w'. split; [exact Hrun|]. split; [exact Hst | exact Ht].
Defined.

Lemma rollback_of_rollback_witness :
  exists r w1 r2 w2,
    rollback_change_event world0 "e3" "ops" = (Ok r, w1)
    /\ rollback_change_event w1 (rb_change_event_id r) "ops" = (Ok r2, w2)
    /\ tables (db w2) = tables (db w1).
Proof.
  destruct (rollback_change_event world0 "e3" "ops") as [[r|e] w1] eqn:H;
    [|vm_compute in H; discriminate H].
  destruct (rolling_back_a_rollback_changes_no_table world0 w1 "e3" "ops" "ops" r H)
    as (r2 & w2 & Hrun & _ & Ht & _).
  - vm_compute in H. injection H as <- _. intros rcs rc [= <-] Hin.
    repeat (apply elem_of_cons in Hin as [->|Hin]; [discriminate|]). inversion Hin.
  - vm_compute in H. injection H as _ <-. intros evs1 [= <-]. computed.
  - exists r, w1, r2, w2. split; [reflexivity|]. split; [exact Hrun | exact Ht].
Defined.

Lemma collected_chain_witness :
  _collect_head_to_target_chain history "s3" "s1" = Some (Ok [image3; image2; image1])
  /\ NoDup (ids [image3; image2; image1])
  /\ 1 <= length [image3; image2; image1] <= images_count history.
Proof.
  assert (H : _collect_head_to_target_chain history "s3" "s1"
              = Some (Ok [image3; image2; image1])) by (vm_compute; reflexivity).
  split; [exact H|].
  destruct (collected_chain_is_duplicate_free_and_stored history "s3" "s1" _ H)
    as (Hnd & _ & Hlen & _).
  split; [exact Hnd | exact Hlen].
Defined.

End StateInvariants.

(** ** Key cleaning and the text of a fingerprint *)

Module PipelineInvariants.
Import Pandas Pipeline PipelineProofs.

Local Open Scope Z_scope.

(** *** Key cleaning *)









(** *** Reading a fingerprint back *)

(** The value of a hexadecimal digit character. *)
Definition digit_value (c : ascii) : Z :=
  let n := Z.of_nat (nat_of_ascii c) in
  if n <? 58 then n - 48 else n - 87.

(** The number a list of digits denotes, least significant digit first. *)
Fixpoint digits_value (ds : list ascii) : Z :=
  match ds with
  | [] => 0
  | d :: ds' => digit_value d + 16 * digits_value ds'
  end.

(** [int(s, 16)] on a string of lower-case hexadecimal digits. *)
Definition hex_value (s : string) : Z :=
  digits_value (rev (list_ascii_of_string s)).

Lemma digit_value_hex_digit (d : Z) : 0 <= d < 16 -> digit_value (hex_digit d) = d.
Proof.
  intros Hd.
  assert (H : d = 0 \/ d = 1 \/ d = 2 \/ d = 3 \/ d = 4 \/ d = 5 \/ d = 6 \/ d = 7
              \/ d = 8 \/ d = 9 \/ d = 10 \/ d = 11 \/ d = 12 \/ d = 13 \/ d = 14
              \/ d = 15) by lia.
  repeat (destruct H as [->|H]; [reflexivity|]). now subst.
Qed.

Lemma hex_rev_value (fuel : nat) :
  forall x, 0 <= x < 16 ^ Z.of_nat fuel -> digits_value (hex_rev fuel x) = x.
Proof.
  induction fuel as [|fuel IH]; intros x Hx.
  - simpl in *. lia.
  - cbn [hex_rev]. destruct (Z.ltb_spec x 16) as [Hlt|Hge].
    + cbn [digits_value]. rewrite digit_value_hex_digit by lia. lia.
    + cbn [digits_value].
      rewrite digit_value_hex_digit by (apply Z.mod_pos_bound; lia).
      rewrite IH.
      * pose proof (Z.div_mod x 16). lia.
      * split; [apply Z.div_pos; lia|].
        apply Z.div_lt_upper_bound; [lia|].
        rewrite Nat2Z.inj_succ, Z.pow_succ_r in Hx by lia. lia.
Qed.

Lemma digits_value_zeros (ds : list ascii) (k : nat) :
  digits_value (ds ++ repeat "0"%char k) = digits_value ds.
Proof.
  induction ds as [|d ds IH]; simpl.
  - induction k as [|k IHk]; [reflexivity|]. simpl. rewrite IHk. reflexivity.
  - now rewrite IH.
Qed.

Lemma rev_repeat {A} (x : A) (k : nat) : rev (repeat x k) = repeat x k.
Proof.
  induction k as [|k IH]; [reflexivity|]. simpl. rewrite IH.
  clear IH. induction k as [|k IH]; [reflexivity|]. simpl. now rewrite IH.
Qed.

Lemma log2_fuel (x : Z) : 0 <= x -> x < 16 ^ Z.of_nat (S (Z.to_nat (Z.log2 x))).
Proof.
  intros Hx. rewrite Nat2Z.inj_succ, Z2Nat.id by apply Z.log2_nonneg.
  destruct (Z.eq_dec x 0) as [->|Hne].
  - simpl. lia.
  - pose proof (Z.log2_spec x ltac:(lia)) as [_ Hup].
    eapply Z.lt_le_trans; [exact Hup|].
    rewrite <- Z.add_1_r.
    apply Z.pow_le_mono_l. pose proof (Z.log2_nonneg x). lia.
Qed.

Lemma hex_value_format (x : Z) : 0 <= x -> hex_value (format_016x x) = x.
Proof.
  intros Hx. unfold hex_value, format_016x.
  rewrite list_ascii_of_string_of_list_ascii, rev_app_distr, rev_involutive, rev_repeat.
  rewrite digits_value_zeros. apply hex_rev_value. split; [exact Hx|].
  now apply log2_fuel.
Qed.

(** X22.  Formatting a 64-bit hash as sixteen hexadecimal digits loses
    nothing: read back as a hexadecimal number the text gives the hash,
    so two different hashes never get the same text, and two rows have
    the same fingerprint exactly when their 64-bit pandas hashes are
    equal. *)
Theorem fingerprint_text_reads_back (x y : Z) :
  0 <= x < 2 ^ 64 -> 0 <= y < 2 ^ 64 ->
  hex_value (format_016x x) = x
  /\ (format_016x x = format_016x y -> x = y)
  /\ forall (r1 r2 : row) (cols : list string),
       row_hash r1 cols = row_hash r2 cols
       <-> u64 (hash_row (map (fun c => fill_str (cell r1 c)) cols))
           = u64 (hash_row (map (fun c => fill_str (cell r2 c)) cols)).
Proof.
  intros Hx Hy. split; [apply hex_value_format; lia|]. split.
  - intros Heq. rewrite <- (hex_value_format x), <- (hex_value_format y) by lia.
    now rewrite Heq.
  - intros r1 r2 cols. unfold row_hash. split; [|now intros ->].
    intros Heq.
    pose proof (u64_range (u64 (hash_row (map (fun c => fill_str (cell r1 c)) cols)))) as H1.
    pose proof (u64_range (u64 (hash_row (map (fun c => fill_str (cell r2 c)) cols)))) as H2.
    unfold u64 in *. rewrite !Z.mod_mod in * by lia.
    set (a := hash_row (map (fun c => fill_str (cell r1 c)) cols) mod 2 ^ 64) in *.
    set (b := hash_row (map (fun c => fill_str (cell r2 c)) cols) mod 2 ^ 64) in *.
    rewrite <- (hex_value_format a), <- (hex_value_format b) by lia.
    now rewrite Heq.
Qed.


Lemma fingerprint_text_witness :
  hex_value (format_016x 255) = 255 /\ format_016x 255 = "00000000000000ff".
Proof.
  destruct (fingerprint_text_reads_back 255 4096) as (Hback & _); [lia | lia |].
  split; [exact Hback | vm_compute; reflexivity].
Defined.

End PipelineInvariants.

(** ** The schema file *)

Module DdlProofs.
Import Ddl.

(** Two dashes in a row somewhere in the text. *)
Definition has_dashes (l : list ascii) : Prop :=
  exists pre post, l = pre ++ "-"%char :: "-"%char :: post.

Lemma has_dashes_cons c l :
  has_dashes (c :: l)
  <-> (c = "-"%char /\ exists post, l = "-"%char :: post) \/ has_dashes l.
Proof.
  split.
  - intros ([|x pre] & post & H); simpl in H.
    + injection H as -> ->. left. split; [reflexivity|]. now exists post.
    + injection H as -> ->. right. now exists pre, post.
  - intros [[-> [post ->]]|(pre & post & ->)].
    + now exists [], post.
    + now exists (c :: pre), post.
Qed.

Lemma has_dashes_nil : ~ has_dashes [].
Proof. intros ([|x pre] & post & H); discriminate. Qed.


Lemma has_dashes_app_r x y : has_dashes y -> has_dashes (x ++ y).
Proof. intros (pre & post & ->). exists (x ++ pre), post. now rewrite <- app_assoc. Qed.

Lemma has_dashes_rev l : has_dashes (rev l) -> has_dashes l.
Proof.
  intros (pre & post & H). apply (f_equal (@rev ascii)) in H.
  rewrite rev_involutive, rev_app_distr in H. simpl in H.
  rewrite <- !app_assoc in H. simpl in H.
  now exists (rev post), (rev pre).
Qed.

Lemma has_dashes_suffix x y : has_dashes y -> has_dashes (x ++ y).
Proof. apply has_dashes_app_r. Qed.

Lemma lstrip_suffix (l : list ascii) : exists pre, l = pre ++ lstrip_chars l.
Proof.
  induction l as [|c l [pre IH]]; [now exists []|]. simpl.
  destruct (is_space c); [|now exists []].
  exists (c :: pre). simpl. now rewrite <- IH.
Qed.

Lemma has_dashes_lstrip l : has_dashes (lstrip_chars l) -> has_dashes l.
Proof.
  intros H. destruct (lstrip_suffix l) as [pre Hl]. rewrite Hl.
  now apply has_dashes_app_r.
Qed.

Lemma has_dashes_strip l : has_dashes (strip l) -> has_dashes l.
Proof.
  unfold strip, rstrip, lstrip. intros H.
  apply has_dashes_rev, has_dashes_lstrip, has_dashes_rev in H.
  now apply has_dashes_lstrip.
Qed.

Lemma chr_eqb_eq a b : chr_eqb a b = true <-> a = b.
Proof. apply Ascii.eqb_eq. Qed.

Lemma before_dashes_head c l :
  before_dashes (c :: l) = [] \/ exists t, before_dashes (c :: l) = c :: t.
Proof.
  simpl. destruct l as [|d l]; [right; now exists []|].
  destruct (chr_eqb c "-" && chr_eqb d "-"); [now left | right; eauto].
Qed.

Lemma before_dashes_clean (l : list ascii) : ~ has_dashes (before_dashes l).
Proof.
  induction l as [|c l IH]; [apply has_dashes_nil|].
  destruct l as [|d l].
  - simpl. intros ([|x [|y pre]] & post & H); discriminate.
  - change (before_dashes (c :: d :: l))
      with (if chr_eqb c "-" && chr_eqb d "-" then [] else c :: before_dashes (d :: l)).
    destruct (chr_eqb c "-" && chr_eqb d "-") eqn:Hcd; [apply has_dashes_nil|].
    intros H. apply has_dashes_cons in H as [[-> [post Hpost]]|H]; [|now apply IH].
    destruct (before_dashes_head d l) as [Hnil|[t Ht]].
    + rewrite Hnil in Hpost. discriminate.
    + rewrite Ht in Hpost. injection Hpost as -> _.
      simpl in Hcd. discriminate.
Qed.

Lemma has_dashes_sep x y :
  has_dashes (x ++ "010"%char :: y) -> has_dashes x \/ has_dashes y.
Proof.
  induction x as [|c x IH]; simpl; intros H.
  - apply has_dashes_cons in H as [[Hc _]|H]; [discriminate | now right].
  - apply has_dashes_cons in H as [[-> [post Hpost]]|H].
    + destruct x as [|d x]; simpl in Hpost; [discriminate|].
      injection Hpost as -> _. left. now exists [], x.
    + destruct (IH H) as [Hx|Hy]; [left | now right].
      apply has_dashes_cons. now right.
Qed.

Lemma join_lines_clean (lines : list (list ascii)) :
  Forall (fun ln => ~ has_dashes ln) lines -> ~ has_dashes (join_lines lines).
Proof.
  induction 1 as [|ln lines Hln Hall IH]; [apply has_dashes_nil|].
  destruct lines as [|ln2 lines]; [exact Hln|].
  change (join_lines (ln :: ln2 :: lines))
    with (ln ++ "010"%char :: join_lines (ln2 :: lines)).
  intros H. apply has_dashes_sep in H as [H|H]; [now apply Hln | now apply IH].
Qed.

Lemma string_app_list (a b : string) :
  list_ascii_of_string (a +:+ b) = list_ascii_of_string a ++ list_ascii_of_string b.
Proof. induction a as [|c a IH]; simpl; [reflexivity | now rewrite IH]. Qed.

Lemma strip_comments_clean (sql : string) :
  ~ has_dashes (list_ascii_of_string (_strip_sql_comments sql)).
Proof.
  unfold _strip_sql_comments. rewrite list_ascii_of_string_of_list_ascii.
  intros Hd. apply has_dashes_strip in Hd. revert Hd. apply join_lines_clean.
  apply Forall_forall. intros ln Hln. apply list_elem_of_In, in_map_iff in Hln as (l & <- & _).
  apply before_dashes_clean.
Qed.

(** X24.  What [_strip_sql_comments] returns never contains two dashes in
    a row: no line comment, and no text that would start one, is left in
    a statement. *)
Theorem stripped_sql_has_no_line_comment (sql pre post : string) :
  _strip_sql_comments sql <> pre +:+ "--" +:+ post.
Proof.
  intros H. apply (strip_comments_clean sql). rewrite H, !string_app_list.
  now exists (list_ascii_of_string pre), (list_ascii_of_string post).
Qed.





























Section Schema.
Context {conn : Type}.




End Schema.

End DdlProofs.

(** ** The change events *)

Module AuditEventsProofs.
Import AuditEvents.

Definition event_ids (evs : list event_row) : list string := map ev_change_event_id evs.

Lemma id_taken_false (evs : list event_row) (eid : string) :
  id_taken evs eid = false <-> eid ∉ event_ids evs.
Proof.
  unfold id_taken, event_ids. induction evs as [|e evs IH]; simpl.
  - split; [intros _ H; inversion H | reflexivity].
  - rewrite orb_false_iff, IH, not_elem_of_cons, String.eqb_neq. split.
    + intros [H1 H2]. split; [congruence | exact H2].
    + intros [H1 H2]. split; [congruence | exact H2].
Qed.

Lemma finish_rows_other now eid status c notes (evs : list event_row) :
  eid ∉ event_ids evs -> map (finish_row now eid status c notes) evs = evs.
Proof.
  induction evs as [|e evs IH]; [reflexivity|]. simpl.
  intros [Hne Hnot]%not_elem_of_cons. rewrite IH by exact Hnot.
  unfold finish_row. rewrite (proj2 (String.eqb_neq _ _)) by congruence. reflexivity.
Qed.

(** X23.  When [start_change_event] returns, the identifier of its
    context is the one just drawn and was not in use, and exactly one row
    was appended, RUNNING and not finished.  [finish_change_event] on that
    identifier then leaves the earlier rows as they were and turns the new
    row into one with the given status, counters and notes, finished at
    the database time, and with the actor, source, file, dry-run flag and
    dates given at the start.  [finish_change_event] on an identifier that
    is not stored changes nothing. *)
Theorem started_event_is_finished_alone
    (d d1 : audit_db) (ctx : ChangeEventContext)
    (actor source_name file_name status : string) (dry_run : bool)
    (date_min date_max notes : option string) (ins upd unch conf rej : Z) :
  start_change_event d actor source_name file_name dry_run date_min date_max = (Ok ctx, d1) ->
  let eid := ctx_change_event_id ctx in
  eid = uuids d (drawn d)
  /\ (eid ∉ event_ids (events d))
  /\ drawn d1 = S (drawn d)
  /\ (exists running,
        events d1 = events d ++ [running]
        /\ ev_change_event_id running = eid /\ ev_status running = "RUNNING"
        /\ ev_finished_at running = None /\ ev_counters running = None)
  /\ events (finish_change_event d1 eid status ins upd unch conf rej notes)
     = events d
       ++ [ {| ev_change_event_id := eid; ev_status := status; ev_actor := actor;
               ev_source_name := source_name; ev_file_name := file_name;
               ev_dry_run := dry_run; ev_date_min := date_min; ev_date_max := date_max;
               ev_finished_at := Some (db_now d);
               ev_counters := Some {| inserted_count := ins; updated_count := upd;
                                      unchanged_count := unch; conflicted_count := conf;
                                      rejected_count := rej |};
               ev_notes := notes |} ]
  /\ forall other, other ∉ event_ids (events d1) ->
       events (finish_change_event d1 other status ins upd unch conf rej notes)
       = events d1.
Proof.
  unfold start_change_event.
  destruct (id_taken (events d) (uuids d (drawn d))) eqn:Htaken; [discriminate|].
  intros [= <- <-]. cbv zeta. cbn [ctx_change_event_id events drawn].
  apply id_taken_false in Htaken.
  split; [reflexivity|]. split; [exact Htaken|]. split; [reflexivity|]. split; [|split].
  - eexists. split; [reflexivity|]. repeat split.
  - unfold finish_change_event. cbn [events db_now]. rewrite map_app.
    rewrite finish_rows_other by exact Htaken. cbn [map]. unfold finish_row.
    cbn [ev_change_event_id]. rewrite String.eqb_refl. reflexivity.
  - intros other Hother. unfold finish_change_event. cbn [events db_now].
    now apply finish_rows_other.
Qed.

(** A database with no event yet. *)
Definition fresh_db : audit_db :=
  {| events := []; uuids := fun n => "ev-" +:+ pretty n; drawn := 0;
     db_now := VStr "2024-03-01T00:00:00" |}.

Lemma started_event_witness :
  exists ctx d1,
    start_change_event fresh_db "etl" "file_upload" "sales.csv, budget.csv" false None None
    = (Ok ctx, d1)
    /\ ctx_change_event_id ctx = "ev-0"
    /\ map ev_status
         (events (finish_change_event d1 (ctx_change_event_id ctx) "SUCCESS" 3 1 5 0 0 None))
       = ["SUCCESS"].
Proof.
  destruct (start_change_event fresh_db "etl" "file_upload" "sales.csv, budget.csv"
              false None None) as [[ctx|e] d1] eqn:H;
    [|vm_compute in H; discriminate H].
  destruct (started_event_is_finished_alone fresh_db d1 ctx "etl" "file_upload"
              "sales.csv, budget.csv" "SUCCESS" false None None None 3 1 5 0 0 H)
    as (Hid & _ & _ & _ & Hfin & _).
  exists ctx, d1. split; [reflexivity|]. split; [rewrite Hid; reflexivity|].
  rewrite Hfin. reflexivity.
Defined.

End AuditEventsProofs.

(** ** The raw row count *)

Module ExtractProofs.
Import Extract.

Local Open Scope Z_scope.

Definition newline : ascii := "010"%char.

Lemma count_newlines_app (x y : list ascii) :
  count_newlines (x ++ y) = count_newlines x + count_newlines y.
Proof. unfold count_newlines. rewrite filter_app, length_app. lia. Qed.

Lemma count_reads (reads : list (list ascii)) (n : Z) :
  foldl (fun n chunk => n + count_newlines chunk) n reads
  = n + count_newlines (concat reads).
Proof.
  revert n. induction reads as [|r reads IH]; intros n; simpl.
  - unfold count_newlines. simpl. lia.
  - rewrite IH, count_newlines_app. lia.
Qed.

Lemma count_whole (content : list ascii) :
  foldl (fun n chunk => n + count_newlines chunk) 0
        (Merge.chunks_fuel (length content) read_size content)
  = count_newlines content.
Proof.
  rewrite count_reads, MergeProofs.chunks_concat; [lia | | lia].
  unfold read_size. lia.
Qed.

(** A line of a table file: no line feed in it. *)
Definition one_line (ln : list ascii) : Prop := newline ∉ ln.

Lemma count_line (ln : list ascii) : one_line ln -> count_newlines ln = 0.
Proof.
  unfold one_line, count_newlines. induction ln as [|c ln IH]; [reflexivity|].
  intros [Hc Hln]%not_elem_of_cons. rewrite filter_cons.
  rewrite decide_False by (intros ->; now apply Hc). now apply IH.
Qed.

Lemma count_joined (lines : list (list ascii)) :
  Forall one_line lines -> lines <> [] ->
  count_newlines (Ddl.join_lines lines) = Z.of_nat (length lines) - 1.
Proof.
  induction 1 as [|ln lines Hln Hall IH]; [contradiction|]. intros _.
  destruct lines as [|ln2 lines].
  - simpl. rewrite count_line by exact Hln. lia.
  - change (Ddl.join_lines (ln :: ln2 :: lines))
      with (ln ++ newline :: Ddl.join_lines (ln2 :: lines)).
    rewrite count_newlines_app, count_line by exact Hln.
    change (newline :: Ddl.join_lines (ln2 :: lines))
      with ([newline] ++ Ddl.join_lines (ln2 :: lines)).
    rewrite count_newlines_app, IH by discriminate.
    change (count_newlines [newline]) with 1. cbn [length]. lia.
Qed.

Lemma last_joined (lines : list (list ascii)) (ln : list ascii) (c : ascii) :
  last lines = Some ln -> last ln = Some c -> last (Ddl.join_lines lines) = Some c.
Proof.
  induction lines as [|l lines IH]; [discriminate|]. intros Hl Hc.
  destruct lines as [|l2 lines].
  - simpl in Hl. injection Hl as ->. exact Hc.
  - change (Ddl.join_lines (l :: l2 :: lines))
      with (l ++ newline :: Ddl.join_lines (l2 :: lines)).
    rewrite last_app. cbn [last] in Hl.
    assert (H2 : last (Ddl.join_lines (l2 :: lines)) = Some c) by (apply IH; assumption).
    destruct (Ddl.join_lines (l2 :: lines)) as [|x t] eqn:Hj; [discriminate|].
    change (last (newline :: x :: t)) with (last (x :: t)). now rewrite H2.
Qed.

(** X27.  For a CSV file made of lines without embedded line feeds, the
    last of them not empty, [get_raw_row_count] returns the number of
    lines minus one, the header, whether or not the file ends with a line
    feed and however the file is cut into reads; an empty file gives
    zero. *)
Theorem csv_row_count_is_lines_minus_header
    (lines : list (list ascii)) (ln : list ascii) :
  Forall one_line lines ->
  last lines = Some ln -> ln <> [] ->
  get_raw_row_count (Ddl.join_lines lines) = Z.of_nat (length lines) - 1
  /\ get_raw_row_count (Ddl.join_lines lines ++ [newline]) = Z.of_nat (length lines) - 1
  /\ get_raw_row_count [] = 0.
Proof.
  intros Hall Hlast Hne.
  assert (Hlines : lines <> []) by (intros ->; discriminate).
  destruct (exists_last Hne) as (init & c & ->).
  assert (Hc : c <> newline).
  { intros ->. apply (proj1 (Forall_forall _ _) Hall (init ++ [newline])).
    - now apply last_Some_elem_of.
    - apply elem_of_app. right. left. }
  assert (Hlen : 1 <= Z.of_nat (length lines)) by (destruct lines; [contradiction | simpl; lia]).
  unfold get_raw_row_count. rewrite !count_whole. split; [|split].
  - rewrite (last_joined lines (init ++ [c]) c Hlast) by apply last_snoc.
    rewrite (proj2 (Ascii.eqb_neq c "010")) by exact Hc.
    rewrite count_joined by assumption. lia.
  - rewrite last_snoc. change (Ascii.eqb newline "010") with true.
    rewrite count_newlines_app, count_joined by assumption.
    change (count_newlines [newline]) with 1. lia.
  - reflexivity.
Qed.

Lemma csv_row_count_witness :
  get_raw_row_count
    (Ddl.join_lines (map list_ascii_of_string ["order_id,revenue"; "1,100"; "2,250"]))
  = 2.
Proof.
  destruct (csv_row_count_is_lines_minus_header
              (map list_ascii_of_string ["order_id,revenue"; "1,100"; "2,250"])
              (list_ascii_of_string "2,250")) as [H _].
  - repeat constructor; apply (bool_decide_unpack _); vm_compute; exact I.
  - reflexivity.
  - discriminate.
  - exact H.
Defined.

End ExtractProofs.
